(** * gunk convert: translation of parsed proto documents to Gunk text

    A shallow embedding of [convert/convert.go] (package [convert] of gunk)
    and the properties of its declaration translators.

    The parsed document comes from [github.com/emicklei/proto]; its tree is
    modelled by the inductive type [proto.Visitee] with the fields the
    converter reads.  The [builder] of the Go code is mutated in place and
    the warnings go to [os.Stderr]; both are threaded through a small
    state-and-error monad.  Library calls whose full behaviour lives
    outside the package ([strconv.Quote], [strings.ToUpper], the [snaker]
    case conversions, the iteration order of a Go map) are the fields of
    the classes [GoRuntime] and [Snaker].  An [int] of the Go code (a line,
    a column, a sequence number, the integer of an enum value, an index) is
    only compared and printed; it is a [Z] or a [nat] here.  What [Run],
    [run] and [convertFile] do around the translation (the file system,
    the parser, [format.Source]) goes through the fields of the class
    [OS]; [convertFile] here is the translation in the middle of the Go
    function of that name, and [OnDisk.convertFile] the whole of it. *)

From Stdlib Require Import ZArith Ascii DecimalString.
From stdpp Require Import base list strings gmap fin_maps.

Local Open Scope Z_scope.
Set Warnings "-register-all".

Arguments String.append !s1 s2 : simpl nomatch.

(** ** Strings *)

Module Str.

Definition LF : ascii := ascii_of_nat 10.
Definition TAB : ascii := ascii_of_nat 9.
Definition DQ : ascii := ascii_of_nat 34.
Definition BSL : ascii := ascii_of_nat 92.

(** Go string literals are written here with their escapes: [\n], [\t]
    and [\\] as in Go, and [\'] for Go's escaped double quote. *)
Fixpoint go (s : string) : string :=
    match s with
    | EmptyString => EmptyString
    | String c EmptyString => s
    | String c (String d r as t) =>
        if Ascii.eqb c BSL then
          if Ascii.eqb d "n" then String LF (go r)
          else if Ascii.eqb d "t" then String TAB (go r)
          else if Ascii.eqb d "'" then String DQ (go r)
          else if Ascii.eqb d BSL then String BSL (go r)
          else String c (go t)
        else String c (go t)
    end.

(** [contains sub s]: [sub] occurs in [s] as a contiguous piece. *)
Definition contains (sub s : string) : Prop :=
    exists pre post, s = pre +:+ sub +:+ post.

(** Boolean search for [sub] in [s]. *)
Fixpoint containsb (sub s : string) : bool :=
  String.prefix sub s ||
  match s with
  | EmptyString => false
  | String _ r => containsb sub r
  end.

(** The concatenation of a list of strings. *)
Definition join (l : list string) : string := fold_right String.append "" l.

(** Decimal rendering of an [int] operand of [%d]. *)
Definition itoa (z : Z) : string := NilZero.string_of_int (Z.to_int z).

(** [drop n s]: [s] without its first [n] bytes. *)
Fixpoint drop (n : nat) (s : string) : string :=
  match n, s with
  | O, _ => s
  | S n', String _ r => drop n' r
  | S _, EmptyString => EmptyString
  end.

(** [strings.Replace(s, old, new, 1)]: the first occurrence of [old] in
    [s] replaced by [new]; [s] itself when there is none. *)
Fixpoint ReplaceFirst (s old new : string) : string :=
  if String.prefix old s then new +:+ drop (String.length old) s
  else
    match s with
    | EmptyString => EmptyString
    | String c r => String c (ReplaceFirst r old new)
    end.

End Str.

Notation "'go:' s" := (ltac:(let r := eval vm_compute in (Str.go s) in exact r))
  (at level 10, s at level 0, only parsing).

(** ** The parsed document ([text/scanner], [github.com/emicklei/proto]) *)

Module scanner.
Record Position := { Line : Z; Column : Z }.
End scanner.

Module proto.

Module Comment.
Record t := { Position : scanner.Position; Lines : list string }.
End Comment.

(** [Literal]: [Source] holds the token text (a string without its
    quotes), [OrderedMap] the entries of an aggregate [{ k: v ... }] in
    the order written ([LiteralMap], a slice of [*NamedLiteral]). *)
Inductive Literal := mkLiteral {
    Source : string;
    IsString : bool;
    OrderedMap : list (string * Literal)
  }.

Module NamedLiteral.
Abbreviation t := (string * Literal)%type.
Definition Name (l : t) : string := fst l.
Definition Literal (l : t) : Literal := snd l.
End NamedLiteral.

Module Option.
Record t := {
    Position : scanner.Position;
    Comment : option Comment.t;
    Name : string;
    Constant : Literal
    }.
End Option.

Module Package.
Record t := { Position : scanner.Position; Comment : option Comment.t; Name : string }.
End Package.

Module Import_.
Record t := { Position : scanner.Position; Filename : string }.
End Import_.

Module NormalField.
Record t := {
    Position : scanner.Position;
    Comment : option Comment.t;
    Name : string;
    Type_ : string;
    Sequence : Z;
    Options : list Option.t;
    Repeated : bool
    }.
End NormalField.

(** [MapField] embeds [*Field] and adds [KeyType]; it has no
    [Repeated] flag. *)
Module MapField.
Record t := {
    Position : scanner.Position;
    Comment : option Comment.t;
    Name : string;
    Type_ : string;
    Sequence : Z;
    Options : list Option.t;
    KeyType : string
    }.
End MapField.

(** The records below have children ([Elements []Visitee]); they are
    parametrised by the type [V] of the children and closed by
    [Visitee]. *)
Module EnumField.
Record t {V : Type} := {
    Position : scanner.Position;
    Comment : option Comment.t;
    Name : string;
    Integer : Z;
    Elements : list V
    }.
Arguments t : clear implicits.
End EnumField.

Module Enum.
Record t {V : Type} := {
    Position : scanner.Position;
    Comment : option Comment.t;
    Name : string;
    Elements : list V
    }.
Arguments t : clear implicits.
End Enum.

Module Message.
Record t {V : Type} := {
    Position : scanner.Position;
    Comment : option Comment.t;
    Name : string;
    Elements : list V
    }.
Arguments t : clear implicits.
End Message.

Module RPC.
Record t {V : Type} := {
    Position : scanner.Position;
    Comment : option Comment.t;
    Name : string;
    RequestType : string;
    ReturnsType : string;
    Elements : list V
    }.
Arguments t : clear implicits.
End RPC.

Module Service.
Record t {V : Type} := {
    Position : scanner.Position;
    Comment : option Comment.t;
    Name : string;
    Elements : list V
    }.
Arguments t : clear implicits.
End Service.

(** The implementations of the interface [proto.Visitee], one
    constructor per pointer type.  The converter only prints the type of
    the last five, so they carry no fields. *)
Inductive Visitee :=
  | pSyntax
  | pPackage (p : Package.t)
  | pImport (i : Import_.t)
  | pMessage (m : Message.t Visitee)
  | pEnum (e : Enum.t Visitee)
  | pService (s : Service.t Visitee)
  | pOption (o : Option.t)
  | pNormalField (f : NormalField.t)
  | pMapField (f : MapField.t)
  | pEnumField (f : EnumField.t Visitee)
  | pRPC (r : RPC.t Visitee)
  | pComment (c : Comment.t)
  | pOneof
  | pOneOfField
  | pReserved
  | pExtensions
  | pGroup.

(** What [%T] prints for a [Visitee]. *)
Definition typeName (v : Visitee) : string :=
    match v with
    | pSyntax => "*proto.Syntax"
    | pPackage _ => "*proto.Package"
    | pImport _ => "*proto.Import"
    | pMessage _ => "*proto.Message"
    | pEnum _ => "*proto.Enum"
    | pService _ => "*proto.Service"
    | pOption _ => "*proto.Option"
    | pNormalField _ => "*proto.NormalField"
    | pMapField _ => "*proto.MapField"
    | pEnumField _ => "*proto.EnumField"
    | pRPC _ => "*proto.RPC"
    | pComment _ => "*proto.Comment"
    | pOneof => "*proto.Oneof"
    | pOneOfField => "*proto.OneOfField"
    | pReserved => "*proto.Reserved"
    | pExtensions => "*proto.Extensions"
    | pGroup => "*proto.Group"
    end.

End proto.

(** ** Library behaviour the converter relies on *)

(** An operand of [fmt.Sprintf]: a string, an [int], a value printed with
    [%T] (given by its type name) or an [error] (given by its message). *)
Inductive operand :=
| aString (s : string)
| aInt (z : Z)
| aType (t : string)
| aError (e : string).

Class GoRuntime := {
  (** [strconv.Quote], the rendering of a string under [%q]. *)
  strconv_Quote : string -> string;
  (** [strings.ToUpper]. *)
  strings_ToUpper : string -> string;
  (** [fmt.Sprintf] from a [%] that [Sprintf] below does not interpret:
      a verb without operand, flags, a width, operands left over. *)
  fmt_rest : string -> list operand -> string;
  (** The order in which [range] visits the keys of a map: unspecified,
      but each key once. *)
  mapRange : gmap string bool -> list string;
  mapRange_perm : forall m, mapRange m ≡ₚ (map_to_list m).*1
}.

(** [github.com/knq/snaker]. *)
Class Snaker := {
  ForceCamelIdentifier : string -> string;
  CamelToSnake : string -> string
}.

(** [filepath.Base] on a slash-separated path without trailing slash: the
    last element; the empty path gives ["."]. *)
Module filepath.
Fixpoint lastElem (cur : string) (s : string) : string :=
    match s with
    | EmptyString => cur
    | String c r =>
        if Ascii.eqb c "/" then lastElem "" r else lastElem (cur +:+ String c "") r
    end.
Definition Base (path : string) : string :=
    if String.eqb path "" then "." else lastElem "" path.

(** [filepath.Ext] on a slash-separated path: the loop goes from the last
    byte of the path back to the first slash and returns the suffix that
    starts at the first dot it meets; [back] holds the bytes still to
    visit, last first, and [seen] the suffix already visited. *)
Fixpoint Ext_from (seen back : string) : string :=
    match back with
    | EmptyString => EmptyString
    | String c back' =>
        if Ascii.eqb c "/" then EmptyString
        else if Ascii.eqb c "." then String c seen
        else Ext_from (String c seen) back'
    end.
Definition Ext (path : string) : string := Ext_from "" (String.rev path).
End filepath.


(** ** Errors, the builder and the monad of the translators *)

(** A Go [error] is its message; [NilDeref] is the run-time panic of a
    nil pointer dereference. *)
Inductive error :=
| Error (msg : string)
| NilDeref.

Inductive result (A : Type) :=
| Ok (a : A)
| Fail (e : error).
Arguments Ok {A} a.
Arguments Fail {A} e.

Record builder := {
  filename : string;
  translatedDeclarations : list string;
  pkg : option proto.Package.t;
  pkgOpts : list proto.Option.t;
  imports : list proto.Import_.t;
  importsUsed : gmap string bool
}.

(** The state a translator works on: the builder it is a method of and
    the lines written to [os.Stderr] so far. *)
Record state := {
  bld : builder;
  stderr : list string
}.

(** A method of [*builder]: it returns a value or an error, and in both
    cases leaves the state it has reached. *)
Definition M (A : Type) : Type := state -> result A * state.

Definition ret {A} (a : A) : M A := fun st => (Ok a, st).

Definition bind {A B} (m : M A) (k : A -> M B) : M B :=
  fun st =>
    match m st with
    | (Ok a, st') => k a st'
    | (Fail e, st') => (Fail e, st')
    end.

Definition fail {A} (e : error) : M A := fun st => (Fail e, st).

Notation "'let*' x ':=' m 'in' k" := (bind m (fun x => k))
  (at level 10, x name, m at level 100, k at level 200).
Notation "'let*' ' p ':=' m 'in' k" := (bind m (fun x => match x with p => k end))
  (at level 10, p pattern, m at level 100, k at level 200).
Notation "'do' m ; k" := (bind m (fun _ => k))
  (at level 10, m at level 100, k at level 200).

(** A call whose returned [error] is dropped by the caller. *)
Definition ignoreError {A} (m : M A) : M unit :=
  fun st =>
    match m st with
    | (Fail NilDeref, st') => (Fail NilDeref, st')
    | (_, st') => (Ok tt, st')
    end.

(** [if err := m; err != nil { return h(err) }]. *)
Definition onError {A} (m : M A) (h : string -> M A) : M A :=
  fun st =>
    match m st with
    | (Fail (Error err), st') => h err st'
    | r => r
    end.

(** [for i, x := range l] with an accumulator of the local variables the
    body assigns. *)
Fixpoint rangeFrom {A B} (i : nat) (l : list A) (body : B -> nat -> A -> M B) (acc : B) : M B :=
  match l with
  | [] => ret acc
  | x :: l' => let* acc' := body acc i x in rangeFrom (S i) l' body acc'
  end.

Definition range {A B} (l : list A) (body : B -> nat -> A -> M B) (acc : B) : M B :=
  rangeFrom 0 l body acc.

(** A [switch] on a string: the first clause listing [x] is taken. *)
Fixpoint switch {A} (x : string) (clauses : list (list string * A)) (default : A) : A :=
  match clauses with
  | [] => default
  | (ks, v) :: rest => if existsb (String.eqb x) ks then v else switch x rest default
  end.

Definition getBuilder : M builder := fun st => (Ok (bld st), st).

Definition setBuilder (b : builder) : M unit :=
  fun st => (Ok tt, {| bld := b; stderr := stderr st |}).

(** [fmt.Fprintln(os.Stderr, err)]. *)
Definition eprintln (line : string) : M unit :=
  fun st => (Ok tt, {| bld := bld st; stderr := stderr st ++ [line] |}).

(** [b.translatedDeclarations = append(b.translatedDeclarations, s)]. *)
Definition appendDeclaration (s : string) : M unit :=
  let* b := getBuilder in
  setBuilder {| filename := filename b;
                translatedDeclarations := translatedDeclarations b ++ [s];
                pkg := pkg b; pkgOpts := pkgOpts b; imports := imports b;
                importsUsed := importsUsed b |}.

(** [b.importsUsed[path] = true]. *)
Definition markImport (path : string) : M unit :=
  let* b := getBuilder in
  setBuilder {| filename := filename b;
                translatedDeclarations := translatedDeclarations b;
                pkg := pkg b; pkgOpts := pkgOpts b; imports := imports b;
                importsUsed := <[path := true]> (importsUsed b) |}.

Definition setPkg (p : proto.Package.t) : M unit :=
  let* b := getBuilder in
  setBuilder {| filename := filename b;
                translatedDeclarations := translatedDeclarations b;
                pkg := Some p; pkgOpts := pkgOpts b; imports := imports b;
                importsUsed := importsUsed b |}.

Definition appendImport (i : proto.Import_.t) : M unit :=
  let* b := getBuilder in
  setBuilder {| filename := filename b;
                translatedDeclarations := translatedDeclarations b;
                pkg := pkg b; pkgOpts := pkgOpts b; imports := imports b ++ [i];
                importsUsed := importsUsed b |}.

Definition appendPkgOpt (o : proto.Option.t) : M unit :=
  let* b := getBuilder in
  setBuilder {| filename := filename b;
                translatedDeclarations := translatedDeclarations b;
                pkg := pkg b; pkgOpts := pkgOpts b ++ [o]; imports := imports b;
                importsUsed := importsUsed b |}.

Section Convert.

Context {rt : GoRuntime} {snk : Snaker}.

(** ** [fmt.Sprintf] for the verbs the converter uses *)

Fixpoint Sprintf (f : string) (a : list operand) : string :=
  match f with
  | EmptyString => match a with [] => "" | _ => fmt_rest f a end
  | String c f' =>
      if Ascii.eqb c "%" then
        match f', a with
        | String "s" r, aString s :: a' => s +:+ Sprintf r a'
        | String "q" r, aString s :: a' => strconv_Quote s +:+ Sprintf r a'
        | String "d" r, aInt z :: a' => Str.itoa z +:+ Sprintf r a'
        | String "T" r, aType t :: a' => t +:+ Sprintf r a'
        | String "v" r, aError e :: a' => e +:+ Sprintf r a'
        | _, _ => fmt_rest f a
        end
      else String c (Sprintf f' a)
  end.

(** ** [format], [formatError] *)

Definition indentation (indent : nat) : string :=
  fold_right String.append "" (replicate indent (go:"\t")).

Definition format (w : string) (indent : nat) (comments : option proto.Comment.t)
    (s : string) (args : list operand) : string :=
  let w :=
    match comments with
    | Some comments =>
        fold_left (fun w c => w +:+ indentation indent +:+ Sprintf (go:"//%s\n") [aString c])
                  (proto.Comment.Lines comments) w
    | None => w
    end in
  if String.eqb s "" then w
  else w +:+ indentation indent +:+ Sprintf s args.

Definition formatError (pos : scanner.Position) (s : string) (args : list operand) : M string :=
  let* b := getBuilder in
  ret (Sprintf "%s:%d:%d: %v"
         [aString (filename b); aInt (scanner.Line pos); aInt (scanner.Column pos);
          aError (Sprintf s args)]).

(** [return b.formatError(...)]. *)
Definition failAt {A} (pos : scanner.Position) (s : string) (args : list operand) : M A :=
  let* e := formatError pos s args in fail (Error e).

(** [fmt.Fprintln(os.Stderr, b.formatError(...))]. *)
Definition warnAt (pos : scanner.Position) (s : string) (args : list operand) : M unit :=
  let* e := formatError pos s args in eprintln e.

(** ** [goType] *)

Definition goType (fieldType : string) : string :=
  switch fieldType
    [ (["bool"], "bool");
      (["string"], "string");
      (["bytes"], "[]byte");
      (["double"], "float64");
      (["float"], "float32");
      (["int32"], "int");
      (["sint32"; "sfixed32"], "int32");
      (["int64"; "sint64"; "sfixed64"], "int64");
      (["uint32"; "fixed32"], "uint32");
      (["uint64"; "fixed64"], "uint64") ]
    fieldType.

(** ** [handleLiteralString] *)

Definition handleLiteralString (lit : proto.Literal) : result string :=
  if negb (proto.IsString lit) then Fail (Error "literal was expected to be a string")
  else Ok (proto.Source lit).

(** ** [handleMessageField] *)

Definition handleMessageField (w : string) (field : proto.Visitee) : M string :=
  let* '(name, typ, sequence, repeated, comment, options) :=
    match field with
    | proto.pNormalField ft =>
        ret (proto.NormalField.Name ft,
             goType (proto.NormalField.Type_ ft),
             proto.NormalField.Sequence ft,
             proto.NormalField.Repeated ft,
             proto.NormalField.Comment ft,
             proto.NormalField.Options ft)
    | proto.pMapField ft =>
        let keyType := goType (proto.MapField.KeyType ft) in
        let fieldType := goType (proto.MapField.Type_ ft) in
        ret (proto.MapField.Name ft,
             Sprintf "map[%s]%s" [aString keyType; aString fieldType],
             proto.MapField.Sequence ft,
             false,
             proto.MapField.Comment ft,
             proto.MapField.Options ft)
    | _ =>
        fail (Error (Sprintf "unhandled message field type %T" [aType (proto.typeName field)]))
    end in
  let typ := if repeated : bool then "[]" +:+ typ else typ in
  let* _ := range options (fun _ _ o =>
    warnAt (proto.Option.Position o) "unhandled field option %q" [aString (proto.Option.Name o)]) tt in
  let w := format w 1 comment "%s %s" [aString (ForceCamelIdentifier name); aString typ] in
  let w := format w 0 None (go:" `pb:\'%d\' json:\'%s\'`\n")
             [aInt sequence; aString (CamelToSnake name)] in
  ret w.

(** ** [handleEnum] *)

(** The first loop of [handleEnum]: check to see if we can output the
    enum using an iota. *)
Definition handleEnum_outputIota (e : proto.Enum.t proto.Visitee) : M bool :=
  range (proto.Enum.Elements e) (fun outputIota i c =>
    match c with
    | proto.pEnumField ef =>
        if negb (Z.of_nat i =? proto.EnumField.Integer ef) then ret false else ret outputIota
    | proto.pOption o =>
        do warnAt (proto.Option.Position o) "unhandled enum option %q"
             [aString (proto.Option.Name o)] ;
        ret outputIota
    | _ =>
        failAt (proto.Enum.Position e) "unexpected type %T in enum, expected enum field"
          [aType (proto.typeName c)]
    end) true.

Definition handleEnum (e : proto.Enum.t proto.Visitee) : M unit :=
  let w := "" in
  let w := format w 0 (proto.Enum.Comment e) (go:"type %s int\n") [aString (proto.Enum.Name e)] in
  let w := format w 0 None (go:"\nconst (\n") [] in
  let* outputIota := handleEnum_outputIota e in
  (* Now we can output the enum as a const. *)
  let* w := range (proto.Enum.Elements e) (fun w i c =>
    match c with
    | proto.pEnumField ef =>
        let* _ := range (proto.EnumField.Elements ef) (fun _ _ e' =>
          match e' with
          | proto.pOption o =>
              warnAt (proto.Option.Position o) "unhandled enumvalue option %q"
                [aString (proto.Option.Name o)]
          | _ => ret tt
          end) tt in
        if negb outputIota then
          ret (format w 1 (proto.EnumField.Comment ef) (go:"%s %s = %d\n")
                 [aString (proto.EnumField.Name ef); aString (proto.Enum.Name e);
                  aInt (proto.EnumField.Integer ef)])
        else if Nat.eqb i 0 then
          ret (format w 1 (proto.EnumField.Comment ef) (go:"%s %s = iota\n")
                 [aString (proto.EnumField.Name ef); aString (proto.Enum.Name e)])
        else
          ret (format w 1 (proto.EnumField.Comment ef) (go:"%s\n")
                 [aString (proto.EnumField.Name ef)])
    | _ => ret w
    end) w in
  let w := format w 0 None ")" [] in
  appendDeclaration w.

(** ** [handleMessage] *)

Definition handleMessage (m : proto.Message.t proto.Visitee) : M unit :=
  let w := "" in
  let w := format w 0 (proto.Message.Comment m) (go:"type %s struct {\n")
             [aString (proto.Message.Name m)] in
  let* w := range (proto.Message.Elements m) (fun w _ e =>
    match e with
    | proto.pNormalField f =>
        onError (handleMessageField w e) (fun err =>
          failAt (proto.NormalField.Position f) "error with message field: %v" [aError err])
    | proto.pEnum e' =>
        (* The error returned by handleEnum is not looked at. *)
        do ignoreError (handleEnum e') ; ret w
    | proto.pComment c =>
        ret (format w 1 (Some c) "" [])
    | proto.pMapField mf =>
        onError (handleMessageField w e) (fun err =>
          failAt (proto.MapField.Position mf) "error with message field: %v" [aError err])
    | proto.pOption o =>
        do warnAt (proto.Option.Position o) "unhandled message option %q"
             [aString (proto.Option.Name o)] ;
        ret w
    | _ =>
        failAt (proto.Message.Position m) "unexpected type %T in message"
          [aType (proto.typeName e)]
    end) w in
  let w := format w 0 None "}" [] in
  appendDeclaration w.

(** ** [handleService] *)

(** The loop over [literal.OrderedMap] of the clause
    [case "(google.api.http)"]: it assigns [method], [url] and [body]. *)
Definition handleService_httpKeys (opt : proto.Option.t) : M (string * string * string) :=
  let literal := proto.Option.Constant opt in
    range (proto.OrderedMap literal) (fun '(method, url, body) _ l =>
      switch (proto.NamedLiteral.Name l)
        [ (["body"],
           match handleLiteralString (proto.NamedLiteral.Literal l) with
           | Ok body => ret (method, url, body)
           | Fail _ =>
               failAt (proto.Option.Position opt) "option for body should be a string" []
           end) ]
        (let method := proto.NamedLiteral.Name l in
         match handleLiteralString (proto.NamedLiteral.Literal l) with
         | Ok url => ret (method, url, body)
         | Fail _ =>
             failAt (proto.Option.Position opt) "option for %q should be a string (url)"
               [aString method]
         end))
      ("", "", "").

(** The clause [case "(google.api.http)"] of the switch on the name of an
    option of an RPC; [w] and [comment] are the local variables of
    [handleService] it assigns. *)
Definition handleService_http (opt : proto.Option.t) (w : string)
    (comment : option proto.Comment.t) : M (string * option proto.Comment.t) :=
  let literal := proto.Option.Constant opt in
  if Nat.eqb (length (proto.OrderedMap literal)) 0 then
    failAt (proto.Option.Position opt) "expected option to be a map" []
  else
  let* '(method, url, body) := handleService_httpKeys opt in
  (* Check if we received a valid google http annotation. *)
  if negb (String.eqb method "") && negb (String.eqb url "") then
    let '(w, comment) :=
      match comment with
      | Some _ => (format w 1 comment (go:"//\n") [], None)
      | None => (w, comment)
      end in
    let w := format w 1 None (go:"// +gunk http.Match{\n") [] in
    let w := format w 1 None (go:"//     Method: %q,\n") [aString (strings_ToUpper method)] in
    let w := format w 1 None (go:"//     Path: %q,\n") [aString url] in
    let w := if negb (String.eqb body "")
             then format w 1 None (go:"//     Body: %q,\n") [aString body] else w in
    let w := format w 1 None (go:"// }\n") [] in
    do markImport "github.com/gunk/opt/http" ;
    ret (w, comment)
  else ret (w, comment).

(** The body of the loop over [s.Elements] for an element that is an RPC
    [r] at index [i]. *)
Definition handleService_rpc (i : nat) (r : proto.RPC.t proto.Visitee) (w : string) : M string :=
  let w :=
    if Nat.ltb 0 i &&
       (bool_decide (proto.RPC.Comment r <> None) || Nat.ltb 0 (length (proto.RPC.Elements r)))
    then format w 0 None (go:"\n") [] else w in
  let comment := proto.RPC.Comment r in
  let* '(w, comment) :=
    range (proto.RPC.Elements r) (fun '(w, comment) _ o =>
      match o with
      | proto.pOption opt =>
          let n := proto.Option.Name opt in
          switch n
            [ (["(google.api.http)"], handleService_http opt w comment) ]
            (do warnAt (proto.Option.Position opt) "unhandled method option %q" [aString n] ;
             ret (w, comment))
      | _ =>
          failAt (proto.RPC.Position r) "unexpected type %T in service rpc, expected option"
            [aType (proto.typeName o)]
      end) (w, comment) in
  let requestType := proto.RPC.RequestType r in
  let returnsType := proto.RPC.ReturnsType r in
  let requestType := if String.eqb requestType "google.protobuf.Empty" then "" else requestType in
  let returnsType := if String.eqb returnsType "google.protobuf.Empty" then "" else returnsType in
  ret (format w 1 comment (go:"%s(%s) %s\n")
         [aString (proto.RPC.Name r); aString requestType; aString returnsType]).

Definition handleService (s : proto.Service.t proto.Visitee) : M unit :=
  let w := "" in
  let w := format w 0 (proto.Service.Comment s) (go:"type %s interface {\n")
             [aString (proto.Service.Name s)] in
  let* w := range (proto.Service.Elements s) (fun w i e =>
    match e with
    | proto.pRPC r => handleService_rpc i r w
    | proto.pOption o =>
        do warnAt (proto.Option.Position o) "unhandled service option %q"
             [aString (proto.Option.Name o)] ;
        ret w
    | _ =>
        failAt (proto.Service.Position s) "unexpected type %T in service, expected rpc"
          [aType (proto.typeName e)]
    end) w in
  let w := format w 0 None "}" [] in
  appendDeclaration w.

(** ** [genAnnotation], [genAnnotationString], [handlePackage] *)

Definition genAnnotation (name value : string) : string :=
  Sprintf "%s(%s)" [aString name; aString value].

Definition genAnnotationString (name value : string) : string :=
  Sprintf "%s(%q)" [aString name; aString value].

(** What a clause of the switch on the option name does: [go_package]
    keeps the option and continues, the default returns the error, the
    others assign [impt] and, all but [swift_prefix], [value]. *)
Inductive packageClause :=
| clauseGoPackage
| clauseAssign (impt value : string)
| clauseDefault.

(** The body of the loop over [b.pkgOpts]: [opt] and [gunkAnnotations]
    are the local variables of [handlePackage] it assigns. *)
Definition handlePackage_option (opt : option proto.Option.t) (gunkAnnotations : list string)
    (o : proto.Option.t) : M (option proto.Option.t * list string) :=
      let val := proto.Source (proto.Option.Constant o) in
      let n := proto.Option.Name o in
      match
        switch n
          [ (["go_package"], clauseGoPackage);
            (["deprecated"],
             clauseAssign "github.com/gunk/opt/file" (genAnnotation "Deprecated" val));
            (["optimize_for"],
             clauseAssign "github.com/gunk/opt/file" (genAnnotation "OptimizeFor" val));
            (["java_package"],
             clauseAssign "github.com/gunk/opt/file/java" (genAnnotationString "Package" val));
            (["java_outer_classname"],
             clauseAssign "github.com/gunk/opt/file/java"
               (genAnnotationString "OuterClassname" val));
            (["java_multiple_files"],
             clauseAssign "github.com/gunk/opt/file/java" (genAnnotation "MultipleFiles" val));
            (["java_string_check_utf8"],
             clauseAssign "github.com/gunk/opt/file/java" (genAnnotation "StringCheckUtf8" val));
            (["java_generic_services"],
             clauseAssign "github.com/gunk/opt/file/java" (genAnnotation "GenericServices" val));
            (* no assignment to value in this clause: it keeps its zero value *)
            (["swift_prefix"],
             clauseAssign "github.com/gunk/opt/file/swift" "");
            (["csharp_namespace"],
             clauseAssign "github.com/gunk/opt/file/csharp" (genAnnotationString "Namespace" val));
            (["objc_class_prefix"],
             clauseAssign "github.com/gunk/opt/file/objc"
               (genAnnotationString "ClassPrefix" val));
            (["php_generic_services"],
             clauseAssign "github.com/gunk/opt/file/php" (genAnnotation "GenericServices" val));
            (["cc_generic_services"],
             clauseAssign "github.com/gunk/opt/file/cc" (genAnnotation "GenericServices" val));
            (["cc_enable_arenas"],
             clauseAssign "github.com/gunk/opt/file/cc" (genAnnotation "EnableArenas" val)) ]
          clauseDefault
      with
      | clauseGoPackage => ret (Some o, gunkAnnotations)
      | clauseDefault =>
          failAt (proto.Option.Position o) "%q is an unhandled proto file option" [aString n]
      | clauseAssign impt value =>
          do markImport impt ;
          let pkg := filepath.Base impt in
          ret (opt, gunkAnnotations ++ [Sprintf "%s.%s" [aString pkg; aString value]])
      end.

Definition handlePackage : M string :=
  let w := "" in
  let* b := getBuilder in
  let* '(opt, gunkAnnotations) :=
    range (pkgOpts b) (fun '(opt, gunkAnnotations) _ o =>
      handlePackage_option opt gunkAnnotations o) (None, []) in
  (* Output the gunk annotations above the package comment. *)
  let w := fold_left (fun w ga =>
             format w 0 None (Sprintf (go:"// +gunk %s\n") [aString ga]) [])
             gunkAnnotations w in
  let* b := getBuilder in
  match pkg b with
  | None => fail NilDeref
  | Some p =>
      let w := format w 0 (proto.Package.Comment p) "" [] in
      let w := match opt with
               | Some opt => format w 0 (proto.Option.Comment opt) "" []
               | None => w
               end in
      let w := format w 0 None "package %s" [aString (proto.Package.Name p)] in
      let w := match opt with
               | Some opt =>
                   if negb (String.eqb (proto.Source (proto.Option.Constant opt)) "")
                   then format w 0 None " // proto %s"
                          [aString (proto.Source (proto.Option.Constant opt))]
                   else w
               | None => w
               end in
      ret w
  end.

(** ** [handleImports] *)

Definition handleImports (b : builder) : string :=
  if Nat.eqb (size (importsUsed b)) 0 && Nat.eqb (length (imports b)) 0 then ""
  else
    let w := "" in
    let w := format w 0 None "import (" [] in
    (* Imports that have been used during convert *)
    let w := fold_left (fun w i =>
               let w := format w 0 None (go:"\n") [] in
               format w 1 None (Sprintf "%q" [aString i]) [])
               (mapRange (importsUsed b)) w in
    (* Add any proto imports as comments. *)
    let w := fold_left (fun w i =>
               let w := format w 0 None (go:"\n") [] in
               format w 1 None "// %q" [aString (proto.Import_.Filename i)])
               (imports b) w in
    format w 0 None (go:"\n)") [].

(** ** [handleProtoType] *)

Definition handleProtoType (typ : proto.Visitee) : M unit :=
  match typ with
  | proto.pSyntax => ret tt
  | proto.pPackage p => setPkg p
  | proto.pImport i => appendImport i
  | proto.pMessage m => handleMessage m
  | proto.pEnum e => handleEnum e
  | proto.pService s => handleService s
  | proto.pOption o => appendPkgOpt o
  | _ => fail (Error (Sprintf "unhandled proto type %T" [aType (proto.typeName typ)]))
  end.

(** ** [convertFile]

    The translation in [convertFile], between the parser and
    [format.Source]: from the name of the file and the elements of the
    parsed document to the text handed to the formatter. *)

Definition newBuilder (filename : string) : builder :=
  {| filename := filename; translatedDeclarations := []; pkg := None;
     pkgOpts := []; imports := []; importsUsed := ∅ |}.

Definition convertFile (filename : string) (d : list proto.Visitee) : M string :=
  do setBuilder (newBuilder filename) ;
  let* _ := range d (fun _ _ e =>
    onError (handleProtoType e) (fun err =>
      fail (Error (Sprintf (go:"%v\n") [aError err])))) tt in
  let* translatedPkg := handlePackage in
  let* b := getBuilder in
  let translatedImports := handleImports b in
  let w := "" in
  let w := w +:+ translatedPkg in
  let w := w +:+ go:"\n\n" in
  let w := if negb (String.eqb translatedImports "")
           then (w +:+ translatedImports) +:+ go:"\n" else w in
  let w := fold_left (fun w l => ((w +:+ go:"\n") +:+ l) +:+ go:"\n")
             (translatedDeclarations b) w in
  ret w.

End Convert.

(** ** The files around the translation: [Run], [run], [convertFile]

    The file system, the parser of [github.com/emicklei/proto] and
    [format.Source] are the fields of the class [OS].  A call that
    returns a value and an [error] is a sum: the value on the left, the
    message of the error on the right. *)

(** [os.FileInfo], as far as [run] reads it. *)
Module FileInfo.
Record t := { Name : string; IsDir : bool }.
End FileInfo.

(** What [os.Stat] returns: the description of the file, or an error
    with its message and with what [os.IsNotExist] says of it. *)
Inductive stat :=
| statInfo (fi : FileInfo.t)
| statError (err : string) (notExist : bool).

(** [os.IsNotExist(err)] for the error of a call of [os.Stat]; it is
    false of the nil error. *)
Definition IsNotExist (s : stat) : bool :=
  match s with
  | statInfo _ => false
  | statError _ notExist => notExist
  end.

Class OS := {
  (** The state of the file system, and an open file. *)
  disk : Type;
  file : Type;
  os_Stat : string -> disk -> stat;
  os_Open : string -> disk -> file + string;
  (** [ioutil.ReadDir]: the entries, sorted by name, and the error. *)
  ioutil_ReadDir : string -> disk -> list FileInfo.t * option string;
  (** [ioutil.WriteFile(path, data, 0644)]: the file system it leaves
      and the error. *)
  ioutil_WriteFile : string -> string -> disk -> disk * option string;
  (** [proto.NewParser(reader).Parse()]: the elements of the document. *)
  parser_Parse : file -> list proto.Visitee + string;
  format_Source : string -> string + string;
  filepath_Join : string -> string -> string;
  filepath_Dir : string -> string
}.

(** What the functions below work on: the file system and the lines
    written to [os.Stderr]. *)
Record world {os : OS} := {
  fs : disk;
  console : list string
}.

Module OnDisk.
Section OnDisk.

Context {rt : GoRuntime} {snk : Snaker} {os : OS}.

(** [convertFile(path, overwrite)].  The translation in its middle is
    the function [convertFile] above, run with a new builder; the file
    opened is closed on return, which nothing here observes. *)
Definition convertFile (path : string) (overwrite : bool) (w : world)
    : result unit * world :=
  if negb (String.eqb (filepath.Ext path) ".proto") then
    (Fail (Error (Sprintf "convert requires a .proto file" [])), w)
  else
  match os_Open path (fs w) with
  | inr err =>
      (Fail (Error (Sprintf "unable to read file %q: %v" [aString path; aError err])), w)
  | inl reader =>
  (* Parse the proto file. *)
  match parser_Parse reader with
  | inr err =>
      (Fail (Error (Sprintf "unable to parse proto file %q: %v" [aString path; aError err])),
       w)
  | inl d =>
  let filename := filepath.Base path in
  let fileToWrite := Str.ReplaceFirst filename ".proto" ".gunk" in
  let fullpath := filepath_Join (filepath_Dir path) fileToWrite in
  if negb (IsNotExist (os_Stat fullpath (fs w))) && negb overwrite then
    (Fail (Error (Sprintf "path already exists %q, use --overwrite" [aString fullpath])), w)
  else
  (* Start converting the proto declarations to gunk. *)
  match convertFile filename d {| bld := newBuilder filename; stderr := console w |} with
  | (Fail e, st) => (Fail e, {| fs := fs w; console := stderr st |})
  | (Ok text, st) =>
  match format_Source text with
  | inr err => (Fail (Error err), {| fs := fs w; console := stderr st |})
  | inl result =>
  match ioutil_WriteFile fullpath result (fs w) with
  | (fs', Some err) =>
      (Fail (Error (Sprintf "unable to write to file %q: %v" [aString fullpath; aError err])),
       {| fs := fs'; console := stderr st |})
  | (fs', None) => (Ok tt, {| fs := fs'; console := stderr st |})
  end
  end
  end
  end
  end.

(** The loop of [run] over the entries of a directory. *)
Fixpoint run_files (path : string) (files : list FileInfo.t) (overwrite : bool) (w : world)
    : result unit * world :=
  match files with
  | [] => (Ok tt, w)
  | f :: files' =>
      (* If the file is not a .proto file *)
      if FileInfo.IsDir f || negb (String.eqb (filepath.Ext (FileInfo.Name f)) ".proto")
      then run_files path files' overwrite w
      else
        match convertFile (filepath_Join path (FileInfo.Name f)) overwrite w with
        | (Fail e, w') => (Fail e, w')
        | (Ok _, w') => run_files path files' overwrite w'
        end
  end.

Definition run (path : string) (overwrite : bool) (w : world) : result unit * world :=
  match os_Stat path (fs w) with
  | statError err _ => (Fail (Error err), w)
  | statInfo fi =>
      if negb (FileInfo.IsDir fi) then convertFile path overwrite w
      else if String.eqb (filepath.Ext path) ".proto" then
        (Fail (Error (Sprintf "%s is a directory, should be a proto file." [aString path])), w)
      else
        (* the error of ReadDir is not looked at *)
        let '(files, _) := ioutil_ReadDir path (fs w) in
        run_files path files overwrite w
  end.

Fixpoint Run (paths : list string) (overwrite : bool) (w : world) : result unit * world :=
  match paths with
  | [] => (Ok tt, w)
  | path :: paths' =>
      match run path overwrite w with
      | (Fail e, w') => (Fail e, w')
      | (Ok _, w') => Run paths' overwrite w'
      end
  end.

End OnDisk.
End OnDisk.

(** ** A runtime to evaluate closed examples

    [refRuntime] follows Go on ASCII input: [strconv.Quote] escapes the
    quote, the backslash and the control characters, [strings.ToUpper] maps
    [a-z] to [A-Z], a verb that finds no operand prints [%!v(MISSING)].
    A byte above 127 is quoted as [\xNN] and left alone by upper-casing,
    and a format with flags, width or left-over operands prints the
    marker [%!(BADFORMAT)]: the examples below contain neither. *)
Module Ref.

Definition hexDigit (n : N) : ascii :=
  ascii_of_N (if (n <? 10)%N then 48 + n else 87 + n)%N.

Definition quoteByte (c : ascii) : string :=
  let n := N_of_ascii c in
  if Ascii.eqb c Str.DQ then String Str.BSL (String Str.DQ "")
  else if Ascii.eqb c Str.BSL then String Str.BSL (String Str.BSL "")
  else if (n =? 7)%N then String Str.BSL "a"
  else if (n =? 8)%N then String Str.BSL "b"
  else if (n =? 12)%N then String Str.BSL "f"
  else if (n =? 10)%N then String Str.BSL "n"
  else if (n =? 13)%N then String Str.BSL "r"
  else if (n =? 9)%N then String Str.BSL "t"
  else if (n =? 11)%N then String Str.BSL "v"
  else if ((n <? 32) || (126 <? n))%N then
    String Str.BSL (String "x" (String (hexDigit (n / 16)) (String (hexDigit (n mod 16)) "")))
  else String c "".

Fixpoint quoteBytes (s : string) : string :=
  match s with
  | EmptyString => ""
  | String c r => quoteByte c +:+ quoteBytes r
  end.

Definition Quote (s : string) : string :=
  String Str.DQ (quoteBytes s +:+ String Str.DQ "").

Definition upperByte (c : ascii) : ascii :=
  let n := N_of_ascii c in
  if ((97 <=? n) && (n <=? 122))%N then ascii_of_N (n - 32) else c.

Fixpoint ToUpper (s : string) : string :=
  match s with
  | EmptyString => ""
  | String c r => String (upperByte c) (ToUpper r)
  end.

Definition isLetter (c : ascii) : bool :=
  let n := N_of_ascii c in
  ((65 <=? n) && (n <=? 90) || (97 <=? n) && (n <=? 122))%N.

Fixpoint noOperand (f : string) : string :=
  match f with
  | EmptyString => ""
  | String c f' =>
      if Ascii.eqb c "%" then
        match f' with
        | EmptyString => "%!(NOVERB)"
        | String v r =>
            if Ascii.eqb v "%" then String "%" (noOperand r)
            else if isLetter v then "%!" +:+ String v "(MISSING)" +:+ noOperand r
            else "%!(BADFORMAT)"
        end
      else String c (noOperand f')
  end.

Definition rest (f : string) (a : list operand) : string :=
  match a with
  | [] => noOperand f
  | _ => "%!(BADFORMAT)"
  end.

#[export] Instance refRuntime : GoRuntime := {|
  strconv_Quote := Quote;
  strings_ToUpper := ToUpper;
  fmt_rest := rest;
  mapRange := fun m => (map_to_list m).*1;
  mapRange_perm := fun m => reflexivity _
|}.

(** [refSnaker] follows [snaker] on a lower-case ASCII word that is not
    an initialism: the identifier gets an upper-case first letter, the
    snake-case form is the word. *)
Definition capitalise (s : string) : string :=
  match s with
  | EmptyString => ""
  | String c r => String (upperByte c) r
  end.

#[export] Instance refSnaker : Snaker := {|
  ForceCamelIdentifier := capitalise;
  CamelToSnake := fun s => s
|}.

Definition pos (l c : Z) : scanner.Position := {| scanner.Line := l; scanner.Column := c |}.

Definition str (s : string) : proto.Literal :=
  {| proto.Source := s; proto.IsString := true; proto.OrderedMap := [] |}.

Definition ident (s : string) : proto.Literal :=
  {| proto.Source := s; proto.IsString := false; proto.OrderedMap := [] |}.

Definition aggregate (m : list (string * proto.Literal)) : proto.Literal :=
  {| proto.Source := ""; proto.IsString := false; proto.OrderedMap := m |}.

Definition state0 : state := {| bld := newBuilder ""; stderr := [] |}.

End Ref.

(** ** A file system to evaluate closed examples

    The files are the entries of an association list, the first entry
    for a path being the file there.  A proto file is held by the
    document it parses to, [format.Source] returns its argument, and
    [filepath.Dir] and [filepath.Join] follow Go on clean relative
    paths. *)

(** The value of the first entry with the key [k]. *)
Fixpoint assoc {V} (k : string) (l : list (string * V)) : option V :=
  match l with
  | [] => None
  | (k', v) :: l' => if String.eqb k k' then Some v else assoc k l'
  end.

Module Mem.

Inductive node :=
| protoFile (d : list proto.Visitee)
| textFile (s : string)
| directory (entries : list FileInfo.t).

(** The part of a path before its last slash, if it has one. *)
Fixpoint dirOf (s : string) : option string :=
  match s with
  | EmptyString => None
  | String c r =>
      match dirOf r with
      | Some d => Some (String c d)
      | None => if Ascii.eqb c "/" then Some EmptyString else None
      end
  end.

Definition Dir (path : string) : string :=
  match dirOf path with
  | Some EmptyString => "/"
  | Some d => d
  | None => "."
  end.

Definition Join (dir name : string) : string :=
  if String.eqb dir "." then name else dir +:+ "/" +:+ name.

Definition Stat (path : string) (fs : list (string * node)) : stat :=
  match assoc path fs with
  | Some (directory _) =>
      statInfo {| FileInfo.Name := filepath.Base path; FileInfo.IsDir := true |}
  | Some _ => statInfo {| FileInfo.Name := filepath.Base path; FileInfo.IsDir := false |}
  | None => statError ("stat " +:+ path +:+ ": no such file or directory") true
  end.

Definition Open (path : string) (fs : list (string * node)) : node + string :=
  match assoc path fs with
  | Some n => inl n
  | None => inr ("open " +:+ path +:+ ": no such file or directory")
  end.

Definition Parse (n : node) : list proto.Visitee + string :=
  match n with
  | protoFile d => inl d
  | _ => inr "found no proto document"
  end.

Definition ReadDir (path : string) (fs : list (string * node))
    : list FileInfo.t * option string :=
  match assoc path fs with
  | Some (directory entries) => (entries, None)
  | _ => ([], Some ("open " +:+ path +:+ ": not a directory"))
  end.

Definition WriteFile (path data : string) (fs : list (string * node))
    : list (string * node) * option string :=
  ((path, textFile data) :: fs, None).

#[export] Instance memOS : OS := {|
  disk := list (string * node);
  file := node;
  os_Stat := Stat;
  os_Open := Open;
  ioutil_ReadDir := ReadDir;
  ioutil_WriteFile := WriteFile;
  parser_Parse := Parse;
  format_Source := inl;
  filepath_Join := Join;
  filepath_Dir := Dir
|}.

End Mem.

(** ** Sample documents *)

Module Sample.

Import Ref.

Definition option_ (name : string) (value : proto.Literal) : proto.Option.t :=
  {| proto.Option.Position := pos 3 1; proto.Option.Comment := None;
     proto.Option.Name := name; proto.Option.Constant := value |}.

(** [repeated string tags = 4;] *)
Definition tags : proto.NormalField.t :=
  {| proto.NormalField.Position := pos 5 3; proto.NormalField.Comment := None;
     proto.NormalField.Name := "tags"; proto.NormalField.Type_ := "string";
     proto.NormalField.Sequence := 4; proto.NormalField.Options := [];
     proto.NormalField.Repeated := true |}.

Definition enumField (name : string) (i : Z) : proto.Visitee :=
  proto.pEnumField
    {| proto.EnumField.Position := pos 4 3; proto.EnumField.Comment := None;
       proto.EnumField.Name := name; proto.EnumField.Integer := i;
       proto.EnumField.Elements := [] |}.

Definition enum (elements : list proto.Visitee) : proto.Enum.t proto.Visitee :=
  {| proto.Enum.Position := pos 2 1; proto.Enum.Comment := None;
     proto.Enum.Name := "E"; proto.Enum.Elements := elements |}.

(** [enum E { option deprecated = true; A = 1; B = 2; }] *)
Definition enumAfterOption : proto.Enum.t proto.Visitee :=
  enum [proto.pOption (option_ "deprecated" (ident "true")); enumField "A" 1; enumField "B" 2].

(** [enum E { A = 0; option deprecated = true; B = 1; }] *)
Definition enumAroundOption : proto.Enum.t proto.Visitee :=
  enum [enumField "A" 0; proto.pOption (option_ "deprecated" (ident "true")); enumField "B" 1].

(** [package util;] *)
Definition package : proto.Package.t :=
  {| proto.Package.Position := pos 1 1; proto.Package.Comment := None;
     proto.Package.Name := "util" |}.

(** The builder of [util.proto] after a document with the package
    statement and the file options [opts]. *)
Definition afterOptions (opts : list proto.Option.t) : builder :=
  {| filename := "util.proto"; translatedDeclarations := []; pkg := Some package;
     pkgOpts := opts; imports := []; importsUsed := ∅ |}.

(** A comment that stands alone between the braces of a declaration. *)
Definition loneComment : proto.Visitee :=
  proto.pComment {| proto.Comment.Position := pos 4 5; proto.Comment.Lines := [" values"] |}.

(** [enum E { // values (blank line) A = 0; }] *)
Definition enumWithComment : proto.Enum.t proto.Visitee :=
  enum [loneComment; enumField "A" 0].

(** [package util; message M { enum E { // values (blank line) A = 0; } }] *)
Definition nestedEnumDocument : list proto.Visitee :=
  [ proto.pPackage package;
    proto.pMessage
      {| proto.Message.Position := pos 2 1; proto.Message.Comment := None;
         proto.Message.Name := "M";
         proto.Message.Elements := [proto.pEnum enumWithComment] |} ].

(** [option (google.api.http) = { <entries> };] *)
Definition http (entries : list proto.NamedLiteral.t) : proto.Option.t :=
  option_ "(google.api.http)" (aggregate entries).

(** [rpc Echo(Message) returns (google.protobuf.Empty) { <options> }] *)
Definition echo (options : list proto.Option.t) : proto.RPC.t proto.Visitee :=
  {| proto.RPC.Position := pos 7 3; proto.RPC.Comment := None; proto.RPC.Name := "Echo";
     proto.RPC.RequestType := "Message"; proto.RPC.ReturnsType := "google.protobuf.Empty";
     proto.RPC.Elements := map proto.pOption options |}.

Definition service (elements : list proto.Visitee) : proto.Service.t proto.Visitee :=
  {| proto.Service.Position := pos 6 1; proto.Service.Comment := None;
     proto.Service.Name := "Util"; proto.Service.Elements := elements |}.

(** [service Util { rpc Echo(...) returns (...) {
      option (google.api.http) = { get: "/v1/echo" body: "*" }; } }] *)
Definition echoService : proto.Service.t proto.Visitee :=
  service [proto.pRPC (echo [http [("get", str "/v1/echo"); ("body", str "*")]])].

(** The same with a second, empty [body] entry:
    [{ get: "/v1/echo" body: "*" body: "" }]. *)
Definition echoBodyTwice : list proto.NamedLiteral.t :=
  [("get", str "/v1/echo"); ("body", str "*"); ("body", str "")].

Definition echoBodyTwiceService : proto.Service.t proto.Visitee :=
  service [proto.pRPC (echo [http echoBodyTwice])].

(** [string msg = 1 [deprecated = true];] *)
Definition deprecated : proto.Option.t :=
  {| proto.Option.Position := pos 5 19; proto.Option.Comment := None;
     proto.Option.Name := "deprecated"; proto.Option.Constant := ident "true" |}.

Definition msg : proto.NormalField.t :=
  {| proto.NormalField.Position := pos 5 3; proto.NormalField.Comment := None;
     proto.NormalField.Name := "msg"; proto.NormalField.Type_ := "string";
     proto.NormalField.Sequence := 1;
     proto.NormalField.Options := [deprecated];
     proto.NormalField.Repeated := false |}.

(** [enum Status { Unknown = 0; Error = 1; }] *)
Definition status : proto.Enum.t proto.Visitee :=
  {| proto.Enum.Position := pos 9 3; proto.Enum.Comment := None;
     proto.Enum.Name := "Status";
     proto.Enum.Elements := [enumField "Unknown" 0; enumField "Error" 1] |}.

(** [message Message { string msg = 1 [deprecated = true];
      enum Status { ... } repeated string tags = 4; }] *)
Definition message : proto.Message.t proto.Visitee :=
  {| proto.Message.Position := pos 4 1; proto.Message.Comment := None;
     proto.Message.Name := "Message";
     proto.Message.Elements :=
       [proto.pNormalField msg; proto.pEnum status; proto.pNormalField tags] |}.

(** A document with an enum, a message with a nested enum and a service. *)
Definition document : list proto.Visitee :=
  [ proto.pSyntax; proto.pPackage package;
    proto.pEnum (enum [enumField "A" 0; enumField "B" 1]);
    proto.pMessage message;
    proto.pService echoService ].

(** The same with the file option [option totally_custom_option = "x";]. *)
Definition customOption : proto.Option.t := option_ "totally_custom_option" (str "x").

Definition documentWithCustomOption : list proto.Visitee :=
  [ proto.pSyntax; proto.pPackage package; proto.pOption customOption;
    proto.pMessage message ].

(** A document whose two file options need the same import, as do the
    routing annotations of its two methods. *)
Definition documentWithRepeatedImports : list proto.Visitee :=
  [ proto.pPackage package;
    proto.pOption (option_ "java_package" (str "com.x"));
    proto.pOption (option_ "java_multiple_files" (ident "true"));
    proto.pService (service
      [ proto.pRPC (echo [http [("get", str "/v1/echo")]]);
        proto.pRPC (echo [http [("post", str "/v1/echo"); ("body", str "*")]]) ]) ].

(** [message M { enum Status { ... } oneof kind { ... } }] *)
Definition oneofMessage : proto.Message.t proto.Visitee :=
  {| proto.Message.Position := pos 2 1; proto.Message.Comment := None;
     proto.Message.Name := "M";
     proto.Message.Elements := [proto.pEnum status; proto.pOneof] |}.

(** [option (google.api.http) = { body: "*" };]: no verb, no path. *)
Definition bodyOnly : proto.Option.t := http [("body", str "*")].

(** [service Util { option deprecated = true;
      rpc Echo(...) returns (...) {
        option (google.api.http) = { body: "*" }; option deprecated = true; } }] *)
Definition plainService : proto.Service.t proto.Visitee :=
  service
    [ proto.pOption deprecated;
      proto.pRPC (echo [bodyOnly; option_ "deprecated" (ident "true")]) ].

(** [option (google.api.http) = { get: "/v1/echo" post: echo };] *)
Definition postIdent : proto.Option.t :=
  http [("get", str "/v1/echo"); ("post", ident "echo")].

(** [option java_package = "com.example";
     option go_package = "example.com/util"; option deprecated = true;] *)
Definition javaOptions : list proto.Option.t :=
  [ option_ "java_package" (str "com.example");
    option_ "go_package" (str "example.com/util");
    option_ "deprecated" (ident "true") ].

(** A service with a comment that stands alone after its method. *)
Definition commentedService : proto.Service.t proto.Visitee :=
  service [proto.pRPC (echo []); loneComment].

(** A folder [api] with [README.md], [util.proto], the folder
    [v2.proto] and the file [util.gunk] of an earlier conversion. *)
Definition apiFolder : list (string * Mem.node) :=
  [ ("api", Mem.directory
      [ {| FileInfo.Name := "README.md"; FileInfo.IsDir := false |};
        {| FileInfo.Name := "util.proto"; FileInfo.IsDir := false |};
        {| FileInfo.Name := "v2.proto"; FileInfo.IsDir := true |} ]);
    ("api/util.proto", Mem.protoFile document);
    ("api/util.gunk", Mem.textFile "package util") ].

Definition apiWorld : @world Mem.memOS := @Build_world Mem.memOS apiFolder [].

(** [package util; option totally_custom_option = "x";] and a comment
    that stands alone after them. *)
Definition customOptionBeforeComment : list proto.Visitee :=
  [proto.pPackage package; proto.pOption customOption; loneComment].

(** [{ additional_bindings { post: "/v2/echo" } get: "/v1/echo" }]: two
    keys other than [body], the first with a map for its literal. *)
Definition boundTwice : list proto.NamedLiteral.t :=
  [("additional_bindings", aggregate [("post", str "/v2/echo")]); ("get", str "/v1/echo")].

Definition boundTwiceService : proto.Service.t proto.Visitee :=
  service [proto.pRPC (echo [http boundTwice])].

End Sample.

(** ** The bodies of the loops

    The functions that the loops of the translators apply to the variables
    they assign, to the index and to the element. *)

(** The body of the loop over the entries of the ordered map. *)
Abbreviation keysBody opt :=
  (fun '(method, url, body) (_ : nat) l =>
      switch (proto.NamedLiteral.Name l)
        [ (["body"],
           match handleLiteralString (proto.NamedLiteral.Literal l) with
           | Ok body => ret (method, url, body)
           | Fail _ =>
               failAt (proto.Option.Position opt) "option for body should be a string" []
           end) ]
        (let method := proto.NamedLiteral.Name l in
         match handleLiteralString (proto.NamedLiteral.Literal l) with
         | Ok url => ret (method, url, body)
         | Fail _ =>
             failAt (proto.Option.Position opt) "option for %q should be a string (url)"
               [aString method]
         end)).

(** The body of the loop over the options of an RPC. *)
Abbreviation optionsBody r :=
  (fun '(w, comment) (_ : nat) o =>
      match o with
      | proto.pOption opt =>
          let n := proto.Option.Name opt in
          switch n
            [ (["(google.api.http)"], handleService_http opt w comment) ]
            (do warnAt (proto.Option.Position opt) "unhandled method option %q" [aString n] ;
             ret (w, comment))
      | _ =>
          failAt (proto.RPC.Position r) "unexpected type %T in service rpc, expected option"
            [aType (proto.typeName o)]
      end).

(** The body of the loop over the elements of a service. *)
Abbreviation serviceBody s :=
  (fun (w : string) (i : nat) e =>
    match e with
    | proto.pRPC r => handleService_rpc i r w
    | proto.pOption o =>
        do warnAt (proto.Option.Position o) "unhandled service option %q"
             [aString (proto.Option.Name o)] ;
        ret w
    | _ =>
        failAt (proto.Service.Position s) "unexpected type %T in service, expected rpc"
          [aType (proto.typeName e)]
    end).

(** The body of the loop over the elements of a message. *)
Abbreviation messageBody m :=
  (fun (w : string) (_ : nat) e =>
    match e with
    | proto.pNormalField f =>
        onError (handleMessageField w e) (fun err =>
          failAt (proto.NormalField.Position f) "error with message field: %v" [aError err])
    | proto.pEnum e' =>
        do ignoreError (handleEnum e') ; ret w
    | proto.pComment c =>
        ret (format w 1 (Some c) "" [])
    | proto.pMapField mf =>
        onError (handleMessageField w e) (fun err =>
          failAt (proto.MapField.Position mf) "error with message field: %v" [aError err])
    | proto.pOption o =>
        do warnAt (proto.Option.Position o) "unhandled message option %q"
             [aString (proto.Option.Name o)] ;
        ret w
    | _ =>
        failAt (proto.Message.Position m) "unexpected type %T in message"
          [aType (proto.typeName e)]
    end).

(** The bodies of the two loops of [handleEnum] over the elements of the
    enum, and of the loop over the elements of a value. *)
Abbreviation enumCheckBody e :=
  (fun (outputIota : bool) (i : nat) c =>
    match c with
    | proto.pEnumField ef =>
        if negb (Z.of_nat i =? proto.EnumField.Integer ef) then ret false else ret outputIota
    | proto.pOption o =>
        do warnAt (proto.Option.Position o) "unhandled enum option %q"
             [aString (proto.Option.Name o)] ;
        ret outputIota
    | _ =>
        failAt (proto.Enum.Position e) "unexpected type %T in enum, expected enum field"
          [aType (proto.typeName c)]
    end).

Abbreviation enumValueBody :=
  (fun (_ : unit) (_ : nat) e' =>
          match e' with
          | proto.pOption o =>
              warnAt (proto.Option.Position o) "unhandled enumvalue option %q"
                [aString (proto.Option.Name o)]
          | _ => ret tt
          end).

#[warnings="-non-reversible-notation"]
Abbreviation enumWriteBody e outputIota :=
  (fun (w : string) (i : nat) c =>
    match c with
    | proto.pEnumField ef =>
        let* _ := range (proto.EnumField.Elements ef) enumValueBody tt in
        if negb outputIota then
          ret (format w 1 (proto.EnumField.Comment ef) (go:"%s %s = %d\n")
                 [aString (proto.EnumField.Name ef); aString (proto.Enum.Name e);
                  aInt (proto.EnumField.Integer ef)])
        else if Nat.eqb i 0 then
          ret (format w 1 (proto.EnumField.Comment ef) (go:"%s %s = iota\n")
                 [aString (proto.EnumField.Name ef); aString (proto.Enum.Name e)])
        else
          ret (format w 1 (proto.EnumField.Comment ef) (go:"%s\n")
                 [aString (proto.EnumField.Name ef)])
    | _ => ret w
    end).

(** The loop of [convertFile] over the elements of the document. *)
#[warnings="-non-reversible-notation"]
Abbreviation documentBody :=
  (fun (_ : unit) (_ : nat) e =>
    onError (handleProtoType e) (fun err =>
      fail (Error (Sprintf (go:"%v\n") [aError err])))).

(** ** Renderings the statements below refer to *)

Section Layout.

Context {rt : GoRuntime} {snk : Snaker}.

(** The text of a leading comment at a given indentation. *)
Definition commentText (indent : nat) (c : option proto.Comment.t) : string :=
  format "" indent c "" [].

(** The text of [b.formatError(pos, ...)] once the inner message [msg] is
    formatted: [<filename>:<line>:<col>: <msg>]. *)
Definition errorText (filename : string) (pos : scanner.Position) (msg : string) : string :=
  filename +:+ ":" +:+ Str.itoa (scanner.Line pos) +:+ ":" +:+
  Str.itoa (scanner.Column pos) +:+ ": " +:+ msg.

(** A struct member line: comment, name, type token, tag. *)
Definition fieldLine (c : option proto.Comment.t) (name typ : string) (sequence : Z) : string :=
  commentText 1 c +:+ go:"\t" +:+ ForceCamelIdentifier name +:+ " " +:+ typ +:+
  go:" `pb:\'" +:+ Str.itoa sequence +:+ go:"\' json:\'" +:+ CamelToSnake name +:+ go:"\'`\n".

(** The annotation block of a method: verb, path and, when the body
    selector is not empty, body. *)
Definition httpMatch (method url body : string) : string :=
  go:"\t// +gunk http.Match{\n" +:+
  go:"\t//     Method: " +:+ strconv_Quote (strings_ToUpper method) +:+ go:",\n" +:+
  go:"\t//     Path: " +:+ strconv_Quote url +:+ go:",\n" +:+
  (if String.eqb body "" then ""
   else go:"\t//     Body: " +:+ strconv_Quote body +:+ go:",\n") +:+
  go:"\t// }\n".

(** The warning written for an option [o] that is not translated. *)
Definition optionWarning (filename kind : string) (o : proto.Option.t) : string :=
  errorText filename (proto.Option.Position o)
    ("unhandled " +:+ kind +:+ " option " +:+ strconv_Quote (proto.Option.Name o)).

End Layout.

(** The path of the import that the routing annotation needs. *)
Definition httpImport : string := "github.com/gunk/opt/http".

(** The entry of an ordered map read as the verb and the path: the last
    one whose key is not [body]; the entry read as the body selector: the
    last one whose key is [body]. *)
Definition lastVerb (m : list proto.NamedLiteral.t) : option proto.NamedLiteral.t :=
  last (filter (fun l => proto.NamedLiteral.Name l <> "body") m).

Definition lastBody (m : list proto.NamedLiteral.t) : option proto.NamedLiteral.t :=
  last (filter (fun l => proto.NamedLiteral.Name l = "body") m).

Definition sourceOf (l : option proto.NamedLiteral.t) : string :=
  from_option (fun l => proto.Source (proto.NamedLiteral.Literal l)) "" l.

Definition nameOf (l : option proto.NamedLiteral.t) : string :=
  from_option proto.NamedLiteral.Name "" l.

Definition allStrings (m : list proto.NamedLiteral.t) : bool :=
  forallb (fun l => proto.IsString (proto.NamedLiteral.Literal l)) m.

(** The routing import is marked as required. *)
Definition marked (st : state) : Prop :=
  importsUsed (bld st) !! httpImport = Some true.

(** From one point of a translator to a later one: the text under
    construction was only appended to, a mark on the routing import stays and
    the list of translated declarations is the same. *)
Definition extends {B} (text : B -> string) (x y : B * state) : Prop :=
  (exists more, text (fst y) = text (fst x) +:+ more) /\
  (marked (snd x) -> marked (snd y)) /\
  translatedDeclarations (bld (snd y)) = translatedDeclarations (bld (snd x)).

(** The state of a builder just created for the file [fn]. *)
Definition fresh (fn : string) : state := {| bld := newBuilder fn; stderr := [] |}.

(** A translator is framed when, from any state, it returns what it
    returns from a fresh builder for the same file, keeps the name of the
    file, and appends to the translated declarations what it leaves in
    the fresh builder. *)
Definition framed {A} (m : M A) : Prop :=
  forall st : state,
    fst (m st) = fst (m (fresh (filename (bld st)))) /\
    filename (bld (snd (m st))) = filename (bld st) /\
    translatedDeclarations (bld (snd (m st))) =
      translatedDeclarations (bld st) ++
      translatedDeclarations (bld (snd (m (fresh (filename (bld st)))))).

(** What translating the declaration [e] alone, with a fresh builder for
    the file [fn], leaves in the list of translated declarations. *)
Definition blocksOf {rt : GoRuntime} {snk : Snaker} (fn : string) (e : proto.Visitee)
    : list string :=
  translatedDeclarations (bld (snd (handleProtoType e (fresh fn)))).

(** What an element of a message adds to the translated declarations while
    the message is translated: the block of a nested enum. *)
Definition hoisted {rt : GoRuntime} {snk : Snaker} (fn : string) (c : proto.Visitee)
    : list string :=
  match c with
  | proto.pEnum _ => blocksOf fn c
  | _ => []
  end.

(** A translator relates every state to the state it leaves by [P]. *)
Definition preserves (P : state -> state -> Prop) {A} (m : M A) : Prop :=
  forall st : state, P st (snd (m st)).

Definition sameBuilder (st st' : state) : Prop := bld st' = bld st.

Definition sameDeclarations (st st' : state) : Prop :=
  translatedDeclarations (bld st') = translatedDeclarations (bld st).

Definition stderrGrows (st st' : state) : Prop :=
  exists more, stderr st' = stderr st ++ more.

(** The names of the file options that [handlePackage] translates. *)
Definition fileOptionNames : list string :=
  ["go_package"; "deprecated"; "optimize_for"; "java_package"; "java_outer_classname";
   "java_multiple_files"; "java_string_check_utf8"; "java_generic_services";
   "swift_prefix"; "csharp_namespace"; "objc_class_prefix"; "php_generic_services";
   "cc_generic_services"; "cc_enable_arenas"].

Definition recognized (o : proto.Option.t) : bool :=
  existsb (String.eqb (proto.Option.Name o)) fileOptionNames.

(** The file options of a document, in its order. *)
Definition fileOptions (d : list proto.Visitee) : list proto.Option.t :=
  omap (fun e => match e with proto.pOption o => Some o | _ => None end) d.

(** The first file option of a list that is not recognized. *)
Definition firstUnrecognized (opts : list proto.Option.t) : option proto.Option.t :=
  head (filter (fun o => recognized o = false) opts).

(** The message of the error for a file option that is not recognized. *)
Definition unhandledFileOption {rt : GoRuntime} (fn : string) (o : proto.Option.t) : string :=
  errorText fn (proto.Option.Position o)
    (strconv_Quote (proto.Option.Name o) +:+ " is an unhandled proto file option").

(** A translator does not dereference a nil pointer. *)
Definition noPanic {A} (m : M A) : Prop :=
  forall st : state, fst (m st) <> Fail NilDeref.

Definition samePkgOpts (st st' : state) : Prop :=
  pkgOpts (bld st') = pkgOpts (bld st).

(** The line of a member of a message, and the options written on it. *)
Definition memberLine {rt : GoRuntime} {snk : Snaker} (e : proto.Visitee) : string :=
  match e with
  | proto.pNormalField f =>
      fieldLine (proto.NormalField.Comment f) (proto.NormalField.Name f)
        (if proto.NormalField.Repeated f
         then "[]" +:+ goType (proto.NormalField.Type_ f)
         else goType (proto.NormalField.Type_ f))
        (proto.NormalField.Sequence f)
  | proto.pMapField f =>
      fieldLine (proto.MapField.Comment f) (proto.MapField.Name f)
        ("map[" +:+ goType (proto.MapField.KeyType f) +:+ "]" +:+
         goType (proto.MapField.Type_ f))
        (proto.MapField.Sequence f)
  | _ => ""
  end.

Definition memberOptions (e : proto.Visitee) : list proto.Option.t :=
  match e with
  | proto.pNormalField f => proto.NormalField.Options f
  | proto.pMapField f => proto.MapField.Options f
  | _ => []
  end.

Definition isField (e : proto.Visitee) : bool :=
  match e with
  | proto.pNormalField _ | proto.pMapField _ => true
  | _ => false
  end.

(** From one point of the translation to a later one: the text under
    construction, the lines of the error stream and the translated
    declarations were only appended to, for the same file. *)
Definition grows {B} (text : B -> string) (x y : B * state) : Prop :=
  (exists more, text (fst y) = text (fst x) +:+ more) /\
  stderrGrows (snd x) (snd y) /\
  filename (bld (snd y)) = filename (bld (snd x)) /\
  (exists more, translatedDeclarations (bld (snd y)) =
                translatedDeclarations (bld (snd x)) ++ more).

(** The line of the import block for a required import: a tab and the
    quoted path, which [format] takes for a format without operands. *)
Definition importLine {rt : GoRuntime} (path : string) : string :=
  if String.eqb (strconv_Quote path) "" then ""
  else go:"\t" +:+ Sprintf (strconv_Quote path) [].

(** The line for an import of the proto file: a comment. *)
Definition importComment {rt : GoRuntime} (i : proto.Import_.t) : string :=
  go:"\t// " +:+ strconv_Quote (proto.Import_.Filename i).

(** The import block for the required paths and the proto imports, in
    the order given. *)
Definition importBlock {rt : GoRuntime} (paths : list string)
    (protoImports : list proto.Import_.t) : string :=
  "import (" +:+
  Str.join (map (fun path => go:"\n" +:+ importLine path) paths) +:+
  Str.join (map (fun i => go:"\n" +:+ importComment i) protoImports) +:+
  go:"\n)".

(** The state after the warnings for the options [l] of kind [kind]. *)
Definition warned {rt : GoRuntime} (kind : string) (l : list proto.Option.t) (st : state)
    : state :=
  {| bld := bld st;
     stderr := stderr st ++ map (optionWarning (filename (bld st)) kind) l |}.

(** The file options written as annotations: name of the option, import
    of its family, name of the annotation, and whether the value is
    written as a quoted string. *)
Definition annotatedFileOptions : list (string * (string * string * bool)) :=
  [ ("deprecated", ("github.com/gunk/opt/file", "file.Deprecated", false));
    ("optimize_for", ("github.com/gunk/opt/file", "file.OptimizeFor", false));
    ("java_package", ("github.com/gunk/opt/file/java", "java.Package", true));
    ("java_outer_classname", ("github.com/gunk/opt/file/java", "java.OuterClassname", true));
    ("java_multiple_files", ("github.com/gunk/opt/file/java", "java.MultipleFiles", false));
    ("java_string_check_utf8",
     ("github.com/gunk/opt/file/java", "java.StringCheckUtf8", false));
    ("java_generic_services",
     ("github.com/gunk/opt/file/java", "java.GenericServices", false));
    ("csharp_namespace", ("github.com/gunk/opt/file/csharp", "csharp.Namespace", true));
    ("objc_class_prefix", ("github.com/gunk/opt/file/objc", "objc.ClassPrefix", true));
    ("php_generic_services", ("github.com/gunk/opt/file/php", "php.GenericServices", false));
    ("cc_generic_services", ("github.com/gunk/opt/file/cc", "cc.GenericServices", false));
    ("cc_enable_arenas", ("github.com/gunk/opt/file/cc", "cc.EnableArenas", false)) ].

(** The lines of the values [fs] of the enum [e], the first of them at
    position [i]: in the auto-increment form the value at position 0
    carries the seed and the others are bare names; in the explicit form
    every value carries its integer. *)
Fixpoint enumLines {rt : GoRuntime} (e : proto.Enum.t proto.Visitee) (outputIota : bool)
    (i : nat) (fs : list (proto.EnumField.t proto.Visitee)) : string :=
  match fs with
  | [] => ""
  | ef :: fs' =>
      commentText 1 (proto.EnumField.Comment ef) +:+ go:"\t" +:+
      (if outputIota then
         if Nat.eqb i 0
         then proto.EnumField.Name ef +:+ " " +:+ proto.Enum.Name e +:+ go:" = iota\n"
         else proto.EnumField.Name ef +:+ go:"\n"
       else proto.EnumField.Name ef +:+ " " +:+ proto.Enum.Name e +:+ " = " +:+
            Str.itoa (proto.EnumField.Integer ef) +:+ go:"\n") +:+
      enumLines e outputIota (S i) fs'
  end.

(** The block of an enum whose elements are the values [fs]. *)
Definition enumBlock {rt : GoRuntime} (e : proto.Enum.t proto.Visitee)
    (fs : list (proto.EnumField.t proto.Visitee)) : string :=
  commentText 0 (proto.Enum.Comment e) +:+
  "type " +:+ proto.Enum.Name e +:+ go:" int\n" +:+ go:"\nconst (\n" +:+
  enumLines e (bool_decide (map proto.EnumField.Integer fs =
                            map Z.of_nat (seq 0 (length fs)))) 0 fs +:+
  ")".

(** The kinds of elements the translators accept in a message, in an
    enum and in a service. *)
Definition validInMessage (e : proto.Visitee) : bool :=
  match e with
  | proto.pNormalField _ | proto.pMapField _ | proto.pEnum _ | proto.pComment _
  | proto.pOption _ => true
  | _ => false
  end.

Definition validInEnum (e : proto.Visitee) : bool :=
  match e with
  | proto.pEnumField _ | proto.pOption _ => true
  | _ => false
  end.

Definition validInService (e : proto.Visitee) : bool :=
  match e with
  | proto.pRPC _ | proto.pOption _ => true
  | _ => false
  end.

(** A top-level declaration with an element of a kind that is not valid
    in it. *)
Definition hasInvalidChild (typ : proto.Visitee) : Prop :=
  match typ with
  | proto.pMessage m => exists e, e ∈ proto.Message.Elements m /\ validInMessage e = false
  | proto.pEnum e => exists c, c ∈ proto.Enum.Elements e /\ validInEnum c = false
  | proto.pService s => exists e, e ∈ proto.Service.Elements s /\ validInService e = false
  | _ => False
  end.

(** A translator keeps the name of the file, and an error it returns is
    one of [formatError]: it starts with the file and a position. *)
Definition positioned {rt : GoRuntime} {A} (m : M A) : Prop :=
  forall st : state,
    filename (bld (snd (m st))) = filename (bld st) /\
    match fst (m st) with
    | Ok _ => True
    | Fail (Error msg) => exists pos inner, msg = errorText (filename (bld st)) pos inner
    | Fail NilDeref => False
    end.

(** The scalar type names of the source language. *)
Definition scalarNames : list string :=
  ["bool"; "string"; "bytes"; "double"; "float"; "int32"; "sint32"; "sfixed32";
   "int64"; "sint64"; "sfixed64"; "uint32"; "fixed32"; "uint64"; "fixed64"].

(** ** Renderings of whole declarations *)

(** The lines that [format] writes for a comment: the indentation, [//],
    the line of the comment, a newline. *)
Definition commentLines {rt : GoRuntime} (indent : nat) (c : option proto.Comment.t)
    : list string :=
  map (fun l => indentation indent +:+ "//" +:+ l +:+ go:"\n")
      (from_option proto.Comment.Lines [] c).

(** The options among the elements of a declaration, in their order. *)
Definition optionsAmong (l : list proto.Visitee) : list proto.Option.t :=
  omap (fun c => match c with proto.pOption o => Some o | _ => None end) l.

(** The values of an enum, each with its index among the elements;
    [i] is the index of the first element of [l]. *)
Fixpoint enumValuesFrom (i : nat) (l : list proto.Visitee)
    : list (nat * proto.EnumField.t proto.Visitee) :=
  match l with
  | [] => []
  | proto.pEnumField ef :: l' => (i, ef) :: enumValuesFrom (S i) l'
  | _ :: l' => enumValuesFrom (S i) l'
  end.

Definition enumValues (e : proto.Enum.t proto.Visitee)
    : list (nat * proto.EnumField.t proto.Visitee) :=
  enumValuesFrom 0 (proto.Enum.Elements e).

(** Every value has its index for integer. *)
Definition positional (vs : list (nat * proto.EnumField.t proto.Visitee)) : bool :=
  forallb (fun v => Z.of_nat (fst v) =? proto.EnumField.Integer (snd v)) vs.

(** The line of a value of the enum [e] at a given index. *)
Definition enumValueLine {rt : GoRuntime} (e : proto.Enum.t proto.Visitee) (outputIota : bool)
    (v : nat * proto.EnumField.t proto.Visitee) : string :=
  commentText 1 (proto.EnumField.Comment (snd v)) +:+ go:"\t" +:+
  (if outputIota then
     if Nat.eqb (fst v) 0
     then proto.EnumField.Name (snd v) +:+ " " +:+ proto.Enum.Name e +:+ go:" = iota\n"
     else proto.EnumField.Name (snd v) +:+ go:"\n"
   else proto.EnumField.Name (snd v) +:+ " " +:+ proto.Enum.Name e +:+ " = " +:+
        Str.itoa (proto.EnumField.Integer (snd v)) +:+ go:"\n").

(** The block of an enum whose elements are values and options. *)
Definition enumText {rt : GoRuntime} (e : proto.Enum.t proto.Visitee) : string :=
  commentText 0 (proto.Enum.Comment e) +:+
  "type " +:+ proto.Enum.Name e +:+ go:" int\n" +:+ go:"\nconst (\n" +:+
  Str.join (map (enumValueLine e (positional (enumValues e))) (enumValues e)) +:+
  ")".

(** The options written on the values of an enum. *)
Definition enumValueOptions (vs : list (nat * proto.EnumField.t proto.Visitee))
    : list proto.Option.t :=
  concat (map (fun v => optionsAmong (proto.EnumField.Elements (snd v))) vs).

(** What an element of a message adds to the text of the message: the
    line of a field, the lines of a comment, nothing for a nested enum
    or an option. *)
Definition memberText {rt : GoRuntime} {snk : Snaker} (e : proto.Visitee) : string :=
  match e with
  | proto.pComment c => commentText 1 (Some c)
  | _ => memberLine e
  end.

Definition messageText {rt : GoRuntime} {snk : Snaker} (m : proto.Message.t proto.Visitee)
    : string :=
  commentText 0 (proto.Message.Comment m) +:+
  "type " +:+ proto.Message.Name m +:+ go:" struct {\n" +:+
  Str.join (map memberText (proto.Message.Elements m)) +:+
  "}".

(** What an element of a message adds to the translated declarations:
    the block of a nested enum whose elements are values and options. *)
Definition nestedEnumBlocks {rt : GoRuntime} (c : proto.Visitee) : list string :=
  match c with
  | proto.pEnum e => if forallb validInEnum (proto.Enum.Elements e) then [enumText e] else []
  | _ => []
  end.

(** A request or return type in the line of a method. *)
Definition emptyless (t : string) : string :=
  if String.eqb t "google.protobuf.Empty" then "" else t.

(** The line of a method without routing annotation at the index [i]
    among the elements of the service. *)
Definition rpcLine {rt : GoRuntime} (i : nat) (r : proto.RPC.t proto.Visitee) : string :=
  (if Nat.ltb 0 i &&
      (bool_decide (proto.RPC.Comment r <> None) || Nat.ltb 0 (length (proto.RPC.Elements r)))
   then go:"\n" else "") +:+
  commentText 1 (proto.RPC.Comment r) +:+ go:"\t" +:+
  proto.RPC.Name r +:+ "(" +:+ emptyless (proto.RPC.RequestType r) +:+ ") " +:+
  emptyless (proto.RPC.ReturnsType r) +:+ go:"\n".

Fixpoint serviceLinesFrom {rt : GoRuntime} (i : nat) (l : list proto.Visitee) : string :=
  match l with
  | [] => ""
  | proto.pRPC r :: l' => rpcLine i r +:+ serviceLinesFrom (S i) l'
  | _ :: l' => serviceLinesFrom (S i) l'
  end.

Definition serviceText {rt : GoRuntime} (s : proto.Service.t proto.Visitee) : string :=
  commentText 0 (proto.Service.Comment s) +:+
  "type " +:+ proto.Service.Name s +:+ go:" interface {\n" +:+
  serviceLinesFrom 0 (proto.Service.Elements s) +:+
  "}".

(** The routing option, and whether its map gives a verb and a path. *)
Definition isRouting (opt : proto.Option.t) : bool :=
  String.eqb (proto.Option.Name opt) "(google.api.http)".

Definition routed (opt : proto.Option.t) : bool :=
  let m := proto.OrderedMap (proto.Option.Constant opt) in
  negb (String.eqb (nameOf (lastVerb m)) "") && negb (String.eqb (sourceOf (lastVerb m)) "").

(** An element of a method that leaves no annotation: an option other
    than the routing option, or a routing option whose non-empty map of
    strings gives no verb or no path. *)
Definition unroutedOption (o : proto.Visitee) : bool :=
  match o with
  | proto.pOption opt =>
      if isRouting opt then
        let m := proto.OrderedMap (proto.Option.Constant opt) in
        negb (Nat.eqb (length m) 0) && allStrings m && negb (routed opt)
      else true
  | _ => false
  end.

Definition unrouted (e : proto.Visitee) : bool :=
  match e with
  | proto.pOption _ => true
  | proto.pRPC r => forallb unroutedOption (proto.RPC.Elements r)
  | _ => false
  end.

(** The warnings for an element of a service without routing
    annotation. *)
Definition serviceWarnings {rt : GoRuntime} (fn : string) (e : proto.Visitee) : list string :=
  match e with
  | proto.pOption o => [optionWarning fn "service" o]
  | proto.pRPC r =>
      map (optionWarning fn "method")
          (filter (fun opt => isRouting opt = false) (optionsAmong (proto.RPC.Elements r)))
  | _ => []
  end.

(** An element that adds the routing annotation, and a method and a
    service with one. *)
Definition routedOption (o : proto.Visitee) : bool :=
  match o with
  | proto.pOption opt => isRouting opt && routed opt
  | _ => false
  end.

Definition routedMethod (e : proto.Visitee) : bool :=
  match e with
  | proto.pRPC r => existsb routedOption (proto.RPC.Elements r)
  | _ => false
  end.

Definition routedService (e : proto.Visitee) : bool :=
  match e with
  | proto.pService s => existsb routedMethod (proto.Service.Elements s)
  | _ => false
  end.

(** ** The package clause and the whole text *)

(** What the clause of [handlePackage] for the file option [o] assigns:
    the import and the annotation ([swift_prefix] gets no value);
    nothing for [go_package] and for a name that is not recognized. *)
Definition fileAnnotation {rt : GoRuntime} (o : proto.Option.t) : option (string * string) :=
  let val := proto.Source (proto.Option.Constant o) in
  if String.eqb (proto.Option.Name o) "swift_prefix"
  then Some ("github.com/gunk/opt/file/swift", "swift.")
  else
    match assoc (proto.Option.Name o) annotatedFileOptions with
    | Some (impt, annotation, quoted) =>
        Some (impt,
              annotation +:+ "(" +:+ (if quoted : bool then strconv_Quote val else val) +:+ ")")
    | None => None
    end.

(** The last [go_package] option. *)
Definition goPackage (opts : list proto.Option.t) : option proto.Option.t :=
  last (filter (fun o => proto.Option.Name o = "go_package") opts).

(** The text of [handlePackage] for the package [p] and the file options
    [opts]: the annotation lines (each handed to [format] as its format
    string), the comment of the package, the comment of the last
    [go_package] option, the package clause and the value of that option
    as a trailing comment. *)
Definition packageText {rt : GoRuntime} (p : proto.Package.t) (opts : list proto.Option.t)
    : string :=
  Str.join (map (fun a => Sprintf ("// +gunk " +:+ snd a +:+ go:"\n") [])
                (omap fileAnnotation opts)) +:+
  commentText 0 (proto.Package.Comment p) +:+
  from_option (fun o => commentText 0 (proto.Option.Comment o)) "" (goPackage opts) +:+
  "package " +:+ proto.Package.Name p +:+
  from_option (fun o =>
    if String.eqb (proto.Source (proto.Option.Constant o)) "" then ""
    else " // proto " +:+ proto.Source (proto.Option.Constant o)) "" (goPackage opts).

(** The state after marking the imports [paths]. *)
Definition markAll (paths : list string) (st : state) : state :=
  fold_left (fun st path => snd (markImport path st)) paths st.

Definition markIf (b : bool) (m : gmap string bool) : gmap string bool :=
  if b then <[httpImport := true]> m else m.

(** The last package statement of a document, and its imports. *)
Definition packageOf (d : list proto.Visitee) : option proto.Package.t :=
  last (omap (fun e => match e with proto.pPackage p => Some p | _ => None end) d).

Definition importsOf (d : list proto.Visitee) : list proto.Import_.t :=
  omap (fun e => match e with proto.pImport i => Some i | _ => None end) d.

(** The kinds of elements that [handleProtoType] has a clause for. *)
Definition handled (e : proto.Visitee) : bool :=
  match e with
  | proto.pSyntax | proto.pPackage _ | proto.pImport _ | proto.pMessage _ | proto.pEnum _
  | proto.pService _ | proto.pOption _ => true
  | _ => false
  end.

Definition isDeclaration (typ : proto.Visitee) : bool :=
  match typ with
  | proto.pMessage _ | proto.pEnum _ | proto.pService _ => true
  | _ => false
  end.

(** The declaration [e] is translated without error by a new builder
    for the file [fn]. *)
Definition translates {rt : GoRuntime} {snk : Snaker} (fn : string) (e : proto.Visitee) : Prop :=
  fst (handleProtoType e (fresh fn)) = Ok tt.

(** The imports marked by the translation of a document: the routing
    import when a method carries a routing annotation, and the imports
    of the annotated file options. *)
Definition usedImports {rt : GoRuntime} (d : list proto.Visitee) : gmap string bool :=
  fold_left (fun m path => <[path := true]> m)
            (map fst (omap fileAnnotation (fileOptions d)))
            (markIf (existsb routedService d) ∅).

(** The text that [convertFile] assembles for a document with the
    package statement [p]. *)
Definition documentText {rt : GoRuntime} {snk : Snaker} (fn : string) (p : proto.Package.t)
    (d : list proto.Visitee) : string :=
  packageText p (fileOptions d) +:+ go:"\n\n" +:+
  (if Nat.eqb (size (usedImports d)) 0 && Nat.eqb (length (importsOf d)) 0 then ""
   else importBlock (mapRange (usedImports d)) (importsOf d) +:+ go:"\n") +:+
  Str.join (map (fun l => go:"\n" +:+ l +:+ go:"\n") (concat (map (blocksOf fn) d))).

Definition samePreamble (st st' : state) : Prop :=
  pkg (bld st') = pkg (bld st) /\ imports (bld st') = imports (bld st).

Definition sameImportsUsed (st st' : state) : Prop :=
  importsUsed (bld st') = importsUsed (bld st).

(** ** Files *)

Section OnDiskLayout.

Context {rt : GoRuntime} {snk : Snaker} {os : OS}.

(** The path that [convertFile] writes for the proto file at [path]. *)
Definition targetOf (path : string) : string :=
  filepath_Join (filepath_Dir path)
    (Str.ReplaceFirst (filepath.Base path) ".proto" ".gunk").

(** The files at [paths] converted one after the other, up to the first
    error. *)
Fixpoint convertAll (paths : list string) (overwrite : bool) (w : world)
    : result unit * world :=
  match paths with
  | [] => (Ok tt, w)
  | path :: paths' =>
      match OnDisk.convertFile path overwrite w with
      | (Fail e, w') => (Fail e, w')
      | (Ok _, w') => convertAll paths' overwrite w'
      end
  end.

End OnDiskLayout.

(** The entries of a directory that [run] converts. *)
Definition protoFiles (files : list FileInfo.t) : list FileInfo.t :=
  filter (fun f => FileInfo.IsDir f = false /\ filepath.Ext (FileInfo.Name f) = ".proto") files.

(** * Properties *)

(** ** Strings *)

Module StrFacts.

Lemma app_nil_r (s : string) : s +:+ "" = s.
Proof. induction s as [|c s IH]; simpl; [done | by f_equal]. Qed.

Lemma app_assoc (s t u : string) : (s +:+ t) +:+ u = s +:+ t +:+ u.
Proof. induction s as [|c s IH]; simpl; [done | by f_equal]. Qed.

Lemma contains_refl (s : string) : Str.contains s s.
Proof. exists "", "". by rewrite app_nil_r. Qed.

Lemma contains_app_r (sub s t : string) : Str.contains sub s -> Str.contains sub (s +:+ t).
Proof.
  intros (pre & post & ->). exists pre, (post +:+ t).
  by rewrite !app_assoc.
Qed.

Lemma contains_app_l (sub s t : string) : Str.contains sub t -> Str.contains sub (s +:+ t).
Proof.
  intros (pre & post & ->). exists (s +:+ pre), post.
  by rewrite !app_assoc.
Qed.

Lemma contains_trans (a b c : string) :
  Str.contains a b -> Str.contains b c -> Str.contains a c.
Proof.
  intros (p1 & q1 & ->) (p2 & q2 & ->).
  exists (p2 +:+ p1), (q1 +:+ q2). by rewrite !app_assoc.
Qed.

Lemma prefix_app (sub post : string) : String.prefix sub (sub +:+ post) = true.
Proof.
  induction sub as [|c sub IH]; simpl; [by destruct post|].
  by destruct (ascii_dec c c).
Qed.

Lemma contains_containsb (sub s : string) : Str.contains sub s -> Str.containsb sub s = true.
Proof.
  intros (pre & post & ->). induction pre as [|c pre IH].
  - change ("" +:+ sub +:+ post) with (sub +:+ post).
    pose proof (prefix_app sub post) as H.
    destruct (sub +:+ post); cbn [Str.containsb]; by rewrite H.
  - cbn [String.append Str.containsb]. rewrite IH. apply orb_true_r.
Qed.

End StrFacts.

(** ** The type mapper *)

Section TypeMapper.

(** C8.  [goType] is a total function from names to tokens: the fifteen
    scalar names have the fixed images of the table, and every other name
    is returned unchanged. *)
Theorem goType_table :
  goType "bool" = "bool" /\ goType "string" = "string" /\ goType "bytes" = "[]byte" /\
  goType "double" = "float64" /\ goType "float" = "float32" /\ goType "int32" = "int" /\
  goType "sint32" = "int32" /\ goType "sfixed32" = "int32" /\
  goType "int64" = "int64" /\ goType "sint64" = "int64" /\ goType "sfixed64" = "int64" /\
  goType "uint32" = "uint32" /\ goType "fixed32" = "uint32" /\
  goType "uint64" = "uint64" /\ goType "fixed64" = "uint64" /\
  (forall name : string, ~ In name scalarNames -> goType name = name).
Proof.
  repeat (split; [reflexivity|]).
  intros name Hname. unfold goType, scalarNames in *. simpl in *.
  repeat match goal with
  | |- context [String.eqb ?x ?y] =>
      destruct (String.eqb_spec x y) as [->|_]; [exfalso; apply Hname; tauto|]
  end.
  reflexivity.
Qed.

(** [goType] on the name of a message. *)
Lemma goType_table_witness :
  ~ In "CheckStatusResponse" scalarNames /\ goType "CheckStatusResponse" = "CheckStatusResponse".
Proof.
  assert (H : ~ In "CheckStatusResponse" scalarNames).
  { unfold scalarNames. simpl. intros H. repeat destruct H as [H|H]; discriminate || done. }
  split; [exact H|].
  apply goType_table, H.
Defined.

End TypeMapper.

(** ** Running the monad *)

Section Run.

Context {rt : GoRuntime} {snk : Snaker}.

Lemma bind_Ok {A B} (m : M A) (k : A -> M B) (st st' : state) (a : A) :
  m st = (Ok a, st') -> bind m k st = k a st'.
Proof. intros H. unfold bind. by rewrite H. Qed.

Lemma bind_Fail {A B} (m : M A) (k : A -> M B) (st st' : state) (e : error) :
  m st = (Fail e, st') -> bind m k st = (Fail e, st').
Proof. intros H. unfold bind. by rewrite H. Qed.

Lemma bind_inv_Ok {A B} (m : M A) (k : A -> M B) (st st2 : state) (b : B) :
  bind m k st = (Ok b, st2) ->
  exists a st1, m st = (Ok a, st1) /\ k a st1 = (Ok b, st2).
Proof.
  unfold bind. destruct (m st) as [[a|e] st1]; [eauto | discriminate].
Qed.

Lemma fold_left_append {A} (g : A -> string) (l : list A) (w : string) :
  fold_left (fun w c => w +:+ g c) l w = w +:+ fold_left (fun w c => w +:+ g c) l "".
Proof.
  revert w. induction l as [|x l IH]; intros w; simpl.
  - by rewrite StrFacts.app_nil_r.
  - rewrite IH, (IH (g x)). by rewrite StrFacts.app_assoc.
Qed.

Lemma format_split (w : string) (indent : nat) (c : option proto.Comment.t)
    (s : string) (args : list operand) :
  format w indent c s args =
  w +:+ commentText indent c +:+
  (if String.eqb s "" then "" else indentation indent +:+ Sprintf s args).
Proof.
  unfold commentText, format. change (String.eqb "" "") with true. cbv iota.
  destruct c as [c|].
  - rewrite (fold_left_append (fun c => indentation indent +:+ Sprintf _ [aString c])).
    destruct (String.eqb s ""); by rewrite ?StrFacts.app_assoc, ?StrFacts.app_nil_r.
  - destruct (String.eqb s ""); by rewrite ?StrFacts.app_nil_r.
Qed.

Lemma formatError_run (pos : scanner.Position) (s : string) (args : list operand) (st : state) :
  formatError pos s args st = (Ok (errorText (filename (bld st)) pos (Sprintf s args)), st).
Proof.
  unfold formatError, errorText, bind, getBuilder, ret. simpl.
  by rewrite StrFacts.app_nil_r.
Qed.

Lemma warnAt_run (pos : scanner.Position) (s : string) (args : list operand) (st : state) :
  warnAt pos s args st =
  (Ok tt, {| bld := bld st;
             stderr := stderr st ++ [errorText (filename (bld st)) pos (Sprintf s args)] |}).
Proof. unfold warnAt. by rewrite (bind_Ok _ _ _ _ _ (formatError_run _ _ _ _)). Qed.

Lemma failAt_run {A} (pos : scanner.Position) (s : string) (args : list operand) (st : state) :
  @failAt _ A pos s args st =
  (Fail (Error (errorText (filename (bld st)) pos (Sprintf s args))), st).
Proof. unfold failAt. by rewrite (bind_Ok _ _ _ _ _ (formatError_run _ _ _ _)). Qed.

(** A loop that only warns about options. *)
Lemma range_warn_options (kind fmt : string) (l : list proto.Option.t) (i : nat) (st : state) :
  (forall n, Sprintf fmt [aString n] = "unhandled " +:+ kind +:+ " option " +:+ strconv_Quote n) ->
  rangeFrom i l (fun _ _ o =>
    warnAt (proto.Option.Position o) fmt [aString (proto.Option.Name o)]) tt st =
  (Ok tt, {| bld := bld st;
             stderr := stderr st ++ map (optionWarning (filename (bld st)) kind) l |}).
Proof.
  intros Hfmt. revert i st. induction l as [|o l IH]; intros i st; simpl.
  - unfold ret. rewrite app_nil_r. by destruct st.
  - erewrite bind_Ok by apply warnAt_run.
    rewrite IH. simpl. rewrite <- app_assoc. simpl.
    unfold optionWarning. by rewrite Hfmt.
Qed.

End Run.

Ltac solve_fmt := intros; simpl; rewrite ?StrFacts.app_nil_r; reflexivity.

(** Appends are put in right-nested form. *)
Ltac str_norm :=
  repeat (progress (rewrite ?StrFacts.app_assoc, ?StrFacts.app_nil_r; cbn [String.append])).

(** ** Message fields *)

Section Fields.

Context {rt : GoRuntime} {snk : Snaker}.

Lemma handleMessageField_normal (w : string) (ft : proto.NormalField.t) (st : state) :
  handleMessageField w (proto.pNormalField ft) st =
  (Ok (w +:+ fieldLine (proto.NormalField.Comment ft) (proto.NormalField.Name ft)
               (if proto.NormalField.Repeated ft
                then "[]" +:+ goType (proto.NormalField.Type_ ft)
                else goType (proto.NormalField.Type_ ft))
               (proto.NormalField.Sequence ft)),
   warned "field" (proto.NormalField.Options ft) st).
Proof.
  unfold handleMessageField. unfold bind at 1. unfold ret at 1.
  unfold range. erewrite bind_Ok by (apply (range_warn_options "field"); solve_fmt).
  unfold ret, warned. f_equal. f_equal.
  rewrite !format_split. unfold fieldLine. simpl. destruct (proto.NormalField.Repeated ft);
    str_norm; reflexivity.
Qed.

Lemma handleMessageField_map (w : string) (ft : proto.MapField.t) (st : state) :
  handleMessageField w (proto.pMapField ft) st =
  (Ok (w +:+ fieldLine (proto.MapField.Comment ft) (proto.MapField.Name ft)
               ("map[" +:+ goType (proto.MapField.KeyType ft) +:+ "]" +:+
                goType (proto.MapField.Type_ ft))
               (proto.MapField.Sequence ft)),
   warned "field" (proto.MapField.Options ft) st).
Proof.
  unfold handleMessageField. unfold bind at 1. unfold ret at 1.
  unfold range. erewrite bind_Ok by (apply (range_warn_options "field"); solve_fmt).
  unfold ret, warned. f_equal. f_equal.
  rewrite !format_split. unfold fieldLine. simpl. str_norm. reflexivity.
Qed.

(** C7.  A repeated plain field is written with the type token [[]T], [T]
    the image of its declared type under [goType]; a map field is written
    with the token [map[K]V], key and value types mapped one by one, and
    without a [[]] in front: a map field carries no repeated flag and
    [handleMessageField] leaves its own flag unset on that path. *)
Theorem handleMessageField_type_token :
  (forall (w : string) (ft : proto.NormalField.t) (st : state),
     proto.NormalField.Repeated ft = true ->
     fst (handleMessageField w (proto.pNormalField ft) st) =
     Ok (w +:+ fieldLine (proto.NormalField.Comment ft) (proto.NormalField.Name ft)
                 ("[]" +:+ goType (proto.NormalField.Type_ ft))
                 (proto.NormalField.Sequence ft))) /\
  (forall (w : string) (ft : proto.MapField.t) (st : state),
     fst (handleMessageField w (proto.pMapField ft) st) =
     Ok (w +:+ fieldLine (proto.MapField.Comment ft) (proto.MapField.Name ft)
                 ("map[" +:+ goType (proto.MapField.KeyType ft) +:+ "]" +:+
                  goType (proto.MapField.Type_ ft))
                 (proto.MapField.Sequence ft))).
Proof.
  split.
  - intros w ft st Hrep. rewrite handleMessageField_normal. by rewrite Hrep.
  - intros w ft st. by rewrite handleMessageField_map.
Qed.

End Fields.

Section FieldSamples.

#[local] Existing Instances Ref.refRuntime Ref.refSnaker.

(** The field [repeated string tags = 4;]. *)
Lemma handleMessageField_type_token_witness :
  proto.NormalField.Repeated Sample.tags = true /\
  fst (handleMessageField "" (proto.pNormalField Sample.tags) Ref.state0) =
  Ok (go:"\tTags []string `pb:\'4\' json:\'tags\'`\n").
Proof.
  split; [reflexivity|].
  rewrite (proj1 handleMessageField_type_token "" Sample.tags Ref.state0 eq_refl).
  reflexivity.
Defined.

End FieldSamples.

(** ** Enumerations *)

Section Enums.

Context {rt : GoRuntime} {snk : Snaker}.

Lemma outputIota_fields_from (e : proto.Enum.t proto.Visitee)
    (fs : list (proto.EnumField.t proto.Visitee)) (i : nat) (acc : bool) (st : state) :
  rangeFrom i (map proto.pEnumField fs) (fun outputIota i c =>
    match c with
    | proto.pEnumField ef =>
        if negb (Z.of_nat i =? proto.EnumField.Integer ef) then ret false else ret outputIota
    | proto.pOption o =>
        do warnAt (proto.Option.Position o) "unhandled enum option %q"
             [aString (proto.Option.Name o)] ;
        ret outputIota
    | _ =>
        failAt (proto.Enum.Position e) "unexpected type %T in enum, expected enum field"
          [aType (proto.typeName c)]
    end) acc st =
  (Ok (acc && bool_decide (map proto.EnumField.Integer fs =
                           map Z.of_nat (seq i (length fs)))), st).
Proof.
  revert i acc st. induction fs as [|f fs IH]; intros i acc st; simpl.
  - unfold ret. by rewrite andb_true_r.
  - destruct (Z.eqb_spec (Z.of_nat i) (proto.EnumField.Integer f)) as [Heq|Hne]; simpl.
    + unfold bind, ret at 1. rewrite IH. do 3 f_equal.
      apply bool_decide_ext. rewrite <- Heq. split; [congruence|].
      intros H. by injection H.
    + unfold bind, ret at 1. rewrite IH. simpl. do 2 f_equal.
      rewrite bool_decide_eq_false_2; [by rewrite andb_false_r|].
      intros H. by injection H.
Qed.

(** Where the elements of an enum are its values and nothing else, the
    auto-increment form is chosen exactly for the values 0, 1, ..., n-1. *)
Lemma outputIota_fields_only (e : proto.Enum.t proto.Visitee)
    (fs : list (proto.EnumField.t proto.Visitee)) (st : state) :
  proto.Enum.Elements e = map proto.pEnumField fs ->
  handleEnum_outputIota e st =
  (Ok (bool_decide (map proto.EnumField.Integer fs = map Z.of_nat (seq 0 (length fs)))), st).
Proof.
  intros He. unfold handleEnum_outputIota, range. rewrite He.
  by rewrite outputIota_fields_from.
Qed.

(** The loop over the elements of a value only warns. *)
Lemma enumValue_options (l : list proto.Visitee) (i : nat) (st : state) :
  exists st',
    rangeFrom i l (fun (_ : unit) (_ : nat) e' =>
      match e' with
      | proto.pOption o =>
          warnAt (proto.Option.Position o) "unhandled enumvalue option %q"
            [aString (proto.Option.Name o)]
      | _ => ret tt
      end) tt st = (Ok tt, st') /\ bld st' = bld st.
Proof.
  revert i st. induction l as [|x l IH]; intros i st; simpl; [by eexists|].
  assert (Hx : exists st1,
    match x with
    | proto.pOption o =>
        warnAt (proto.Option.Position o) "unhandled enumvalue option %q"
          [aString (proto.Option.Name o)]
    | _ => ret tt
    end st = (Ok tt, st1) /\ bld st1 = bld st).
  { destruct x; by eexists. }
  destruct Hx as (st1 & Hx & Hb). unfold bind at 1. rewrite Hx.
  destruct (IH (S i) st1) as (st' & Hrun & Hb'). exists st'. split; [done|congruence].
Qed.

Lemma enumLoop_fields (e : proto.Enum.t proto.Visitee) (outputIota : bool)
    (fs : list (proto.EnumField.t proto.Visitee)) :
  forall (i : nat) (w : string) (st : state),
  exists st',
    rangeFrom i (map proto.pEnumField fs) (fun w i c =>
      match c with
      | proto.pEnumField ef =>
          let* _ := range (proto.EnumField.Elements ef) (fun _ _ e' =>
            match e' with
            | proto.pOption o =>
                warnAt (proto.Option.Position o) "unhandled enumvalue option %q"
                  [aString (proto.Option.Name o)]
            | _ => ret tt
            end) tt in
          if negb outputIota then
            ret (format w 1 (proto.EnumField.Comment ef) (go:"%s %s = %d\n")
                   [aString (proto.EnumField.Name ef); aString (proto.Enum.Name e);
                    aInt (proto.EnumField.Integer ef)])
          else if Nat.eqb i 0 then
            ret (format w 1 (proto.EnumField.Comment ef) (go:"%s %s = iota\n")
                   [aString (proto.EnumField.Name ef); aString (proto.Enum.Name e)])
          else
            ret (format w 1 (proto.EnumField.Comment ef) (go:"%s\n")
                   [aString (proto.EnumField.Name ef)])
      | _ => ret w
      end) w st = (Ok (w +:+ enumLines e outputIota i fs), st') /\
    bld st' = bld st.
Proof.
  induction fs as [|ef fs IH]; intros i w st; cbn [map rangeFrom enumLines].
  - exists st. by rewrite StrFacts.app_nil_r.
  - unfold bind at 1. unfold bind at 1. unfold range at 1.
    destruct (enumValue_options (proto.EnumField.Elements ef) 0 st) as (st1 & -> & Hb1).
    match goal with
    | |- context [(if negb outputIota then ret ?A
                   else if Nat.eqb i 0 then ret ?B else ret ?C) st1] =>
        replace ((if negb outputIota then ret A
                  else if Nat.eqb i 0 then ret B else ret C) st1)
          with (Ok (if negb outputIota then A else if Nat.eqb i 0 then B else C), st1)
          by (destruct outputIota, (Nat.eqb i 0); reflexivity);
        cbv beta iota;
        destruct (IH (S i) (if negb outputIota then A else if Nat.eqb i 0 then B else C) st1)
          as (st' & -> & Hb)
    end.
    exists st'. split; [|congruence]. do 2 f_equal.
    destruct outputIota, (Nat.eqb i 0); cbn [negb]; rewrite format_split; simpl; str_norm;
      reflexivity.
Qed.

(** An enum whose elements are values only: the block written. *)
Lemma handleEnum_fields_only (e : proto.Enum.t proto.Visitee)
    (fs : list (proto.EnumField.t proto.Visitee)) (st : state) :
  proto.Enum.Elements e = map proto.pEnumField fs ->
  fst (handleEnum e st) = Ok tt /\
  translatedDeclarations (bld (snd (handleEnum e st))) =
    translatedDeclarations (bld st) ++ [enumBlock e fs].
Proof.
  intros He. destruct (handleEnum e st) as [r st2] eqn:Hrun. cbn [fst snd].
  unfold handleEnum in Hrun. cbv zeta in Hrun. unfold bind at 1 in Hrun.
  rewrite (outputIota_fields_only e fs st He) in Hrun.
  unfold bind at 1 in Hrun. unfold range at 1 in Hrun. rewrite He in Hrun.
  match type of Hrun with context [rangeFrom 0 _ _ ?w0 st] =>
    destruct (enumLoop_fields e
                (bool_decide (map proto.EnumField.Integer fs =
                              map Z.of_nat (seq 0 (length fs)))) fs 0 w0 st)
      as (st' & Hloop & Hb)
  end.
  rewrite Hloop in Hrun.
  unfold appendDeclaration, bind, getBuilder, setBuilder in Hrun. injection Hrun as <- <-.
  split; [done|]. cbn [bld translatedDeclarations]. rewrite Hb. do 2 f_equal.
  unfold enumBlock. rewrite !format_split. simpl. str_norm. reflexivity.
Qed.

(** C2 (where the code departs from it).  The position compared with the
    integer of a value counts the options of the enum too.  With an option
    in front, the values 1, 2 are taken for positional and written in the
    auto-increment form, and no element carries the seed; with an option
    in between, the values 0, 1 are written in the explicit form. *)
Theorem handleEnum_position_counts_options (st : state) :
  fst (handleEnum_outputIota Sample.enumAfterOption st) = Ok true /\
  translatedDeclarations (bld (snd (handleEnum Sample.enumAfterOption st))) =
    translatedDeclarations (bld st) ++ [go:"type E int\n\nconst (\n\tA\n\tB\n)"] /\
  fst (handleEnum_outputIota Sample.enumAroundOption st) = Ok false /\
  translatedDeclarations (bld (snd (handleEnum Sample.enumAroundOption st))) =
    translatedDeclarations (bld st) ++ [go:"type E int\n\nconst (\n\tA E = 0\n\tB E = 1\n)"].
Proof. repeat split; reflexivity. Qed.

End Enums.

(** ** File options *)

Section FileOptions.

Context {rt : GoRuntime} {snk : Snaker}.

(** C3 (where the code departs from it).  The clause for [swift_prefix]
    marks the import of its family and assigns no annotation: the line
    written for [option swift_prefix = "Foo";] ends after the package
    qualifier. *)
Theorem handlePackage_swift_prefix (err : list string) :
  let st := {| bld := Sample.afterOptions [Sample.option_ "swift_prefix" (Ref.str "Foo")];
               stderr := err |} in
  fst (handlePackage st) = Ok (go:"// +gunk swift.\npackage util") /\
  importsUsed (bld (snd (handlePackage st))) = {[ "github.com/gunk/opt/file/swift" := true ]}.
Proof. split; reflexivity. Qed.

(** For the twelve other options written as annotations, the clause
    marks the import of the family and adds the fragment
    [Annotation(value)], the value quoted for the string-valued options. *)
Lemma handlePackage_option_annotation (name impt annotation : string) (quoted : bool)
    (opt : option proto.Option.t) (anns : list string) (o : proto.Option.t) (st : state) :
  (name, (impt, annotation, quoted)) ∈ annotatedFileOptions ->
  proto.Option.Name o = name ->
  handlePackage_option opt anns o st =
  (Ok (opt,
       anns ++ [annotation +:+ "(" +:+
                (if quoted then strconv_Quote (proto.Source (proto.Option.Constant o))
                 else proto.Source (proto.Option.Constant o)) +:+ ")"]),
   snd (markImport impt st)).
Proof.
  intros Hin Hname. unfold handlePackage_option. cbv zeta. rewrite Hname. clear Hname.
  unfold annotatedFileOptions in Hin.
  repeat (apply elem_of_cons in Hin as [[= -> -> -> ->]|Hin];
          [cbn; by rewrite ?StrFacts.app_nil_r|]).
  by apply elem_of_nil in Hin.
Qed.

End FileOptions.

Section FileOptionSamples.

#[local] Existing Instances Ref.refRuntime Ref.refSnaker.

(** The line of an annotation is handed to [format] as the format: a
    [%] in the value of an option is read as a verb. *)
Example handlePackage_percent_in_value :
  fst (handlePackage
         {| bld := Sample.afterOptions [Sample.option_ "java_package" (Ref.str "com.x%d")];
            stderr := [] |}) =
  Ok (go:"// +gunk java.Package(\'com.x%!d(MISSING)\')\npackage util").
Proof. reflexivity. Qed.

End FileOptionSamples.

(** ** Declarations in an invalid position *)

Section InvalidChildren.

Context {rt : GoRuntime} {snk : Snaker}.

(** C6 (where the code departs from it).  A comment among the elements of
    an enum is an error of [handleEnum], returned with the position of
    the enum when the enum is a top-level declaration.  [handleMessage]
    calls [handleEnum] for a nested enum and drops what it returns: the
    document is translated without error and without the enum. *)
Theorem nested_enum_error_dropped (st : state) :
  handleProtoType (proto.pEnum Sample.enumWithComment) st =
    (Fail (Error (errorText (filename (bld st)) (Ref.pos 2 1)
                    "unexpected type *proto.Comment in enum, expected enum field")), st) /\
  convertFile "util.proto" Sample.nestedEnumDocument st =
    (Ok (go:"package util\n\n\ntype M struct {\n}\n"),
     {| bld := {| filename := "util.proto";
                  translatedDeclarations := [go:"type M struct {\n}"];
                  pkg := Some Sample.package; pkgOpts := []; imports := [];
                  importsUsed := ∅ |};
        stderr := stderr st |}).
Proof.
  split.
  - unfold errorText. destruct st as [b e]. simpl.
    rewrite <- (StrFacts.app_nil_r "unexpected type *proto.Comment in enum, expected enum field").
    reflexivity.
  - reflexivity.
Qed.

End InvalidChildren.

(** ** Loops *)

Section Loops.

Context {A B : Type}.

(** A successful loop ran its body on each element, and a relation that
    every successful step respects holds from the start to that step and
    from that step to the end. *)
Lemma rangeFrom_visits (R : B * state -> B * state -> Prop) `{!PreOrder R}
    (body : B -> nat -> A -> M B) (l : list A) (x : A) :
  (forall acc i y st acc' st', body acc i y st = (Ok acc', st') -> R (acc, st) (acc', st')) ->
  x ∈ l ->
  forall i acc st r st',
  rangeFrom i l body acc st = (Ok r, st') ->
  exists j acc1 st1 acc2 st2,
    body acc1 j x st1 = (Ok acc2, st2) /\ R (acc, st) (acc1, st1) /\ R (acc2, st2) (r, st').
Proof.
  intros Hstep Hin. induction l as [|y l IH]; [by apply elem_of_nil in Hin|].
  intros i acc st r st' Hrun. simpl in Hrun.
  apply bind_inv_Ok in Hrun as (acc1 & st1 & Hy & Hrest).
  assert (Hmono : forall i acc st r st',
            rangeFrom i l body acc st = (Ok r, st') -> R (acc, st) (r, st')).
  { clear -Hstep PreOrder0. induction l as [|z l IHl]; intros i acc st r st' H; simpl in H.
    - injection H as <- <-. reflexivity.
    - apply bind_inv_Ok in H as (a1 & s1 & Hz & Hr).
      etrans; [apply (Hstep _ _ _ _ _ _ Hz) | apply (IHl _ _ _ _ _ Hr)]. }
  apply elem_of_cons in Hin as [->|Hin].
  - exists i, acc, st, acc1, st1. split; [done|]. split; [reflexivity|].
    by apply (Hmono _ _ _ _ _ Hrest).
  - destruct (IH Hin _ _ _ _ _ Hrest) as (j & a1 & s1 & a2 & s2 & Hb & H1 & H2).
    exists j, a1, s1, a2, s2. split; [done|]. split; [|done].
    etrans; [apply (Hstep _ _ _ _ _ _ Hy) | done].
Qed.

Lemma rangeFrom_respects (R : B * state -> B * state -> Prop) `{!PreOrder R}
    (body : B -> nat -> A -> M B) (l : list A) :
  (forall acc i y st acc' st', body acc i y st = (Ok acc', st') -> R (acc, st) (acc', st')) ->
  forall i acc st r st',
  rangeFrom i l body acc st = (Ok r, st') -> R (acc, st) (r, st').
Proof.
  intros Hstep. induction l as [|z l IHl]; intros i acc st r st' H; simpl in H.
  - injection H as <- <-. reflexivity.
  - apply bind_inv_Ok in H as (a1 & s1 & Hz & Hr).
    etrans; [apply (Hstep _ _ _ _ _ _ Hz) | apply (IHl _ _ _ _ _ Hr)].
Qed.

End Loops.

(** ** Routing annotations *)

Section Routing.

Context {rt : GoRuntime} {snk : Snaker}.

Lemma last_filter_cons {X} (P : X -> Prop) `{!forall x, Decision (P x)} (x : X) (l : list X) :
  last (filter P (x :: l)) =
  match last (filter P l) with
  | Some y => Some y
  | None => if decide (P x) then Some x else None
  end.
Proof.
  rewrite filter_cons. destruct (decide (P x)); [|by destruct (last (filter P l))].
  rewrite last_cons. by destruct (last (filter P l)).
Qed.

(** With string literals only, the last key that is not [body] gives
    [method] and [url], the last [body] key gives [body], and the state is
    left as it was. *)
Lemma httpKeys_from_strings (opt : proto.Option.t) (m : list proto.NamedLiteral.t)
    (i : nat) (method url body : string) (st : state) :
  allStrings m = true ->
  rangeFrom i m (keysBody opt) (method, url, body) st =
  (Ok (from_option proto.NamedLiteral.Name method (lastVerb m),
       from_option (fun l => proto.Source (proto.NamedLiteral.Literal l)) url (lastVerb m),
       from_option (fun l => proto.Source (proto.NamedLiteral.Literal l)) body (lastBody m)),
   st).
Proof.
  revert i method url body st.
  induction m as [|[k lit] m IH]; intros i method url body st Hall; [reflexivity|].
  apply andb_true_iff in Hall as [Hstr Hall]. cbn [proto.NamedLiteral.Literal snd] in Hstr.
  unfold lastVerb, lastBody in *. rewrite !last_filter_cons.
  cbn [rangeFrom]. unfold switch, existsb, proto.NamedLiteral.Name,
    proto.NamedLiteral.Literal, handleLiteralString. cbn [fst snd].
  rewrite Hstr. cbn [negb].
  destruct (String.eqb_spec k "body") as [->|Hk].
  - rewrite orb_true_l. unfold bind at 1, ret at 1. rewrite IH by done.
    repeat case_decide; try done.
    by destruct (last (filter _ m)), (last (filter _ m)).
  - rewrite orb_false_l. unfold bind at 1, ret at 1. rewrite IH by done.
    repeat case_decide; try done.
    by destruct (last (filter _ m)), (last (filter _ m)).
Qed.

(** A literal that is not a string makes the loop return an error. *)
Lemma httpKeys_from_other (opt : proto.Option.t) (m : list proto.NamedLiteral.t)
    (i : nat) (method url body : string) (st : state) :
  allStrings m = false ->
  exists e st', rangeFrom i m (keysBody opt) (method, url, body) st = (Fail e, st').
Proof.
  revert i method url body st.
  induction m as [|[k lit] m IH]; intros i method url body st Hall; [discriminate|].
  cbn [rangeFrom]. unfold switch, existsb, proto.NamedLiteral.Name,
    proto.NamedLiteral.Literal, handleLiteralString. cbn [fst snd].
  cbn [allStrings forallb proto.NamedLiteral.Literal snd] in Hall.
  destruct (proto.IsString lit); cbn [negb andb] in *.
  - destruct (String.eqb k "body"); cbn [orb]; unfold bind at 1, ret at 1; by apply IH.
  - destruct (String.eqb k "body"); cbn [orb]; unfold bind at 1;
      rewrite failAt_run; eauto.
Qed.

Lemma handleService_httpKeys_inv (opt : proto.Option.t) (st st' : state)
    (method url body : string) :
  handleService_httpKeys opt st = (Ok (method, url, body), st') ->
  st' = st /\
  method = nameOf (lastVerb (proto.OrderedMap (proto.Option.Constant opt))) /\
  url = sourceOf (lastVerb (proto.OrderedMap (proto.Option.Constant opt))) /\
  body = sourceOf (lastBody (proto.OrderedMap (proto.Option.Constant opt))).
Proof.
  intros Hrun.
  set (m := proto.OrderedMap (proto.Option.Constant opt)).
  assert (Hrun' : rangeFrom 0 m (keysBody opt) ("", "", "") st = (Ok (method, url, body), st'))
    by exact Hrun.
  destruct (allStrings m) eqn:Hall.
  - rewrite httpKeys_from_strings in Hrun' by done. by injection Hrun' as <- <- <- <-.
  - destruct (httpKeys_from_other opt m 0 "" "" "" st Hall) as (e & st1 & Hfail).
    rewrite Hfail in Hrun'. discriminate.
Qed.

(** What the clause for the routing option does when it returns without
    error. *)
Lemma handleService_http_inv (opt : proto.Option.t) (w w' : string)
    (c c' : option proto.Comment.t) (st st' : state) :
  handleService_http opt w c st = (Ok (w', c'), st') ->
  let method := nameOf (lastVerb (proto.OrderedMap (proto.Option.Constant opt))) in
  let url := sourceOf (lastVerb (proto.OrderedMap (proto.Option.Constant opt))) in
  let body := sourceOf (lastBody (proto.OrderedMap (proto.Option.Constant opt))) in
  if negb (String.eqb method "") && negb (String.eqb url "") then
    w' = w +:+ match c with Some _ => commentText 1 c +:+ go:"\t//\n" | None => "" end +:+
         httpMatch method url body /\
    c' = None /\ markImport httpImport st = (Ok tt, st')
  else w' = w /\ c' = c /\ st' = st.
Proof.
  unfold handleService_http. cbv zeta.
  destruct (Nat.eqb _ 0); [rewrite failAt_run; discriminate|].
  intros Hrun. apply bind_inv_Ok in Hrun as ([[method url] body] & st1 & Hkeys & Hrun).
  apply handleService_httpKeys_inv in Hkeys as (-> & <- & <- & <-).
  destruct (negb (String.eqb method "") && negb (String.eqb url "")); cycle 1.
  { by injection Hrun as <- <- <-. }
  assert (Hw : forall w0 c0,
    (let '(w, comment) := (w0, c0) : string * option proto.Comment.t in
     let w := format w 1 None (go:"// +gunk http.Match{\n") [] in
     let w := format w 1 None (go:"//     Method: %q,\n") [aString (strings_ToUpper method)] in
     let w := format w 1 None (go:"//     Path: %q,\n") [aString url] in
     let w := if negb (String.eqb body "")
              then format w 1 None (go:"//     Body: %q,\n") [aString body] else w in
     let w := format w 1 None (go:"// }\n") [] in
     do markImport "github.com/gunk/opt/http" ;
     ret (w, comment)) st =
    (Ok (w0 +:+ httpMatch method url body, c0), snd (markImport httpImport st))).
  { intros w0 c0. cbv zeta beta iota. unfold bind, markImport, getBuilder, setBuilder, ret.
    cbn [fst snd]. do 2 f_equal. unfold httpMatch.
    destruct (String.eqb body ""); cbn [negb]; rewrite !format_split; simpl;
      str_norm; reflexivity. }
  destruct c as [c|].
  - rewrite Hw in Hrun. injection Hrun as <- <- <-.
    split; [|done]. rewrite format_split. simpl. by str_norm.
  - rewrite Hw in Hrun. injection Hrun as <- <- <-. split; [|done]. by str_norm.
Qed.

Lemma lastVerb_app (pre post : list proto.NamedLiteral.t) (l : proto.NamedLiteral.t) :
  proto.NamedLiteral.Name l <> "body" ->
  Forall (fun l' => proto.NamedLiteral.Name l' = "body") post ->
  lastVerb (pre ++ l :: post) = Some l.
Proof.
  intros Hl Hpost. unfold lastVerb. rewrite filter_app, filter_cons_True by done.
  replace (filter _ post) with (@nil proto.NamedLiteral.t).
  - apply last_snoc.
  - symmetry. induction Hpost as [|x post Hx _ IH]; [done|].
    by rewrite filter_cons_False by (by rewrite Hx; intros []).
Qed.

(** C5 (amended).  When several keys of the ordered map are not [body]
    and every literal of the map is a string, the last of them in the
    order of the map is the verb and its literal the path: the loop
    returns them whatever keys came before, the annotation is written
    from them, and no diagnostic is written. *)
Theorem last_verb_key_wins (opt : proto.Option.t) (pre post : list proto.NamedLiteral.t)
    (k : string) (lit : proto.Literal) (w : string) (c : option proto.Comment.t) (st : state) :
  proto.OrderedMap (proto.Option.Constant opt) = pre ++ (k, lit) :: post ->
  k <> "body" ->
  Forall (fun l => proto.NamedLiteral.Name l = "body") post ->
  allStrings (proto.OrderedMap (proto.Option.Constant opt)) = true ->
  exists body,
    handleService_httpKeys opt st = (Ok (k, proto.Source lit, body), st) /\
    (k <> "" -> proto.Source lit <> "" ->
     exists w' c' st',
       handleService_http opt w c st = (Ok (w', c'), st') /\
       Str.contains (httpMatch k (proto.Source lit) body) w' /\
       stderr st' = stderr st).
Proof.
  intros Hmap Hk Hpost Hall.
  assert (Hverb : lastVerb (proto.OrderedMap (proto.Option.Constant opt)) = Some (k, lit))
    by (rewrite Hmap; by apply lastVerb_app).
  exists (sourceOf (lastBody (proto.OrderedMap (proto.Option.Constant opt)))).
  assert (Hkeys : handleService_httpKeys opt st =
    (Ok (k, proto.Source lit,
         sourceOf (lastBody (proto.OrderedMap (proto.Option.Constant opt)))), st)).
  { unfold handleService_httpKeys, range. cbv zeta.
    rewrite httpKeys_from_strings by done. by rewrite Hverb. }
  split; [exact Hkeys|]. intros Hk' Hurl.
  destruct (handleService_http opt w c st) as [[[w' c']|e] st'] eqn:Hrun.
  - exists w', c', st'. split; [done|].
    apply handleService_http_inv in Hrun. cbv zeta in Hrun.
    rewrite Hverb in Hrun. unfold nameOf in Hrun. unfold sourceOf at 1 2 in Hrun. cbn [from_option proto.NamedLiteral.Name
      proto.NamedLiteral.Literal fst snd] in Hrun.
    apply String.eqb_neq in Hk', Hurl. rewrite Hk', Hurl in Hrun. cbn [negb andb] in Hrun.
    destruct Hrun as (-> & _ & Hmark). split.
    + apply StrFacts.contains_app_l, StrFacts.contains_app_l, StrFacts.contains_refl.
    + unfold markImport, bind, getBuilder, setBuilder in Hmark. by injection Hmark as <-.
  - exfalso. unfold handleService_http in Hrun. cbv zeta in Hrun.
    replace (Nat.eqb _ 0) with false in Hrun
      by (symmetry; apply Nat.eqb_neq; rewrite Hmap, length_app; simpl; lia).
    erewrite bind_Ok in Hrun by exact Hkeys. cbv beta iota in Hrun.
    apply String.eqb_neq in Hk', Hurl. rewrite Hk', Hurl in Hrun. cbn [negb andb] in Hrun.
    destruct c; unfold bind, markImport, getBuilder, setBuilder, ret in Hrun; discriminate.
Qed.

End Routing.

(** ** Services *)

Section Services.

Context {rt : GoRuntime} {snk : Snaker}.

#[local] Instance extends_preorder {B} (text : B -> string) : PreOrder (extends text).
Proof.
  split.
  - intros [a st]. split; [exists ""; by rewrite StrFacts.app_nil_r | done].
  - intros [a1 s1] [a2 s2] [a3 s3] ([m1 H1] & Hm1 & Hd1) ([m2 H2] & Hm2 & Hd2).
    simpl in *. split; [|split].
    + exists (m1 +:+ m2). simpl. by rewrite H2, H1, StrFacts.app_assoc.
    + simpl. auto.
    + simpl. congruence.
Qed.

Lemma extends_contains {B} (text : B -> string) (x y : B * state) (sub : string) :
  extends text x y -> Str.contains sub (text (fst x)) -> Str.contains sub (text (fst y)).
Proof. intros ([more ->] & _) H. by apply StrFacts.contains_app_r. Qed.

Lemma extends_same_bld {B} (text : B -> string) (a : B) (st st' : state) :
  bld st' = bld st -> extends text (a, st) (a, st').
Proof.
  intros Hb. split; [exists ""; by rewrite StrFacts.app_nil_r|].
  unfold marked. simpl. by rewrite Hb.
Qed.

Lemma optionsBody_inv (r : proto.RPC.t proto.Visitee) (w w' : string)
    (c c' : option proto.Comment.t) (i : nat) (o : proto.Visitee) (st st' : state) :
  optionsBody r (w, c) i o st = (Ok (w', c'), st') ->
  exists opt, o = proto.pOption opt /\
    if String.eqb (proto.Option.Name opt) "(google.api.http)"
    then handleService_http opt w c st = (Ok (w', c'), st')
    else w' = w /\ c' = c /\ bld st' = bld st.
Proof.
  destruct o; cbv beta iota; try (rewrite failAt_run; discriminate).
  intros Hrun. exists o. split; [done|]. revert Hrun.
  cbv zeta. unfold switch, existsb.
  destruct (String.eqb (proto.Option.Name o) "(google.api.http)"); cbn [orb]; [done|].
  unfold bind. rewrite warnAt_run. unfold ret. by intros [= <- <- <-].
Qed.

Lemma optionsBody_extends (r : proto.RPC.t proto.Visitee) :
  forall (acc : string * option proto.Comment.t) (i : nat) (o : proto.Visitee) (st : state)
         (acc' : string * option proto.Comment.t) (st' : state),
  optionsBody r acc i o st = (Ok acc', st') -> extends fst (acc, st) (acc', st').
Proof.
  intros [w c] i o st [w' c'] st' Hrun.
  apply (optionsBody_inv r _ _ _ _ i) in Hrun as (opt & -> & Hrun).
  destruct (String.eqb (proto.Option.Name opt) "(google.api.http)").
  - apply handleService_http_inv in Hrun. cbv zeta in Hrun.
    destruct (_ && _).
    + destruct Hrun as (-> & -> & Hmark).
      unfold markImport, bind, getBuilder, setBuilder in Hmark. injection Hmark as <-.
      split; [by eexists|]. split; [|done].
      intros _. unfold marked. simpl. apply lookup_insert_eq.
    + destruct Hrun as (-> & -> & ->). reflexivity.
  - destruct Hrun as (-> & -> & Hb). split; [exists ""; by rewrite StrFacts.app_nil_r|].
    unfold marked. simpl. by rewrite Hb.
Qed.

(** What translating an RPC adds to the text of the interface. *)
Lemma handleService_rpc_inv (i : nat) (r : proto.RPC.t proto.Visitee) (w w' : string)
    (st st' : state) :
  handleService_rpc i r w st = (Ok w', st') ->
  extends id (w, st) (w', st') /\
  forall opt : proto.Option.t,
    proto.pOption opt ∈ proto.RPC.Elements r ->
    proto.Option.Name opt = "(google.api.http)" ->
    let method := nameOf (lastVerb (proto.OrderedMap (proto.Option.Constant opt))) in
    let url := sourceOf (lastVerb (proto.OrderedMap (proto.Option.Constant opt))) in
    let body := sourceOf (lastBody (proto.OrderedMap (proto.Option.Constant opt))) in
    method <> "" -> url <> "" ->
    Str.contains (httpMatch method url body) w' /\ marked st'.
Proof.
  unfold handleService_rpc. cbv zeta. intros Hrun.
  apply bind_inv_Ok in Hrun as ([w1 c1] & st1 & Hloop & Hret).
  unfold ret in Hret. injection Hret as <- <-.
  set (w0 := if _ && _ then _ else w) in Hloop.
  assert (Hw0 : extends id (w, st) (w0, st)).
  { split; [|done]. subst w0. destruct (_ && _).
    - rewrite format_split. by eexists.
    - exists "". by rewrite StrFacts.app_nil_r. }
  assert (Hend : forall c, extends fst ((w1, c) : string * option proto.Comment.t, st1)
            (format w1 1 c1 (go:"%s(%s) %s\n")
               [aString (proto.RPC.Name r);
                aString (if String.eqb (proto.RPC.RequestType r) "google.protobuf.Empty"
                         then "" else proto.RPC.RequestType r);
                aString (if String.eqb (proto.RPC.ReturnsType r) "google.protobuf.Empty"
                         then "" else proto.RPC.ReturnsType r)], c, st1)).
  { intros c. split; [|done]. rewrite format_split. by eexists. }
  pose proof (rangeFrom_respects (extends fst) (optionsBody r) _
                (optionsBody_extends r) _ _ _ _ _ Hloop) as Hmid.
  split.
  - destruct Hw0 as ([m0 H0] & _), Hmid as ([m1 H1] & Hk1 & Hd1),
      (Hend c1) as ([m2 H2] & _). simpl in *.
    split; [|split; [done|done]].
    exists (m0 +:+ m1 +:+ m2). simpl. by rewrite H2, H1, H0, !StrFacts.app_assoc.
  - intros opt Hin Hname Hmethod Hurl.
    destruct (rangeFrom_visits (extends fst) (optionsBody r) _ _
                (optionsBody_extends r) Hin _ _ _ _ _ Hloop)
      as (j & [wa ca] & sta & [wb cb] & stb & Hstep & _ & Hafter).
    destruct (optionsBody_inv r wa wb ca cb j (proto.pOption opt) sta stb Hstep)
      as (opt' & [= <-] & Hhttp). clear Hstep. rename Hhttp into Hstep.
    rewrite Hname in Hstep. change (String.eqb _ _) with true in Hstep. cbv iota in Hstep.
    apply handleService_http_inv in Hstep. cbv zeta in Hstep.
    apply String.eqb_neq in Hmethod, Hurl. rewrite Hmethod, Hurl in Hstep.
    cbn [negb andb] in Hstep. destruct Hstep as (-> & _ & Hmark).
    split.
    + apply (extends_contains fst _ _ _ (Hend c1)). simpl.
      apply (extends_contains fst _ _ _ Hafter). simpl.
      apply StrFacts.contains_app_l, StrFacts.contains_app_l, StrFacts.contains_refl.
    + apply Hafter. unfold markImport, bind, getBuilder, setBuilder in Hmark.
      injection Hmark as <-. unfold marked. simpl. apply lookup_insert_eq.
Qed.

Lemma serviceBody_extends (s : proto.Service.t proto.Visitee) :
  forall (w : string) (i : nat) (e : proto.Visitee) (st : state) (w' : string) (st' : state),
  serviceBody s w i e st = (Ok w', st') -> extends id (w, st) (w', st').
Proof.
  intros w i e st w' st'.
  destruct e; cbv beta iota; try (rewrite failAt_run; discriminate).
  - unfold bind. rewrite warnAt_run. unfold ret. intros [= <- <-].
    by apply extends_same_bld.
  - intros Hrun. by apply handleService_rpc_inv in Hrun as [? _].
Qed.

(** A service that is translated adds one block to the declarations; the
    block holds the annotation of every routing option of its methods
    that gives a verb and a path, and the routing import is marked. *)
Lemma handleService_inv (s : proto.Service.t proto.Visitee) (st st' : state) :
  handleService s st = (Ok tt, st') ->
  exists block,
    translatedDeclarations (bld st') = translatedDeclarations (bld st) ++ [block] /\
    forall (r : proto.RPC.t proto.Visitee) (opt : proto.Option.t),
      proto.pRPC r ∈ proto.Service.Elements s ->
      proto.pOption opt ∈ proto.RPC.Elements r ->
      proto.Option.Name opt = "(google.api.http)" ->
      nameOf (lastVerb (proto.OrderedMap (proto.Option.Constant opt))) <> "" ->
      sourceOf (lastVerb (proto.OrderedMap (proto.Option.Constant opt))) <> "" ->
      Str.contains
        (httpMatch (nameOf (lastVerb (proto.OrderedMap (proto.Option.Constant opt))))
                   (sourceOf (lastVerb (proto.OrderedMap (proto.Option.Constant opt))))
                   (sourceOf (lastBody (proto.OrderedMap (proto.Option.Constant opt)))))
        block /\
      marked st'.
Proof.
  unfold handleService. cbv zeta. intros Hrun.
  apply bind_inv_Ok in Hrun as (w1 & st1 & Hloop & Hend).
  unfold appendDeclaration, bind, getBuilder, setBuilder in Hend. injection Hend as <-.
  pose proof (rangeFrom_respects (extends id) (serviceBody s) _
                (serviceBody_extends s) _ _ _ _ _ Hloop) as (_ & _ & Hdecls).
  simpl in Hdecls. eexists. split; [simpl; by rewrite Hdecls|].
  intros r opt Hr Hopt Hname Hmethod Hurl.
  destruct (rangeFrom_visits (extends id) (serviceBody s) _ _
              (serviceBody_extends s) Hr _ _ _ _ _ Hloop)
    as (j & wa & sta & wb & stb & Hstep & _ & Hafter).
  cbv beta iota in Hstep. apply handleService_rpc_inv in Hstep as [_ Hstep].
  destruct (Hstep opt Hopt Hname Hmethod Hurl) as [Hsub Hmark].
  split.
  - rewrite format_split. apply StrFacts.contains_app_r.
    by apply (extends_contains id _ _ _ Hafter).
  - by apply Hafter.
Qed.

(** C1 (amended).  For a service that is translated and every method of
    it carrying the routing option [(google.api.http)] whose ordered map
    gives a verb key and a non-empty path (the last key that is not
    [body], and its literal): the block of the service contains the
    annotation with [Method:] the verb in upper case and quoted, [Path:]
    the path quoted, a [Body:] line if and only if the last [body] key of
    the map has a non-empty string, and the HTTP-annotation import is
    marked as required. *)
Theorem handleService_http_annotation (s : proto.Service.t proto.Visitee)
    (r : proto.RPC.t proto.Visitee) (opt : proto.Option.t) (verb : proto.NamedLiteral.t)
    (st st' : state) :
  handleService s st = (Ok tt, st') ->
  proto.pRPC r ∈ proto.Service.Elements s ->
  proto.pOption opt ∈ proto.RPC.Elements r ->
  proto.Option.Name opt = "(google.api.http)" ->
  lastVerb (proto.OrderedMap (proto.Option.Constant opt)) = Some verb ->
  proto.NamedLiteral.Name verb <> "" ->
  proto.Source (proto.NamedLiteral.Literal verb) <> "" ->
  exists block bodyLine,
    translatedDeclarations (bld st') = translatedDeclarations (bld st) ++ [block] /\
    Str.contains
      (go:"\t// +gunk http.Match{\n" +:+
       go:"\t//     Method: " +:+
         strconv_Quote (strings_ToUpper (proto.NamedLiteral.Name verb)) +:+ go:",\n" +:+
       go:"\t//     Path: " +:+
         strconv_Quote (proto.Source (proto.NamedLiteral.Literal verb)) +:+ go:",\n" +:+
       bodyLine +:+
       go:"\t// }\n") block /\
    match lastBody (proto.OrderedMap (proto.Option.Constant opt)) with
    | Some body =>
        if String.eqb (proto.Source (proto.NamedLiteral.Literal body)) "" then bodyLine = ""
        else bodyLine =
             go:"\t//     Body: " +:+
             strconv_Quote (proto.Source (proto.NamedLiteral.Literal body)) +:+ go:",\n"
    | None => bodyLine = ""
    end /\
    importsUsed (bld st') !! "github.com/gunk/opt/http" = Some true.
Proof.
  intros Hrun Hr Hopt Hname Hverb Hk Hurl.
  apply handleService_inv in Hrun as (block & Hdecls & Hblock).
  specialize (Hblock r opt Hr Hopt Hname). rewrite Hverb in Hblock.
  destruct (Hblock Hk Hurl) as [Hsub Hmark].
  exists block. eexists. split; [exact Hdecls|]. split; [exact Hsub|]. split; [|exact Hmark].
  unfold sourceOf. destruct (lastBody _) as [body|]; [|reflexivity].
  simpl. by destruct (String.eqb _ "").
Qed.

End Services.

Section ServiceSamples.

#[local] Existing Instances Ref.refRuntime Ref.refSnaker.

(** The map [{ get: "/a" post: "/b" body: "*" }]: [post] is the verb. *)
Lemma last_verb_key_wins_witness :
  exists body,
    handleService_httpKeys
      (Sample.http [("get", Ref.str "/a"); ("post", Ref.str "/b"); ("body", Ref.str "*")])
      Ref.state0 = (Ok ("post", "/b", body), Ref.state0) /\
    ("post" <> "" -> "/b" <> "" ->
     exists w' c' st',
       handleService_http
         (Sample.http [("get", Ref.str "/a"); ("post", Ref.str "/b"); ("body", Ref.str "*")])
         "" None Ref.state0 = (Ok (w', c'), st') /\
       Str.contains (httpMatch "post" "/b" body) w' /\
       stderr st' = stderr Ref.state0).
Proof.
  apply (last_verb_key_wins
           (Sample.http [("get", Ref.str "/a"); ("post", Ref.str "/b"); ("body", Ref.str "*")])
           [("get", Ref.str "/a")] [("body", Ref.str "*")] "post" (Ref.str "/b")).
  - reflexivity.
  - discriminate.
  - repeat constructor.
  - reflexivity.
Defined.

(** C5 as stated fails where a key other than [body] holds a literal
    that is not a string: in the map
    [{ additional_bindings { post: "/v2/echo" } get: "/v1/echo" }] the
    last of the two keys other than [body] is [get], with a path, and
    the loop ends at [additional_bindings] with an error: no key is used
    as the verb, and the service is not translated. *)
Lemma verb_key_after_nested_map :
  filter (fun l => proto.NamedLiteral.Name l <> "body") Sample.boundTwice = Sample.boundTwice /\
  lastVerb Sample.boundTwice = Some ("get", Ref.str "/v1/echo") /\
  handleService_httpKeys (Sample.http Sample.boundTwice) Ref.state0 =
    (Fail (Error (go:":3:1: option for \'additional_bindings\' should be a string (url)")),
     Ref.state0) /\
  handleService Sample.boundTwiceService Ref.state0 =
    (Fail (Error (go:":3:1: option for \'additional_bindings\' should be a string (url)")),
     Ref.state0).
Proof. repeat split; reflexivity. Qed.

(** The service [Util] with the map [{ get: "/v1/echo" body: "*" }]. *)
Lemma handleService_http_annotation_witness :
  handleService Sample.echoService Ref.state0 =
    (Ok tt, snd (handleService Sample.echoService Ref.state0)) /\
  exists block bodyLine,
    translatedDeclarations (bld (snd (handleService Sample.echoService Ref.state0))) =
      translatedDeclarations (bld Ref.state0) ++ [block] /\
    Str.contains
      (go:"\t// +gunk http.Match{\n" +:+
       go:"\t//     Method: " +:+ strconv_Quote (strings_ToUpper "get") +:+ go:",\n" +:+
       go:"\t//     Path: " +:+ strconv_Quote "/v1/echo" +:+ go:",\n" +:+
       bodyLine +:+
       go:"\t// }\n") block /\
    match lastBody [("get", Ref.str "/v1/echo"); ("body", Ref.str "*")] with
    | Some body =>
        if String.eqb (proto.Source (proto.NamedLiteral.Literal body)) "" then bodyLine = ""
        else bodyLine =
             go:"\t//     Body: " +:+
             strconv_Quote (proto.Source (proto.NamedLiteral.Literal body)) +:+ go:",\n"
    | None => bodyLine = ""
    end /\
    importsUsed (bld (snd (handleService Sample.echoService Ref.state0)))
      !! "github.com/gunk/opt/http" = Some true.
Proof.
  split; [reflexivity|].
  apply (handleService_http_annotation Sample.echoService
           (Sample.echo [Sample.http [("get", Ref.str "/v1/echo"); ("body", Ref.str "*")]])
           (Sample.http [("get", Ref.str "/v1/echo"); ("body", Ref.str "*")])
           ("get", Ref.str "/v1/echo")).
  - reflexivity.
  - apply list_elem_of_here.
  - apply list_elem_of_here.
  - reflexivity.
  - reflexivity.
  - discriminate.
  - discriminate.
Defined.

(** C1 as stated fails where a later [body] key is empty: the map
    [{ get: "/v1/echo" body: "*" body: "" }] has a non-empty [body] key, a
    verb and a path, and the block written has no [Body:] line. *)
Lemma body_key_without_body_line :
  (exists l, l ∈ Sample.echoBodyTwice /\ proto.NamedLiteral.Name l = "body" /\
             proto.Source (proto.NamedLiteral.Literal l) <> "") /\
  lastVerb Sample.echoBodyTwice = Some ("get", Ref.str "/v1/echo") /\
  handleService Sample.echoBodyTwiceService Ref.state0 =
    (Ok tt,
     {| bld := {| filename := ""; 
                  translatedDeclarations :=
                    [go:"type Util interface {\n\t// +gunk http.Match{\n\t//     Method: \'GET\',\n\t//     Path: \'/v1/echo\',\n\t// }\n\tEcho(Message) \n}"];
                  pkg := None; pkgOpts := []; imports := [];
                  importsUsed := {[ "github.com/gunk/opt/http" := true ]} |};
        stderr := [] |}) /\
  ~ Str.contains "Body:"
      (go:"type Util interface {\n\t// +gunk http.Match{\n\t//     Method: \'GET\',\n\t//     Path: \'/v1/echo\',\n\t// }\n\tEcho(Message) \n}").
Proof.
  split; [|split; [|split]].
  - exists ("body", Ref.str "*"). split; [|split; [reflexivity|discriminate]].
    apply list_elem_of_further, list_elem_of_here.
  - reflexivity.
  - reflexivity.
  - intros H. apply StrFacts.contains_containsb in H. discriminate H.
Qed.

End ServiceSamples.

(** ** Translators and the state around them *)

Section Frames.

Context {rt : GoRuntime} {snk : Snaker}.

Lemma framed_ret {A} (a : A) : framed (ret a).
Proof. intros st. simpl. by rewrite app_nil_r. Qed.

Lemma framed_fail {A} (e : error) : framed (@fail A e).
Proof. intros st. simpl. by rewrite app_nil_r. Qed.

Lemma framed_bind {A B} (m : M A) (k : A -> M B) :
  framed m -> (forall a, framed (k a)) -> framed (bind m k).
Proof.
  intros Hm Hk st. unfold bind.
  destruct (Hm st) as (Hr & Hf & Hd).
  destruct (Hm (fresh (filename (bld st)))) as (_ & Hf0 & _).
  destruct (m st) as [[a|e] st1], (m (fresh (filename (bld st)))) as [[a0|e0] st0];
    simpl in *; try discriminate.
  - injection Hr as <-.
    destruct (Hk a st1) as (Hr1 & Hf1 & Hd1), (Hk a st0) as (Hr0 & Hf0' & Hd0).
    rewrite Hf in Hr1, Hd1. rewrite Hf0 in Hr0, Hd0.
    split; [congruence|]. split; [congruence|].
    rewrite Hd1, Hd0, Hd. by rewrite <- app_assoc.
  - by injection Hr as <-.
Qed.

Lemma framed_rangeFrom {A B} (body : B -> nat -> A -> M B) (l : list A) :
  (forall acc i x, framed (body acc i x)) ->
  forall i acc, framed (rangeFrom i l body acc).
Proof.
  intros Hbody. induction l as [|x l IH]; intros i acc; simpl.
  - apply framed_ret.
  - apply framed_bind; [apply Hbody | intros a; apply IH].
Qed.

Lemma framed_onError {A} (m : M A) (h : string -> M A) :
  framed m -> (forall e, framed (h e)) -> framed (onError m h).
Proof.
  intros Hm Hh st. unfold onError.
  destruct (Hm st) as (Hr & Hf & Hd).
  destruct (Hm (fresh (filename (bld st)))) as (_ & Hf0 & _).
  destruct (m st) as [[a|[e|]] st1], (m (fresh (filename (bld st)))) as [[a0|[e0|]] st0];
    simpl in *; try discriminate; try done.
  injection Hr as <-.
  destruct (Hh e st1) as (Hr1 & Hf1 & Hd1), (Hh e st0) as (Hr0 & Hf0' & Hd0).
  rewrite Hf in Hr1, Hd1. rewrite Hf0 in Hr0, Hd0.
  split; [congruence|]. split; [congruence|].
  rewrite Hd1, Hd0, Hd. by rewrite <- app_assoc.
Qed.

Lemma framed_ignoreError {A} (m : M A) : framed m -> framed (ignoreError m).
Proof.
  intros Hm st. unfold ignoreError.
  destruct (Hm st) as (Hr & Hf & Hd).
  destruct (m st) as [[a|[e|]] st1], (m (fresh (filename (bld st)))) as [[a0|[e0|]] st0];
    simpl in *; try discriminate; done.
Qed.

Lemma framed_formatError (pos : scanner.Position) (s : string) (args : list operand) :
  framed (formatError pos s args).
Proof. intros st. rewrite !formatError_run. simpl. by rewrite app_nil_r. Qed.

Lemma framed_eprintln (line : string) : framed (eprintln line).
Proof. intros st. simpl. by rewrite app_nil_r. Qed.

Lemma framed_warnAt (pos : scanner.Position) (s : string) (args : list operand) :
  framed (warnAt pos s args).
Proof.
  apply framed_bind; [apply framed_formatError | intros; apply framed_eprintln].
Qed.

Lemma framed_failAt {A} (pos : scanner.Position) (s : string) (args : list operand) :
  framed (@failAt _ A pos s args).
Proof.
  apply framed_bind; [apply framed_formatError | intros; apply framed_fail].
Qed.

Lemma framed_appendDeclaration (s : string) : framed (appendDeclaration s).
Proof. intros st. by simpl. Qed.

Lemma framed_markImport (path : string) : framed (markImport path).
Proof. intros st. simpl. by rewrite app_nil_r. Qed.

Lemma framed_setPkg (p : proto.Package.t) : framed (setPkg p).
Proof. intros st. simpl. by rewrite app_nil_r. Qed.

Lemma framed_appendImport (i : proto.Import_.t) : framed (appendImport i).
Proof. intros st. simpl. by rewrite app_nil_r. Qed.

Lemma framed_appendPkgOpt (o : proto.Option.t) : framed (appendPkgOpt o).
Proof. intros st. simpl. by rewrite app_nil_r. Qed.

End Frames.

(** One step of a proof that a translator is framed, by its syntax. *)
Ltac framed_step :=
  lazymatch goal with
  | |- framed (ret _) => apply framed_ret
  | |- framed (fail _) => apply framed_fail
  | |- framed (failAt _ _ _) => apply framed_failAt
  | |- framed (warnAt _ _ _) => apply framed_warnAt
  | |- framed (appendDeclaration _) => apply framed_appendDeclaration
  | |- framed (markImport _) => apply framed_markImport
  | |- framed (setPkg _) => apply framed_setPkg
  | |- framed (appendImport _) => apply framed_appendImport
  | |- framed (appendPkgOpt _) => apply framed_appendPkgOpt
  | |- framed (bind _ _) => apply framed_bind; [|intros ?]
  | |- framed (onError _ _) => apply framed_onError; [|intros ?]
  | |- framed (ignoreError _) => apply framed_ignoreError
  | |- framed (rangeFrom _ _ _ _) => apply framed_rangeFrom; intros ? ? ?
  | |- framed (range _ _ _) => unfold range
  | |- framed (switch _ _ _) => unfold switch, existsb
  | |- framed (match ?x with _ => _ end) => destruct x
  | |- framed ((match ?x with _ => _ end) _) => destruct x
  | |- framed ((match ?x with _ => _ end) _ _) => destruct x
  | |- framed _ => progress cbv beta zeta
  end.

Section FramedTranslators.

Context {rt : GoRuntime} {snk : Snaker}.

Lemma framed_handleMessageField (w : string) (field : proto.Visitee) :
  framed (handleMessageField w field).
Proof. unfold handleMessageField. repeat framed_step. Qed.

Lemma framed_handleEnum (e : proto.Enum.t proto.Visitee) : framed (handleEnum e).
Proof. unfold handleEnum, handleEnum_outputIota. repeat framed_step. Qed.

Lemma framed_handleMessage (m : proto.Message.t proto.Visitee) : framed (handleMessage m).
Proof.
  unfold handleMessage.
  repeat first [apply framed_handleMessageField | apply framed_handleEnum | framed_step].
Qed.

Lemma framed_handleService (s : proto.Service.t proto.Visitee) : framed (handleService s).
Proof.
  unfold handleService, handleService_rpc, handleService_http, handleService_httpKeys.
  repeat framed_step.
Qed.

Lemma framed_handleProtoType (typ : proto.Visitee) : framed (handleProtoType typ).
Proof.
  unfold handleProtoType.
  destruct typ;
    first [apply framed_handleMessage | apply framed_handleEnum | apply framed_handleService
          | repeat framed_step].
Qed.

End FramedTranslators.

(** ** State relations kept by the translators *)

Section Preserves.

Context (P : state -> state -> Prop) `{!PreOrder P}.

Lemma preserves_ret {A} (a : A) : preserves P (ret a).
Proof. intros st. reflexivity. Qed.

Lemma preserves_fail {A} (e : error) : preserves P (@fail A e).
Proof. intros st. reflexivity. Qed.

Lemma preserves_getBuilder : preserves P getBuilder.
Proof. intros st. reflexivity. Qed.

Lemma preserves_bind {A B} (m : M A) (k : A -> M B) :
  preserves P m -> (forall a, preserves P (k a)) -> preserves P (bind m k).
Proof.
  intros Hm Hk st. unfold bind. specialize (Hm st).
  destruct (m st) as [[a|e] st1]; simpl in *; [|done].
  etrans; [exact Hm | apply Hk].
Qed.

Lemma preserves_rangeFrom {A B} (body : B -> nat -> A -> M B) (l : list A) :
  (forall acc i x, preserves P (body acc i x)) ->
  forall i acc, preserves P (rangeFrom i l body acc).
Proof.
  intros Hbody. induction l as [|x l IH]; intros i acc; simpl.
  - apply preserves_ret.
  - apply preserves_bind; [apply Hbody | intros a; apply IH].
Qed.

Lemma preserves_onError {A} (m : M A) (h : string -> M A) :
  preserves P m -> (forall e, preserves P (h e)) -> preserves P (onError m h).
Proof.
  intros Hm Hh st. unfold onError. specialize (Hm st).
  destruct (m st) as [[a|[e|]] st1]; simpl in *; try done.
  etrans; [exact Hm | apply Hh].
Qed.

Lemma preserves_ignoreError {A} (m : M A) : preserves P m -> preserves P (ignoreError m).
Proof.
  intros Hm st. unfold ignoreError. specialize (Hm st).
  by destruct (m st) as [[a|[e|]] st1].
Qed.

End Preserves.

#[local] Instance sameBuilder_preorder : PreOrder sameBuilder.
Proof. split; [done|]. intros x y z. unfold sameBuilder. congruence. Qed.

#[local] Instance sameDeclarations_preorder : PreOrder sameDeclarations.
Proof. split; [done|]. intros x y z. unfold sameDeclarations. congruence. Qed.

#[local] Instance stderrGrows_preorder : PreOrder stderrGrows.
Proof.
  split.
  - intros x. exists []. by rewrite app_nil_r.
  - intros x y z [m1 H1] [m2 H2]. exists (m1 ++ m2). by rewrite H2, H1, app_assoc.
Qed.

(** One step of a proof that a translator keeps a relation: by its
    syntax, down to the assignments, which [tac] is to solve. *)
Ltac preserves_step tac :=
  lazymatch goal with
  | |- preserves _ (ret _) => apply preserves_ret; tc_solve
  | |- preserves _ (fail _) => apply preserves_fail; tc_solve
  | |- preserves _ getBuilder => apply preserves_getBuilder; tc_solve
  | |- preserves _ (bind _ _) => apply preserves_bind; try tc_solve; [|intros ?]
  | |- preserves _ (onError _ _) => apply preserves_onError; try tc_solve; [|intros ?]
  | |- preserves _ (ignoreError _) => apply preserves_ignoreError; try tc_solve
  | |- preserves _ (rangeFrom _ _ _ _) => apply preserves_rangeFrom; try tc_solve; intros ? ? ?
  | |- preserves _ (range _ _ _) => unfold range
  | |- preserves _ (switch _ _ _) => unfold switch, existsb
  | |- preserves _ (setBuilder _) => intros ?; tac
  | |- preserves _ (eprintln _) => intros ?; tac
  | |- preserves _ (appendDeclaration _) => intros ?; tac
  | |- preserves _ (markImport _) => intros ?; tac
  | |- preserves _ (setPkg _) => intros ?; tac
  | |- preserves _ (appendImport _) => intros ?; tac
  | |- preserves _ (appendPkgOpt _) => intros ?; tac
  | |- preserves _ (match ?x with _ => _ end) => destruct x
  | |- preserves _ ((match ?x with _ => _ end) _) => destruct x
  | |- preserves _ ((match ?x with _ => _ end) _ _) => destruct x
  | |- preserves _ _ => progress cbv beta zeta
  end.

Ltac stderr_tac := first [by eexists | exists []; simpl; by rewrite app_nil_r].

Ltac unfold_translators :=
  unfold handleProtoType, handleMessage, handleService, handleService_rpc, handleService_http,
    handleService_httpKeys, handleEnum, handleEnum_outputIota, handleMessageField,
    handlePackage, handlePackage_option, warnAt, failAt, formatError.

Section Order.

Context {rt : GoRuntime} {snk : Snaker}.

Lemma stderrGrows_handleProtoType (typ : proto.Visitee) :
  preserves stderrGrows (handleProtoType typ).
Proof.
  destruct typ; unfold_translators; repeat preserves_step stderr_tac.
Qed.

Lemma stderrGrows_handlePackage : preserves stderrGrows handlePackage.
Proof.
  unfold_translators; repeat preserves_step stderr_tac.
Qed.

Lemma sameDeclarations_handlePackage : preserves sameDeclarations handlePackage.
Proof. unfold_translators; repeat preserves_step ltac:(done). Qed.

(** [handleEnum] appends one block when it returns without error and
    none when it returns an error. *)
Lemma handleEnum_blocks (e : proto.Enum.t proto.Visitee) (st : state) :
  exists block,
    translatedDeclarations (bld (snd (handleEnum e st))) =
    translatedDeclarations (bld st) ++
    match fst (handleEnum e st) with Ok _ => [block] | Fail _ => [] end.
Proof.
  destruct (handleEnum e st) as [r st'] eqn:Hrun. simpl.
  unfold handleEnum in Hrun. cbv zeta in Hrun. unfold bind at 1 in Hrun.
  assert (H1 : preserves sameBuilder (handleEnum_outputIota e))
    by (unfold_translators; repeat preserves_step ltac:(done)).
  specialize (H1 st). unfold sameBuilder in H1.
  destruct (handleEnum_outputIota e st) as [[o|err] st1]; simpl in H1.
  2:{ injection Hrun as <- <-. exists "". by rewrite H1, app_nil_r. }
  unfold bind at 1 in Hrun. unfold range in Hrun.
  match type of Hrun with context [rangeFrom 0 ?l ?body ?acc st1] =>
    assert (H2 : preserves sameBuilder (rangeFrom 0 l body acc))
      by (unfold_translators; repeat preserves_step ltac:(done));
    specialize (H2 st1); unfold sameBuilder in H2;
    destruct (rangeFrom 0 l body acc st1) as [[w|err] st2]; simpl in H2
  end.
  2:{ injection Hrun as <- <-. exists "". by rewrite H2, H1, app_nil_r. }
  injection Hrun as <- <-. eexists. simpl. by rewrite H2, H1.
Qed.

(** A step of the loop over the elements of a message that returns
    without error: the text grows by the line of a field or of a comment,
    and the declarations grow by the block of a nested enum. *)
Lemma messageBody_inv (m : proto.Message.t proto.Visitee) (w : string) (i : nat)
    (e : proto.Visitee) (st : state) (w' : string) (st' : state) :
  messageBody m w i e st = (Ok w', st') ->
  filename (bld st') = filename (bld st) /\
  translatedDeclarations (bld st') =
    translatedDeclarations (bld st) ++ hoisted (filename (bld st)) e /\
  stderrGrows st st' /\
  match e with
  | proto.pNormalField f =>
      w' = w +:+ fieldLine (proto.NormalField.Comment f) (proto.NormalField.Name f)
                   (if proto.NormalField.Repeated f
                    then "[]" +:+ goType (proto.NormalField.Type_ f)
                    else goType (proto.NormalField.Type_ f))
                   (proto.NormalField.Sequence f) /\
      st' = warned "field" (proto.NormalField.Options f) st
  | proto.pMapField f =>
      w' = w +:+ fieldLine (proto.MapField.Comment f) (proto.MapField.Name f)
                   ("map[" +:+ goType (proto.MapField.KeyType f) +:+ "]" +:+
                    goType (proto.MapField.Type_ f))
                   (proto.MapField.Sequence f) /\
      st' = warned "field" (proto.MapField.Options f) st
  | proto.pComment c => w' = w +:+ commentText 1 (Some c)
  | _ => w' = w
  end.
Proof.
  destruct e; cbv beta iota; try (rewrite failAt_run; discriminate).
  - (* nested enum *)
    unfold bind, ignoreError. intros Hrun.
    pose proof (framed_handleEnum e st) as (_ & Hf & Hd).
    pose proof (stderrGrows_handleProtoType (proto.pEnum e) st) as Hs.
    change (handleProtoType (proto.pEnum e)) with (handleEnum e) in Hs.
    destruct (handleEnum e st) as [[[]|[err|]] st1]; simpl in *; try discriminate;
      unfold ret in Hrun; injection Hrun as <- <-; done.
  - (* option *)
    unfold bind. rewrite warnAt_run. unfold ret. intros [= <- <-]. simpl.
    rewrite app_nil_r. repeat split; by eexists.
  - (* plain field *)
    unfold onError. rewrite handleMessageField_normal. intros [= <- <-]. simpl.
    rewrite app_nil_r. repeat split; by eexists.
  - (* map field *)
    unfold onError. rewrite handleMessageField_map. intros [= <- <-]. simpl.
    rewrite app_nil_r. repeat split; by eexists.
  - (* comment *)
    unfold ret. intros [= <- <-]. simpl. rewrite app_nil_r, format_split. simpl.
    rewrite StrFacts.app_nil_r. split; [done|]. split; [done|]. split; [reflexivity|done].
Qed.

Lemma messageLoop_blocks (m : proto.Message.t proto.Visitee) (l : list proto.Visitee) :
  forall (i : nat) (w : string) (st : state) (w' : string) (st' : state),
  rangeFrom i l (messageBody m) w st = (Ok w', st') ->
  filename (bld st') = filename (bld st) /\
  translatedDeclarations (bld st') =
    translatedDeclarations (bld st) ++ concat (map (hoisted (filename (bld st))) l).
Proof.
  induction l as [|e l IH]; intros i w st w' st' Hrun; simpl in Hrun.
  - injection Hrun as <- <-. simpl. by rewrite app_nil_r.
  - apply bind_inv_Ok in Hrun as (w1 & st1 & Hstep & Hrest).
    apply (messageBody_inv m w i e st w1 st1) in Hstep as (Hf & Hd & _).
    apply IH in Hrest as (Hf' & Hd'). rewrite Hf in Hf', Hd'.
    split; [done|]. simpl. by rewrite Hd', Hd, app_assoc.
Qed.

(** A message that is translated adds the blocks of its nested enums, in
    the order of its elements, and then its own block. *)
Lemma handleMessage_blocks (m : proto.Message.t proto.Visitee) (st st' : state) :
  handleMessage m st = (Ok tt, st') ->
  exists block,
    translatedDeclarations (bld st') =
    translatedDeclarations (bld st) ++
    concat (map (hoisted (filename (bld st))) (proto.Message.Elements m)) ++ [block].
Proof.
  unfold handleMessage. cbv zeta. intros Hrun.
  apply bind_inv_Ok in Hrun as (w1 & st1 & Hloop & Hend).
  apply messageLoop_blocks in Hloop as (_ & Hd).
  unfold appendDeclaration, bind, getBuilder, setBuilder in Hend. injection Hend as <-.
  eexists. simpl. by rewrite Hd, app_assoc.
Qed.

Lemma documentLoop_blocks (d : list proto.Visitee) :
  forall (i : nat) (st st' : state),
  rangeFrom i d documentBody tt st = (Ok tt, st') ->
  filename (bld st') = filename (bld st) /\
  translatedDeclarations (bld st') =
    translatedDeclarations (bld st) ++ concat (map (blocksOf (filename (bld st))) d) /\
  Forall (fun e => fst (handleProtoType e (fresh (filename (bld st)))) = Ok tt) d.
Proof.
  induction d as [|e d IH]; intros i st st' Hrun; simpl in Hrun.
  - injection Hrun as <-. simpl. by rewrite app_nil_r.
  - apply bind_inv_Ok in Hrun as ([] & st1 & Hstep & Hrest).
    unfold onError in Hstep.
    pose proof (framed_handleProtoType e st) as (Hr & Hf & Hd).
    destruct (handleProtoType e st) as [[[]|[err|]] st1'] eqn:He; simpl in *;
      try discriminate.
    injection Hstep as ->.
    apply IH in Hrest as (Hf' & Hd' & Hall). rewrite Hf in Hf', Hd', Hall.
    split; [done|]. split; [|by constructor].
    unfold blocksOf at 1. by rewrite Hd', Hd, app_assoc.
Qed.

(** The order of the translated declarations.  In a document that is
    translated they are, for the top-level declarations in the order of
    the document: the block of an enum, the block of a service, and for a
    message the blocks of the enums nested in it, in the order of its
    elements, followed by the block of the message; the other
    declarations add none.  A nested enum adds its block or, when
    [handleEnum] returns an error for it, nothing. *)
Theorem translatedDeclarations_order (fn : string) (d : list proto.Visitee)
    (st : state) (out : string) (st' : state) :
  convertFile fn d st = (Ok out, st') ->
  translatedDeclarations (bld st') = concat (map (blocksOf fn) d) /\
  Forall (fun e =>
    match e with
    | proto.pMessage m =>
        exists block,
          blocksOf fn e = concat (map (hoisted fn) (proto.Message.Elements m)) ++ [block]
    | proto.pEnum _ | proto.pService _ => exists block, blocksOf fn e = [block]
    | _ => blocksOf fn e = []
    end) d /\
  (forall e : proto.Enum.t proto.Visitee,
     blocksOf fn (proto.pEnum e) = [] \/ exists block, blocksOf fn (proto.pEnum e) = [block]).
Proof.
  unfold convertFile. intros Hrun.
  apply bind_inv_Ok in Hrun as ([] & st0 & Hset & Hrun).
  unfold setBuilder in Hset. injection Hset as <-.
  apply bind_inv_Ok in Hrun as ([] & st1 & Hloop & Hrun).
  apply documentLoop_blocks in Hloop as (Hf & Hd & Hall). simpl in Hf, Hd, Hall.
  apply bind_inv_Ok in Hrun as (translatedPkg & st2 & Hpkg & Hrun).
  pose proof (sameDeclarations_handlePackage st1) as Hsame. rewrite Hpkg in Hsame.
  unfold sameDeclarations in Hsame. simpl in Hsame.
  unfold bind, getBuilder, ret in Hrun. injection Hrun as _ <-.
  split; [by rewrite Hsame, Hd|]. split.
  - eapply Forall_impl; [exact Hall|]. intros e He. simpl in He.
    destruct e; try reflexivity.
    + (* message *)
      unfold blocksOf at 1.
      destruct (handleProtoType (proto.pMessage m) (fresh fn)) as [r st3] eqn:Hm.
      simpl in He. subst r. apply handleMessage_blocks in Hm as (block & Hb).
      exists block. exact Hb.
    + (* enum *)
      destruct (handleEnum_blocks e (fresh fn)) as [block Hb].
      change (handleEnum e) with (handleProtoType (proto.pEnum e)) in Hb.
      rewrite He in Hb. exists block. exact Hb.
    + (* service *)
      unfold blocksOf.
      destruct (handleProtoType (proto.pService s) (fresh fn)) as [r st3] eqn:Hs.
      simpl in He. subst r. apply handleService_inv in Hs as (block & Hb & _).
      exists block. exact Hb.
  - intros e. destruct (handleEnum_blocks e (fresh fn)) as [block Hb].
    change (handleEnum e) with (handleProtoType (proto.pEnum e)) in Hb.
    unfold blocksOf. destruct (fst _); [right; by exists block | by left].
Qed.

(** C9 (where the code departs from it).  [handleMessage] drops the
    error that [handleEnum] returns for a nested enum with a comment
    among its elements: the document is translated, and its translated
    declarations are the block of the message alone.  The nested enum is
    not hoisted: it adds no block, before the message or anywhere. *)
Theorem nested_enum_not_hoisted (st : state) :
  exists (m : proto.Message.t proto.Visitee) (out : string) (st' : state),
    proto.pMessage m ∈ Sample.nestedEnumDocument /\
    proto.pEnum Sample.enumWithComment ∈ proto.Message.Elements m /\
    convertFile "util.proto" Sample.nestedEnumDocument st = (Ok out, st') /\
    translatedDeclarations (bld st') = [go:"type M struct {\n}"] /\
    hoisted "util.proto" (proto.pEnum Sample.enumWithComment) = [].
Proof.
  eexists _, _, _.
  split; [apply list_elem_of_further, list_elem_of_here|].
  split; [apply list_elem_of_here|].
  split; [reflexivity|]. split; reflexivity.
Qed.

End Order.

(** ** No nil dereference in the translators of declarations *)

Section NoPanic.

Lemma noPanic_ret {A} (a : A) : noPanic (ret a).
Proof. by intros st. Qed.

Lemma noPanic_fail {A} (msg : string) : noPanic (@fail A (Error msg)).
Proof. by intros st. Qed.

Lemma noPanic_state {A} (m : M A) :
  (forall st, exists a st', m st = (Ok a, st')) -> noPanic m.
Proof. intros H st. destruct (H st) as (a & st' & ->). simpl. congruence. Qed.

Lemma noPanic_bind {A B} (m : M A) (k : A -> M B) :
  noPanic m -> (forall a, noPanic (k a)) -> noPanic (bind m k).
Proof.
  intros Hm Hk st. unfold bind. specialize (Hm st).
  destruct (m st) as [[a|e] st1]; simpl in *; [apply Hk | congruence].
Qed.

Lemma noPanic_rangeFrom {A B} (body : B -> nat -> A -> M B) (l : list A) :
  (forall acc i x, noPanic (body acc i x)) ->
  forall i acc, noPanic (rangeFrom i l body acc).
Proof.
  intros Hbody. induction l as [|x l IH]; intros i acc; simpl.
  - apply noPanic_ret.
  - apply noPanic_bind; [apply Hbody | intros a; apply IH].
Qed.

Lemma noPanic_onError {A} (m : M A) (h : string -> M A) :
  noPanic m -> (forall e, noPanic (h e)) -> noPanic (onError m h).
Proof.
  intros Hm Hh st. unfold onError. specialize (Hm st).
  destruct (m st) as [[a|[e|]] st1]; simpl in *; try done; try congruence.
Qed.

Lemma noPanic_ignoreError {A} (m : M A) : noPanic m -> noPanic (ignoreError m).
Proof.
  intros Hm st. unfold ignoreError. specialize (Hm st).
  by destruct (m st) as [[a|[e|]] st1].
Qed.

End NoPanic.

Ltac noPanic_step :=
  lazymatch goal with
  | |- noPanic (ret _) => apply noPanic_ret
  | |- noPanic (fail (Error _)) => apply noPanic_fail
  | |- noPanic getBuilder => apply noPanic_state; intros ?; by eexists _, _
  | |- noPanic (setBuilder _) => apply noPanic_state; intros ?; by eexists _, _
  | |- noPanic (eprintln _) => apply noPanic_state; intros ?; by eexists _, _
  | |- noPanic (bind _ _) => apply noPanic_bind; [|intros ?]
  | |- noPanic (onError _ _) => apply noPanic_onError; [|intros ?]
  | |- noPanic (ignoreError _) => apply noPanic_ignoreError
  | |- noPanic (rangeFrom _ _ _ _) => apply noPanic_rangeFrom; intros ? ? ?
  | |- noPanic (range _ _ _) => unfold range
  | |- noPanic (switch _ _ _) => unfold switch, existsb
  | |- noPanic (match ?x with _ => _ end) => destruct x
  | |- noPanic ((match ?x with _ => _ end) _) => destruct x
  | |- noPanic ((match ?x with _ => _ end) _ _) => destruct x
  | |- noPanic _ => progress cbv beta zeta
  end.

#[local] Instance samePkgOpts_preorder : PreOrder samePkgOpts.
Proof. split; [done|]. intros x y z. unfold samePkgOpts. congruence. Qed.

Section FileOptionErrors.

Context {rt : GoRuntime} {snk : Snaker}.

Lemma noPanic_handleProtoType (typ : proto.Visitee) : noPanic (handleProtoType typ).
Proof.
  destruct typ; unfold_translators;
    unfold appendDeclaration, markImport, setPkg, appendImport, appendPkgOpt;
    repeat noPanic_step.
Qed.

Lemma samePkgOpts_declaration (typ : proto.Visitee) :
  (forall o, typ <> proto.pOption o) -> preserves samePkgOpts (handleProtoType typ).
Proof.
  intros Hopt.
  destruct typ; try (by destruct (Hopt o)); unfold_translators;
    repeat preserves_step ltac:(done).
Qed.

(** The loop over the document returns an error or has collected the
    file options of the document, in its order. *)
Lemma documentLoop_options (d : list proto.Visitee) :
  forall (i : nat) (st : state),
  match rangeFrom i d documentBody tt st with
  | (Ok _, st') => pkgOpts (bld st') = pkgOpts (bld st) ++ fileOptions d
  | (Fail (Error _), _) => True
  | (Fail NilDeref, _) => False
  end.
Proof.
  induction d as [|e d IH]; intros i st; cbn [rangeFrom].
  - simpl. by rewrite app_nil_r.
  - unfold bind at 1, onError at 1.
    pose proof (noPanic_handleProtoType e st) as Hnp.
    assert (He : pkgOpts (bld (snd (handleProtoType e st))) =
                 pkgOpts (bld st) ++ fileOptions [e]).
    { destruct e; try (simpl; by rewrite ?app_nil_r);
        match goal with |- context [handleProtoType ?t st] =>
          rewrite (samePkgOpts_declaration t ltac:(intros ? ?; discriminate) st)
        end; simpl; by rewrite app_nil_r. }
    destruct (handleProtoType e st) as [[[]|[err|]] st1]; cbn [fst snd] in *; try done.
    specialize (IH (S i) st1).
    destruct (rangeFrom (S i) d documentBody tt st1) as [[[]|[err|]] st2];
      cbv beta iota in *; try done.
    rewrite IH, He, <- app_assoc. f_equal. by destruct e.
Qed.

(** Where every declaration is translated on its own, the loop over the
    document returns without error. *)
Lemma documentLoop_ok (d : list proto.Visitee) :
  forall (i : nat) (st : state),
  Forall (fun e => fst (handleProtoType e (fresh (filename (bld st)))) = Ok tt) d ->
  exists st', rangeFrom i d documentBody tt st = (Ok tt, st').
Proof.
  induction d as [|e d IH]; intros i st Hall; cbn [rangeFrom]; [by eexists|].
  apply Forall_cons in Hall as [He Hall].
  unfold bind at 1, onError at 1.
  pose proof (framed_handleProtoType e st) as (Hr & Hf & _). rewrite He in Hr.
  destruct (handleProtoType e st) as [r st1]; cbn [fst snd] in *. subst r.
  apply IH. by rewrite Hf.
Qed.

(** A recognized option lets the loop go on; one that is not recognized
    ends it with the error that gives its position and its name. *)
Lemma handlePackage_option_run (opt : option proto.Option.t) (anns : list string)
    (o : proto.Option.t) (st : state) :
  if recognized o
  then exists acc' st', handlePackage_option opt anns o st = (Ok acc', st') /\
                        filename (bld st') = filename (bld st)
  else handlePackage_option opt anns o st =
       (Fail (Error (unhandledFileOption (filename (bld st)) o)), st).
Proof.
  unfold handlePackage_option. cbv beta iota zeta.
  unfold recognized, fileOptionNames, switch, existsb.
  repeat (destruct (String.eqb (proto.Option.Name o) _);
          [cbn [orb]; cbv iota;
           first [by eexists _, _
                 | unfold bind, markImport, getBuilder, setBuilder, ret; by eexists _, _] |]).
  cbn [orb]. cbv iota. rewrite failAt_run. unfold unhandledFileOption.
  do 3 f_equal.
Qed.

Lemma packageLoop_unrecognized (opts : list proto.Option.t) (o : proto.Option.t) :
  firstUnrecognized opts = Some o ->
  forall (i : nat) (acc : option proto.Option.t * list string) (st : state),
  exists st',
    rangeFrom i opts (fun '(opt, gunkAnnotations) _ o =>
      handlePackage_option opt gunkAnnotations o) acc st =
    (Fail (Error (unhandledFileOption (filename (bld st)) o)), st').
Proof.
  unfold firstUnrecognized.
  induction opts as [|o1 opts IH]; intros Hfirst i [opt anns] st; [discriminate|].
  rewrite filter_cons in Hfirst.
  pose proof (handlePackage_option_run opt anns o1 st) as Hstep.
  cbn [rangeFrom]. unfold bind at 1.
  destruct (recognized o1).
  - destruct Hstep as (acc' & st1 & Hstep & Hf).
    rewrite decide_False in Hfirst by done.
    rewrite Hstep. rewrite <- Hf. destruct acc'. by apply IH.
  - rewrite decide_True in Hfirst by done. injection Hfirst as ->.
    rewrite Hstep. by eexists.
Qed.

(** [handlePackage] returns the error for the first file option that is
    not recognized. *)
Lemma handlePackage_unrecognized (st : state) (o : proto.Option.t) :
  firstUnrecognized (pkgOpts (bld st)) = Some o ->
  exists st',
    handlePackage st = (Fail (Error (unhandledFileOption (filename (bld st)) o)), st').
Proof.
  intros Hfirst. unfold handlePackage. cbv zeta. unfold bind at 1, getBuilder at 1.
  unfold range.
  destruct (packageLoop_unrecognized _ _ Hfirst 0 (None, []) st) as [st' Hloop].
  exists st'. unfold bind at 1. by rewrite Hloop.
Qed.

Lemma firstUnrecognized_exists (opts : list proto.Option.t) (o : proto.Option.t) :
  o ∈ opts -> recognized o = false -> exists o', firstUnrecognized opts = Some o'.
Proof.
  intros Hin Hrec. unfold firstUnrecognized.
  destruct (filter _ opts) as [|o' l] eqn:Hf; [|by exists o'].
  exfalso. exact (filter_nil_not_elem_of (fun o => recognized o = false) opts o Hf Hrec Hin).
Qed.

Lemma fileOptions_elem_of (d : list proto.Visitee) (o : proto.Option.t) :
  proto.pOption o ∈ d -> o ∈ fileOptions d.
Proof.
  intros Hin. unfold fileOptions. apply list_elem_of_omap. by exists (proto.pOption o).
Qed.

(** A document with a file option that is not recognized is not
    translated: [convertFile] returns an error, and it is the error of
    [handlePackage] for the first such option wherever the declarations of
    the document are translated without error. *)
Lemma convertFile_unrecognized (fn : string) (d : list proto.Visitee) (st : state)
    (o : proto.Option.t) :
  firstUnrecognized (fileOptions d) = Some o ->
  exists msg st',
    convertFile fn d st = (Fail (Error msg), st') /\
    (Forall (fun e => fst (handleProtoType e (fresh fn)) = Ok tt) d ->
     msg = unhandledFileOption fn o).
Proof.
  intros Hfirst. unfold convertFile. unfold bind at 1, setBuilder at 1.
  set (st0 := {| bld := newBuilder fn; stderr := stderr st |}).
  pose proof (documentLoop_options d 0 st0) as Hopts.
  pose proof (documentLoop_ok d 0 st0) as Hok.
  pose proof (documentLoop_blocks d 0 st0) as Hloop.
  unfold bind at 1. unfold range.
  destruct (rangeFrom 0 d documentBody tt st0) as [[[]|[err|]] st1]; [| |done].
  - destruct (Hloop st1 eq_refl) as (Hf & _). simpl in Hopts, Hf.
    rewrite <- Hopts in Hfirst.
    destruct (handlePackage_unrecognized st1 o Hfirst) as [st2 Hpkg].
    unfold bind at 1. rewrite Hpkg, Hf. by eexists _, _.
  - eexists _, _. split; [reflexivity|]. intros Hall.
    destruct (Hok Hall) as [st' Hst']. discriminate.
Qed.

End FileOptionErrors.

(** ** Elements of an invalid kind at the top level *)

Section Positioned.

Context {rt : GoRuntime} {snk : Snaker}.

Lemma positioned_ret {A} (a : A) : positioned (ret a).
Proof. by intros st. Qed.

Lemma positioned_state {A} (m : M A) :
  (forall st, exists a st', m st = (Ok a, st') /\ filename (bld st') = filename (bld st)) ->
  positioned m.
Proof. intros H st. by destruct (H st) as (a & st' & -> & Hf). Qed.

Lemma positioned_failAt {A} (pos : scanner.Position) (s : string) (args : list operand) :
  positioned (@failAt _ A pos s args).
Proof. intros st. rewrite failAt_run. split; [done|]. by eexists _, _. Qed.

Lemma positioned_warnAt (pos : scanner.Position) (s : string) (args : list operand) :
  positioned (warnAt pos s args).
Proof. intros st. by rewrite warnAt_run. Qed.

Lemma positioned_bind {A B} (m : M A) (k : A -> M B) :
  positioned m -> (forall a, positioned (k a)) -> positioned (bind m k).
Proof.
  intros Hm Hk st. unfold bind. destruct (Hm st) as [Hf Hr].
  destruct (m st) as [[a|[msg|]] st1]; cbn [fst snd] in *; [|done|done].
  destruct (Hk a st1) as [Hf1 Hr1]. rewrite Hf in Hf1, Hr1. done.
Qed.

Lemma positioned_rangeFrom {A B} (body : B -> nat -> A -> M B) (l : list A) :
  (forall acc i x, positioned (body acc i x)) ->
  forall i acc, positioned (rangeFrom i l body acc).
Proof.
  intros Hbody. induction l as [|x l IH]; intros i acc; simpl.
  - apply positioned_ret.
  - apply positioned_bind; [apply Hbody | intros a; apply IH].
Qed.

Lemma positioned_ignoreError {A} (m : M A) :
  framed m -> noPanic m -> positioned (ignoreError m).
Proof.
  intros Hm Hn st. unfold ignoreError. destruct (Hm st) as (_ & Hf & _).
  specialize (Hn st). by destruct (m st) as [[a|[msg|]] st1].
Qed.

Lemma positioned_field (w : string) (e : proto.Visitee) (h : string -> M string) :
  isField e = true -> positioned (onError (handleMessageField w e) h).
Proof.
  intros He st. unfold onError.
  destruct e; try discriminate;
    [rewrite handleMessageField_normal | rewrite handleMessageField_map]; done.
Qed.

End Positioned.

Ltac positioned_step :=
  lazymatch goal with
  | |- positioned (ret _) => apply positioned_ret
  | |- positioned (failAt _ _ _) => apply positioned_failAt
  | |- positioned (warnAt _ _ _) => apply positioned_warnAt
  | |- positioned (appendDeclaration _) => apply positioned_state; intros ?; by eexists _, _
  | |- positioned (markImport _) => apply positioned_state; intros ?; by eexists _, _
  | |- positioned (onError (handleMessageField _ _) _) => by apply positioned_field
  | |- positioned (ignoreError (handleEnum _)) =>
      apply positioned_ignoreError;
      [apply framed_handleEnum | apply (noPanic_handleProtoType (proto.pEnum _))]
  | |- positioned (bind _ _) => apply positioned_bind; [|intros ?]
  | |- positioned (rangeFrom _ _ _ _) => apply positioned_rangeFrom; intros ? ? ?
  | |- positioned (range _ _ _) => unfold range
  | |- positioned (switch _ _ _) => unfold switch, existsb
  | |- positioned (match ?x with _ => _ end) => destruct x
  | |- positioned ((match ?x with _ => _ end) _) => destruct x
  | |- positioned ((match ?x with _ => _ end) _ _) => destruct x
  | |- positioned _ => progress cbv beta zeta
  end.

Section InvalidChildrenAbort.

Context {rt : GoRuntime} {snk : Snaker}.

#[local] Instance anyStep_preorder {B} : PreOrder (fun _ _ : B * state => True).
Proof. by split. Qed.

Lemma positioned_declaration (typ : proto.Visitee) :
  match typ with
  | proto.pMessage _ | proto.pEnum _ | proto.pService _ => positioned (handleProtoType typ)
  | _ => True
  end.
Proof.
  destruct typ; try exact I.
  - unfold handleProtoType, handleMessage. repeat positioned_step.
  - unfold handleProtoType, handleEnum, handleEnum_outputIota. repeat positioned_step.
  - unfold handleProtoType, handleService, handleService_rpc, handleService_http,
      handleService_httpKeys, handleLiteralString.
    repeat positioned_step.
Qed.

(** A message, an enum or a service at the top of a document with an
    element of a kind that is not valid in it is not translated. *)
Lemma invalid_child_not_translated (typ : proto.Visitee) (st st' : state) :
  hasInvalidChild typ -> handleProtoType typ st <> (Ok tt, st').
Proof.
  intros Hinv Hrun. destruct typ; try done; destruct Hinv as (c & Hin & Hc).
  - (* message *)
    unfold handleProtoType, handleMessage in Hrun. cbv zeta in Hrun.
    apply bind_inv_Ok in Hrun as (w1 & st1 & Hloop & _).
    destruct (rangeFrom_visits (fun _ _ => True) (messageBody m) _ _
                (fun _ _ _ _ _ _ _ => I) Hin _ _ _ _ _ Hloop)
      as (j & wa & sta & wb & stb & Hstep & _).
    destruct c; try discriminate; cbv beta iota in Hstep; rewrite failAt_run in Hstep;
      discriminate.
  - (* enum *)
    unfold handleProtoType, handleEnum in Hrun. cbv zeta in Hrun.
    apply bind_inv_Ok in Hrun as (o & st1 & Hloop & _).
    unfold handleEnum_outputIota, range in Hloop.
    match type of Hloop with rangeFrom 0 _ ?body _ _ = _ =>
      destruct (rangeFrom_visits (fun _ _ => True) body _ _
                  (fun _ _ _ _ _ _ _ => I) Hin _ _ _ _ _ Hloop)
        as (j & wa & sta & wb & stb & Hstep & _)
    end.
    destruct c; try discriminate; cbv beta iota in Hstep; rewrite failAt_run in Hstep;
      discriminate.
  - (* service *)
    unfold handleProtoType, handleService in Hrun. cbv zeta in Hrun.
    apply bind_inv_Ok in Hrun as (w1 & st1 & Hloop & _).
    destruct (rangeFrom_visits (fun _ _ => True) (serviceBody s) _ _
                (fun _ _ _ _ _ _ _ => I) Hin _ _ _ _ _ Hloop)
      as (j & wa & sta & wb & stb & Hstep & _).
    destruct c; try discriminate; cbv beta iota in Hstep; rewrite failAt_run in Hstep;
      discriminate.
Qed.

(** It makes the translator return an error that starts with the name of
    the file and a position, and [convertFile] returns that error. *)
Lemma invalid_child_aborts (typ : proto.Visitee) (st : state) :
  hasInvalidChild typ ->
  exists pos msg st',
    handleProtoType typ st = (Fail (Error (errorText (filename (bld st)) pos msg)), st').
Proof.
  intros Hinv. pose proof (positioned_declaration typ) as Hpos.
  pose proof (invalid_child_not_translated typ st) as Hnot.
  destruct typ; try done; destruct (Hpos st) as [_ Hr];
    destruct (handleProtoType _ st) as [[[]|[msg|]] st'];
    first [by destruct (Hnot st' Hinv) | done
          | destruct Hr as (pos & inner & ->); by eexists _, _, _].
Qed.

End InvalidChildrenAbort.

(** ** Fields with options in the output *)

Section FieldsInOutput.

Context {rt : GoRuntime} {snk : Snaker}.

#[local] Instance grows_preorder {B} (text : B -> string) : PreOrder (grows text).
Proof.
  split.
  - intros [a st]. split; [exists ""; by rewrite StrFacts.app_nil_r|].
    split; [reflexivity|]. split; [done|]. exists []. by rewrite app_nil_r.
  - intros [a1 s1] [a2 s2] [a3 s3] ([m1 H1] & He1 & Hf1 & [d1 Hd1])
      ([m2 H2] & He2 & Hf2 & [d2 Hd2]). simpl in *.
    split; [exists (m1 +:+ m2); simpl; by rewrite H2, H1, StrFacts.app_assoc|].
    split; [by etrans|]. split; [simpl; congruence|].
    exists (d1 ++ d2). simpl. by rewrite Hd2, Hd1, app_assoc.
Qed.

Lemma messageBody_grows (m : proto.Message.t proto.Visitee) :
  forall (w : string) (i : nat) (e : proto.Visitee) (st : state) (w' : string) (st' : state),
  messageBody m w i e st = (Ok w', st') -> grows id (w, st) (w', st').
Proof.
  intros w i e st w' st' Hrun.
  apply (messageBody_inv m w i e st w' st') in Hrun as (Hf & Hd & Hs & Hw).
  split; [|split; [done|split; [done|by eexists]]]. simpl.
  destruct e; try (exists ""; by rewrite StrFacts.app_nil_r).
  - destruct Hw as [-> _]. by eexists.
  - destruct Hw as [-> _]. by eexists.
  - by eexists.
Qed.

(** A message that is translated: its block is the last of the
    translated declarations and holds the line of each field, and the
    warnings for the options of each field are on the error stream. *)
Lemma handleMessage_member (m : proto.Message.t proto.Visitee) (e : proto.Visitee)
    (st st' : state) :
  handleMessage m st = (Ok tt, st') ->
  e ∈ proto.Message.Elements m ->
  isField e = true ->
  (exists block, last (translatedDeclarations (bld st')) = Some block /\
                 Str.contains (memberLine e) block) /\
  (forall o, o ∈ memberOptions e -> optionWarning (filename (bld st)) "field" o ∈ stderr st').
Proof.
  unfold handleMessage. cbv zeta. intros Hrun Hin Hfield.
  apply bind_inv_Ok in Hrun as (w1 & st1 & Hloop & Hend).
  unfold appendDeclaration, bind, getBuilder, setBuilder in Hend. injection Hend as <-.
  destruct (rangeFrom_visits (grows id) (messageBody m) _ _
              (messageBody_grows m) Hin _ _ _ _ _ Hloop)
    as (j & wa & sta & wb & stb & Hstep & Hbefore & Hafter).
  apply (messageBody_inv m wa j e sta wb stb) in Hstep as (_ & _ & _ & Hw).
  destruct Hbefore as (_ & _ & Hfa & _). simpl in Hfa.
  destruct Hafter as ([more Hmore] & [err Herr] & _ & _). simpl in Hmore, Herr.
  assert (Hline : wb = wa +:+ memberLine e /\ stb = warned "field" (memberOptions e) sta)
    by (destruct e; try discriminate; exact Hw).
  destruct Hline as [-> ->]. split.
  - eexists. split; [apply last_snoc|]. simpl.
    rewrite format_split, Hmore.
    apply StrFacts.contains_app_r, StrFacts.contains_app_r, StrFacts.contains_app_l,
      StrFacts.contains_refl.
  - intros o Ho. simpl. rewrite Herr. unfold warned. simpl. rewrite Hfa.
    apply elem_of_app. left. apply elem_of_app. right.
    apply list_elem_of_fmap. by exists o.
Qed.

Lemma documentBody_grows :
  forall (u : unit) (i : nat) (e : proto.Visitee) (st : state) (u' : unit) (st' : state),
  onError (handleProtoType e) (fun err => fail (Error (Sprintf (go:"%v\n") [aError err]))) st
    = (Ok u', st') ->
  grows (fun _ : unit => "") (u, st) (u', st').
Proof.
  intros u i e st u' st' Hrun. unfold onError in Hrun.
  pose proof (framed_handleProtoType e st) as (_ & Hf & Hd).
  pose proof (stderrGrows_handleProtoType e st) as Hs.
  destruct (handleProtoType e st) as [[[]|[err|]] st1]; try discriminate.
  injection Hrun as <- <-. simpl in *.
  split; [by exists ""|]. split; [done|]. split; [done|by eexists].
Qed.

(** The text that [convertFile] assembles holds every translated
    declaration. *)
Lemma assemble_contains (decls : list string) (block : string) :
  block ∈ decls ->
  forall w : string,
  Str.contains block (fold_left (fun w l => ((w +:+ go:"\n") +:+ l) +:+ go:"\n") decls w).
Proof.
  assert (Hgrow : forall l w, exists more,
            fold_left (fun w l => ((w +:+ go:"\n") +:+ l) +:+ go:"\n") l w = w +:+ more).
  { induction l as [|x l IH]; intros w; simpl.
    - exists "". by rewrite StrFacts.app_nil_r.
    - destruct (IH (((w +:+ go:"\n") +:+ x) +:+ go:"\n")) as [more ->].
      eexists. by rewrite !StrFacts.app_assoc. }
  induction decls as [|x decls IH]; intros Hin w; [by apply elem_of_nil in Hin|].
  apply elem_of_cons in Hin as [->|Hin]; simpl.
  - destruct (Hgrow decls (((w +:+ go:"\n") +:+ x) +:+ go:"\n")) as [more ->].
    apply StrFacts.contains_app_r, StrFacts.contains_app_r, StrFacts.contains_app_l,
      StrFacts.contains_refl.
  - by apply IH.
Qed.

(** In a document that is translated, the line of every field of every
    message is in the text, and the warnings for the options on the field
    are on the error stream. *)
Lemma convertFile_member (fn : string) (d : list proto.Visitee) (st : state)
    (out : string) (st' : state) (m : proto.Message.t proto.Visitee) (e : proto.Visitee) :
  convertFile fn d st = (Ok out, st') ->
  proto.pMessage m ∈ d ->
  e ∈ proto.Message.Elements m ->
  isField e = true ->
  Str.contains (memberLine e) out /\
  (forall o, o ∈ memberOptions e -> optionWarning fn "field" o ∈ stderr st').
Proof.
  unfold convertFile. intros Hrun Hm He Hfield.
  apply bind_inv_Ok in Hrun as ([] & st0 & Hset & Hrun).
  unfold setBuilder in Hset. injection Hset as <-.
  apply bind_inv_Ok in Hrun as ([] & st1 & Hloop & Hrun).
  apply bind_inv_Ok in Hrun as (translatedPkg & st2 & Hpkg & Hrun).
  pose proof (sameDeclarations_handlePackage st1) as Hsame.
  pose proof (stderrGrows_handlePackage st1) as [err2 Herr2].
  rewrite Hpkg in Hsame, Herr2. unfold sameDeclarations in Hsame. simpl in Hsame, Herr2.
  unfold bind, getBuilder, ret in Hrun. injection Hrun as <- <-.
  destruct (rangeFrom_visits (grows (fun _ : unit => "")) _ _ _
              documentBody_grows Hm _ _ _ _ _ Hloop)
    as (j & [] & sta & [] & stb & Hstep & Hbefore & Hafter).
  unfold onError in Hstep.
  destruct (handleProtoType (proto.pMessage m) sta) as [[[]|[err|]] stb'] eqn:Hmsg;
    try discriminate.
  injection Hstep as ->.
  destruct (handleMessage_member m e sta stb Hmsg He Hfield) as [(block & Hlast & Hsub) Hwarn].
  destruct Hbefore as (_ & _ & Hfa & _). simpl in Hfa.
  destruct Hafter as (_ & [err1 Herr1] & _ & [more Hmore]). simpl in Herr1, Hmore.
  split.
  - apply StrFacts.contains_trans with block; [exact Hsub|].
    apply assemble_contains. rewrite Hsame, Hmore.
    apply elem_of_app. left. apply last_Some in Hlast as [l ->].
    apply elem_of_app. right. apply list_elem_of_here.
  - intros o Ho. rewrite Herr2, Herr1. rewrite <- Hfa.
    apply elem_of_app. left. apply elem_of_app. left. by apply Hwarn.
Qed.

(** C4 (amended).  A file option whose name is not recognized aborts the
    translation of the document: [convertFile] returns an error, the
    error of [handlePackage] with the position of the first such option
    when the declarations themselves are translated without error.  An
    option on a field of a message does not: [handleMessageField] writes
    one warning per option on the error stream and the line of the field
    all the same, and in a document that is translated the line is in the
    text and the warnings are on the error stream. *)
Theorem unrecognized_file_option_fatal_field_option_warned (fn : string)
    (d : list proto.Visitee) (st : state) :
  (forall o : proto.Option.t,
     proto.pOption o ∈ d -> recognized o = false ->
     exists o' msg st',
       firstUnrecognized (fileOptions d) = Some o' /\
       convertFile fn d st = (Fail (Error msg), st') /\
       (Forall (fun e => fst (handleProtoType e (fresh fn)) = Ok tt) d ->
        msg = fn +:+ ":" +:+ Str.itoa (scanner.Line (proto.Option.Position o')) +:+ ":" +:+
              Str.itoa (scanner.Column (proto.Option.Position o')) +:+ ": " +:+
              strconv_Quote (proto.Option.Name o') +:+
              " is an unhandled proto file option")) /\
  (forall (w : string) (e : proto.Visitee) (st0 : state),
     isField e = true ->
     handleMessageField w e st0 =
     (Ok (w +:+ memberLine e),
      {| bld := bld st0;
         stderr := stderr st0 ++
                   map (optionWarning (filename (bld st0)) "field") (memberOptions e) |})) /\
  (forall (out : string) (st' : state) (m : proto.Message.t proto.Visitee)
          (e : proto.Visitee),
     convertFile fn d st = (Ok out, st') ->
     proto.pMessage m ∈ d ->
     e ∈ proto.Message.Elements m ->
     isField e = true ->
     Str.contains (memberLine e) out /\
     (forall o, o ∈ memberOptions e -> optionWarning fn "field" o ∈ stderr st')).
Proof.
  split; [|split].
  - intros o Hin Hrec.
    destruct (firstUnrecognized_exists (fileOptions d) o (fileOptions_elem_of d o Hin) Hrec)
      as [o' Hfirst].
    destruct (convertFile_unrecognized fn d st o' Hfirst) as (msg & st' & Hrun & Hmsg).
    exists o', msg, st'. split; [done|]. split; [done|]. exact Hmsg.
  - intros w e st0 Hfield. destruct e; try discriminate.
    + apply handleMessageField_normal.
    + apply handleMessageField_map.
  - intros out st' m e. apply convertFile_member.
Qed.

End FieldsInOutput.

(** ** The import block *)

Section Imports.

Context {rt : GoRuntime} {snk : Snaker}.

Lemma importsUsed_loop (l : list string) (w : string) :
  fold_left (fun w i =>
      let w := format w 0 None (go:"\n") [] in
      format w 1 None (Sprintf "%q" [aString i]) []) l w =
  w +:+ Str.join (map (fun path => go:"\n" +:+ importLine path) l).
Proof.
  revert w. induction l as [|x l IH]; intros w; simpl.
  - by rewrite StrFacts.app_nil_r.
  - rewrite IH. cbv zeta. rewrite !format_split. unfold importLine. simpl.
    rewrite !StrFacts.app_nil_r.
    destruct (String.eqb (strconv_Quote x) ""); str_norm; reflexivity.
Qed.

Lemma imports_loop (l : list proto.Import_.t) (w : string) :
  fold_left (fun w i =>
      let w := format w 0 None (go:"\n") [] in
      format w 1 None "// %q" [aString (proto.Import_.Filename i)]) l w =
  w +:+ Str.join (map (fun i => go:"\n" +:+ importComment i) l).
Proof.
  revert w. induction l as [|x l IH]; intros w; simpl.
  - by rewrite StrFacts.app_nil_r.
  - rewrite IH. cbv zeta. rewrite !format_split. unfold importComment. simpl.
    str_norm. reflexivity.
Qed.

(** C10.  The paths of the required imports are the keys of a map: the
    loop of [handleImports] visits each path that was marked once,
    whatever the number of times it was marked, writes one line per visit,
    and marking a path again changes nothing. *)
Theorem import_paths_once (b : builder) :
  NoDup (mapRange (importsUsed b)) /\
  (forall path, path ∈ mapRange (importsUsed b) <-> is_Some (importsUsed b !! path)) /\
  handleImports b =
    (if Nat.eqb (size (importsUsed b)) 0 && Nat.eqb (length (imports b)) 0 then ""
     else importBlock (mapRange (importsUsed b)) (imports b)) /\
  (forall (path : string) (st : state),
     markImport path (snd (markImport path st)) = markImport path st).
Proof.
  split; [|split; [|split]].
  - rewrite mapRange_perm. apply NoDup_fst_map_to_list.
  - intros path. rewrite mapRange_perm. rewrite list_elem_of_fmap. split.
    + intros ([k v] & -> & Hin). apply elem_of_map_to_list in Hin. by exists v.
    + intros [v Hv]. exists (path, v). split; [done|]. by apply elem_of_map_to_list.
  - unfold handleImports. destruct (_ && _); [done|]. cbv zeta.
    rewrite imports_loop, importsUsed_loop, !format_split. unfold importBlock. simpl.
    str_norm. reflexivity.
  - intros path st. unfold markImport, bind, getBuilder, setBuilder. simpl.
    by rewrite insert_insert_eq.
Qed.

End Imports.

Section ImportSamples.

#[local] Existing Instances Ref.refRuntime Ref.refSnaker.

(** Two options of the [java] family and two routing annotations: two
    import lines. *)
Example imports_marked_twice_written_once :
  fst (convertFile "util.proto" Sample.documentWithRepeatedImports Ref.state0) =
  Ok (go:"// +gunk java.Package(\'com.x\')\n// +gunk java.MultipleFiles(true)\npackage util\n\nimport (\n\t\'github.com/gunk/opt/file/java\'\n\t\'github.com/gunk/opt/http\'\n)\n\ntype Util interface {\n\t// +gunk http.Match{\n\t//     Method: \'GET\',\n\t//     Path: \'/v1/echo\',\n\t// }\n\tEcho(Message) \n\n\t// +gunk http.Match{\n\t//     Method: \'POST\',\n\t//     Path: \'/v1/echo\',\n\t//     Body: \'*\',\n\t// }\n\tEcho(Message) \n}\n").
Proof. reflexivity. Qed.

End ImportSamples.

Section DocumentSamples.

#[local] Existing Instances Ref.refRuntime Ref.refSnaker.

(** The text assembled for the sample document. *)
Example document_translated :
  convertFile "util.proto" Sample.document Ref.state0 =
  (Ok (go:"package util\n\nimport (\n\t\'github.com/gunk/opt/http\'\n)\n\ntype E int\n\nconst (\n\tA E = iota\n\tB\n)\n\ntype Status int\n\nconst (\n\tUnknown Status = iota\n\tError\n)\n\ntype Message struct {\n\tMsg string `pb:\'1\' json:\'msg\'`\n\tTags []string `pb:\'4\' json:\'tags\'`\n}\n\ntype Util interface {\n\t// +gunk http.Match{\n\t//     Method: \'GET\',\n\t//     Path: \'/v1/echo\',\n\t//     Body: \'*\',\n\t// }\n\tEcho(Message) \n}\n"),
   snd (convertFile "util.proto" Sample.document Ref.state0)).
Proof. reflexivity. Qed.

(** The sample document: an enum, a message with a nested enum, a
    service. *)
Lemma translatedDeclarations_order_witness :
  translatedDeclarations
    (bld (snd (convertFile "util.proto" Sample.document Ref.state0))) =
  concat (map (blocksOf "util.proto") Sample.document) /\
  Forall (fun e =>
    match e with
    | proto.pMessage m =>
        exists block,
          blocksOf "util.proto" e =
          concat (map (hoisted "util.proto") (proto.Message.Elements m)) ++ [block]
    | proto.pEnum _ | proto.pService _ => exists block, blocksOf "util.proto" e = [block]
    | _ => blocksOf "util.proto" e = []
    end) Sample.document /\
  (forall e : proto.Enum.t proto.Visitee,
     blocksOf "util.proto" (proto.pEnum e) = [] \/
     exists block, blocksOf "util.proto" (proto.pEnum e) = [block]).
Proof.
  exact (translatedDeclarations_order "util.proto" Sample.document Ref.state0 _ _
           document_translated).
Defined.

(** The sample document with [option totally_custom_option = "x";] is
    not translated; without it the field [msg], which carries the option
    [deprecated], is in the text and the warning on the error stream. *)
Lemma unrecognized_file_option_fatal_field_option_warned_witness :
  (proto.pOption Sample.customOption ∈ Sample.documentWithCustomOption /\
   recognized Sample.customOption = false /\
   exists st',
     convertFile "util.proto" Sample.documentWithCustomOption Ref.state0 =
     (Fail (Error (go:"util.proto:3:1: \'totally_custom_option\' is an unhandled proto file option")),
      st')) /\
  (proto.pMessage Sample.message ∈ Sample.document /\
   proto.pNormalField Sample.msg ∈ proto.Message.Elements Sample.message /\
   Str.contains (go:"\tMsg string `pb:\'1\' json:\'msg\'`\n")
     (match fst (convertFile "util.proto" Sample.document Ref.state0) with
      | Ok out => out
      | Fail _ => ""
      end) /\
   go:"util.proto:5:19: unhandled field option \'deprecated\'"
     ∈ stderr (snd (convertFile "util.proto" Sample.document Ref.state0))).
Proof.
  assert (Hin : proto.pOption Sample.customOption ∈ Sample.documentWithCustomOption)
    by (do 2 apply list_elem_of_further; apply list_elem_of_here).
  assert (Hm : proto.pMessage Sample.message ∈ Sample.document)
    by (do 3 apply list_elem_of_further; apply list_elem_of_here).
  assert (He : proto.pNormalField Sample.msg ∈ proto.Message.Elements Sample.message)
    by apply list_elem_of_here.
  split.
  - split; [exact Hin|]. split; [reflexivity|].
    destruct (proj1 (unrecognized_file_option_fatal_field_option_warned
                       "util.proto" Sample.documentWithCustomOption Ref.state0)
                    Sample.customOption Hin eq_refl)
      as (o' & msg & st' & Hfirst & Hrun & Hmsg).
    exists st'. rewrite Hrun. injection Hfirst as <-. rewrite Hmsg; [reflexivity|].
    repeat constructor.
  - split; [exact Hm|]. split; [exact He|].
    destruct (proj2 (proj2 (unrecognized_file_option_fatal_field_option_warned
                       "util.proto" Sample.document Ref.state0))
                    _ _ Sample.message (proto.pNormalField Sample.msg)
                    document_translated Hm He eq_refl) as [Hsub Hwarn].
    split; [exact Hsub|]. exact (Hwarn Sample.deprecated (list_elem_of_here _ _)).
Defined.

(** C4 as stated fails where a declaration of the document is not
    translated: with a comment that stands alone after the option
    [totally_custom_option], the error returned is that of
    [handleProtoType] for the comment, which carries no position, and
    not that of the option. *)
Lemma unrecognized_file_option_without_position :
  proto.pOption Sample.customOption ∈ Sample.customOptionBeforeComment /\
  recognized Sample.customOption = false /\
  convertFile "util.proto" Sample.customOptionBeforeComment Ref.state0 =
    (Fail (Error (go:"unhandled proto type *proto.Comment\n")),
     {| bld := {| filename := "util.proto"; translatedDeclarations := [];
                  pkg := Some Sample.package; pkgOpts := [Sample.customOption];
                  imports := []; importsUsed := ∅ |};
        stderr := [] |}) /\
  (forall (pos : scanner.Position) (inner : string),
     go:"unhandled proto type *proto.Comment\n" <> errorText "util.proto" pos inner).
Proof.
  split; [apply list_elem_of_further, list_elem_of_here|].
  split; [reflexivity|]. split; [reflexivity|].
  intros pos inner. unfold errorText. simpl. discriminate.
Qed.

End DocumentSamples.

(** ** What [format] appends *)

Section FormatLayout.

Context {rt : GoRuntime} {snk : Snaker}.

(** The text of a comment is its lines, one after the other. *)
Lemma commentText_lines (indent : nat) (c : option proto.Comment.t) :
  commentText indent c = Str.join (commentLines indent c).
Proof.
  unfold commentText, format, commentLines. change (String.eqb "" "") with true. cbv iota.
  destruct c as [c|]; [|reflexivity]. cbn [from_option].
  induction (proto.Comment.Lines c) as [|l ls IH]; [reflexivity|].
  cbn [fold_left map Str.join fold_right].
  rewrite (fold_left_append (fun c => indentation indent +:+ Sprintf _ [aString c])).
  rewrite IH. simpl. rewrite ?StrFacts.app_nil_r. str_norm. reflexivity.
Qed.

(** X1.  [format] leaves what the builder holds and appends to it: for
    each line of the comment the indentation, [//], the line and a
    newline; then, unless the format string is empty, the indentation
    and the formatted text. *)
Theorem format_layout (w : string) (indent : nat) (c : option proto.Comment.t)
    (s : string) (args : list operand) :
  format w indent c s args =
  w +:+ Str.join (commentLines indent c) +:+
  (if String.eqb s "" then "" else indentation indent +:+ Sprintf s args).
Proof. by rewrite format_split, commentText_lines. Qed.

End FormatLayout.

(** ** The block of an enum *)

Section EnumBlocks.

Context {rt : GoRuntime} {snk : Snaker}.

(** The warnings for no option, and for the options of two lists. *)
Lemma warned_nil (kind : string) (st : state) : warned kind [] st = st.
Proof. unfold warned. simpl. rewrite app_nil_r. by destruct st. Qed.

Lemma warned_app (kind : string) (l1 l2 : list proto.Option.t) (st : state) :
  warned kind (l1 ++ l2) st = warned kind l2 (warned kind l1 st).
Proof. unfold warned. simpl. by rewrite map_app, app_assoc. Qed.

(** The warning for one option. *)
Lemma warnAt_option (kind fmt : string) (o : proto.Option.t) (st : state) :
  (forall n, Sprintf fmt [aString n] = "unhandled " +:+ kind +:+ " option " +:+ strconv_Quote n) ->
  warnAt (proto.Option.Position o) fmt [aString (proto.Option.Name o)] st =
  (Ok tt, warned kind [o] st).
Proof. intros Hfmt. rewrite warnAt_run. unfold warned, optionWarning. simpl. by rewrite Hfmt. Qed.

(** The first loop of [handleEnum] over values and options: it warns
    about each option and returns whether every value has its index for
    integer. *)
Lemma enumCheck_valid (e : proto.Enum.t proto.Visitee) (l : list proto.Visitee) :
  Forall (fun c => validInEnum c = true) l ->
  forall (i : nat) (acc : bool) (st : state),
  rangeFrom i l (enumCheckBody e) acc st =
  (Ok (acc && positional (enumValuesFrom i l)), warned "enum" (optionsAmong l) st).
Proof.
  induction 1 as [|c l Hc Hl IH]; intros i acc st; cbn [rangeFrom].
  - simpl. by rewrite andb_true_r, warned_nil.
  - destruct c; try discriminate.
    + (* option *)
      unfold bind at 1. unfold bind at 1.
      rewrite (warnAt_option "enum") by solve_fmt. unfold ret at 1.
      rewrite IH. change (optionsAmong (proto.pOption o :: l)) with ([o] ++ optionsAmong l).
      by rewrite warned_app.
    + (* value *)
      unfold bind at 1.
      cbn [enumValuesFrom positional forallb fst snd].
      destruct (Z.of_nat i =? proto.EnumField.Integer f); cbn [negb]; unfold ret at 1;
        rewrite IH; cbn [optionsAmong omap]; [done|].
      by rewrite andb_false_r.
Qed.

(** The same loop up to an element of another kind. *)
Lemma enumCheck_invalid (e : proto.Enum.t proto.Visitee) (pre : list proto.Visitee)
    (c : proto.Visitee) (post : list proto.Visitee) :
  Forall (fun c => validInEnum c = true) pre ->
  validInEnum c = false ->
  forall (i : nat) (acc : bool) (st : state),
  rangeFrom i (pre ++ c :: post) (enumCheckBody e) acc st =
  (Fail (Error (errorText (filename (bld st)) (proto.Enum.Position e)
                  ("unexpected type " +:+ proto.typeName c +:+
                   " in enum, expected enum field"))),
   warned "enum" (optionsAmong pre) st).
Proof.
  intros Hpre Hc. induction Hpre as [|x l Hx Hl IH]; intros i acc st; cbn [rangeFrom app].
  - unfold bind at 1. cbn [optionsAmong omap]. rewrite warned_nil.
    destruct c; try discriminate; rewrite failAt_run; simpl; by rewrite ?StrFacts.app_nil_r.
  - destruct x; try discriminate.
    + unfold bind at 1. unfold bind at 1.
      rewrite (warnAt_option "enum") by solve_fmt. unfold ret at 1.
      rewrite IH. change (optionsAmong (proto.pOption o :: l)) with ([o] ++ optionsAmong l).
      by rewrite warned_app.
    + unfold bind at 1.
      destruct (Z.of_nat i =? proto.EnumField.Integer f); cbn [negb]; unfold ret at 1;
        by rewrite IH.
Qed.

(** The loop over the elements of a value warns about each option. *)
Lemma enumValue_warned (l : list proto.Visitee) :
  forall (i : nat) (st : state),
  rangeFrom i l enumValueBody tt st = (Ok tt, warned "enumvalue" (optionsAmong l) st).
Proof.
  induction l as [|x l IH]; intros i st; cbn [rangeFrom].
  - by rewrite warned_nil.
  - unfold bind at 1.
    destruct x;
      try (unfold ret at 1; rewrite IH; reflexivity).
    rewrite (warnAt_option "enumvalue") by solve_fmt.
    rewrite IH. change (optionsAmong (proto.pOption o :: l)) with ([o] ++ optionsAmong l).
    by rewrite warned_app.
Qed.

(** The second loop of [handleEnum]: one line for each value, and the
    warnings for the options of the values. *)
Lemma enumWrite_lines (e : proto.Enum.t proto.Visitee) (outputIota : bool)
    (l : list proto.Visitee) :
  forall (i : nat) (w : string) (st : state),
  rangeFrom i l (enumWriteBody e outputIota) w st =
  (Ok (w +:+ Str.join (map (enumValueLine e outputIota) (enumValuesFrom i l))),
   warned "enumvalue" (enumValueOptions (enumValuesFrom i l)) st).
Proof.
  induction l as [|c l IH]; intros i w st; cbn [rangeFrom].
  - simpl. by rewrite StrFacts.app_nil_r, warned_nil.
  - unfold bind at 1.
    destruct c; try (unfold ret at 1; rewrite IH; reflexivity).
    unfold bind at 1. unfold range at 1. rewrite enumValue_warned.
    cbn [enumValuesFrom map Str.join fold_right enumValueOptions concat].
    rewrite warned_app.
    destruct outputIota; cbn [negb]; [destruct (Nat.eqb i 0) eqn:Hi|]; unfold ret at 1;
      rewrite IH; f_equal; f_equal; unfold enumValueLine; cbn [fst snd]; rewrite ?Hi;
      rewrite format_split; simpl; str_norm; reflexivity.
Qed.

(** X2.  An enum whose elements are values and options is translated
    without error.  One warning is written for each option of the enum,
    then one for each option of each value, and one block is appended:
    the comment, the type, and one line for each value in the order of
    the elements.  The lines have the auto-increment form exactly when
    the integer of every value is its index among all the elements, the
    options included; the seed is on the value at index 0. *)
Theorem handleEnum_values_and_options (e : proto.Enum.t proto.Visitee) (st : state) :
  Forall (fun c => validInEnum c = true) (proto.Enum.Elements e) ->
  handleEnum e st =
  appendDeclaration (enumText e)
    (warned "enumvalue" (enumValueOptions (enumValues e))
       (warned "enum" (optionsAmong (proto.Enum.Elements e)) st)).
Proof.
  intros Hvalid. unfold handleEnum. cbv zeta. unfold bind at 1.
  unfold handleEnum_outputIota, range. rewrite (enumCheck_valid e _ Hvalid).
  cbn [andb]. unfold bind at 1. rewrite enumWrite_lines.
  f_equal. unfold enumText, enumValues. rewrite !format_split. simpl. str_norm. reflexivity.
Qed.

(** X3.  The first element of an enum that is neither a value nor an
    option ends the translation of the enum: the error names the type of
    the element and carries the position of the enum, not that of the
    element; the warnings for the options before it are written, no
    warning for an option of a value is, and the builder is left as it
    was. *)
Theorem handleEnum_unexpected_element (e : proto.Enum.t proto.Visitee)
    (pre : list proto.Visitee) (c : proto.Visitee) (post : list proto.Visitee) (st : state) :
  proto.Enum.Elements e = pre ++ c :: post ->
  Forall (fun c => validInEnum c = true) pre ->
  validInEnum c = false ->
  handleEnum e st =
  (Fail (Error (errorText (filename (bld st)) (proto.Enum.Position e)
                  ("unexpected type " +:+ proto.typeName c +:+
                   " in enum, expected enum field"))),
   warned "enum" (optionsAmong pre) st).
Proof.
  intros He Hpre Hc. unfold handleEnum. cbv zeta. unfold bind at 1.
  unfold handleEnum_outputIota, range. rewrite He.
  by rewrite (enumCheck_invalid e pre c post Hpre Hc).
Qed.

End EnumBlocks.

(** ** The block of a message *)

Section MessageBlocks.

Context {rt : GoRuntime} {snk : Snaker}.

(** A loop over two lists, one after the other. *)
Lemma rangeFrom_app {A B} (body : B -> nat -> A -> M B) (l1 l2 : list A) :
  forall (i : nat) (acc : B) (st : state),
  rangeFrom i (l1 ++ l2) body acc st =
  match rangeFrom i l1 body acc st with
  | (Ok acc', st') => rangeFrom (i + length l1) l2 body acc' st'
  | (Fail e, st') => (Fail e, st')
  end.
Proof.
  induction l1 as [|x l1 IH]; intros i acc st; cbn [rangeFrom app length].
  - unfold ret. by rewrite Nat.add_0_r.
  - unfold bind. destruct (body acc i x st) as [[acc1|e] st1]; [|done].
    rewrite IH. by rewrite Nat.add_succ_r.
Qed.

(** The first element of a list that a test rejects. *)
Lemma first_invalid {A} (valid : A -> bool) (l : list A) :
  forallb valid l = false ->
  exists pre c post, l = pre ++ c :: post /\ Forall (fun c => valid c = true) pre /\
                     valid c = false.
Proof.
  induction l as [|x l IH]; [discriminate|]. simpl. destruct (valid x) eqn:Hx.
  - intros H. destruct (IH H) as (pre & c & post & -> & Hpre & Hc).
    exists (x :: pre), c, post. split; [done|]. split; [by constructor|done].
  - intros _. exists [], x, l. split; [done|]. split; [constructor|done].
Qed.

Lemma forallb_Forall {A} (valid : A -> bool) (l : list A) :
  forallb valid l = true -> Forall (fun c => valid c = true) l.
Proof. intros H. apply Forall_forall. intros x Hx. rewrite forallb_forall in H. apply H. by apply list_elem_of_In. Qed.

(** A nested enum: its block is appended when it is translated, nothing
    when it is not, and the message goes on in both cases. *)
Lemma nestedEnum_step (e : proto.Enum.t proto.Visitee) (st : state) :
  exists st',
    ignoreError (handleEnum e) st = (Ok tt, st') /\
    filename (bld st') = filename (bld st) /\
    translatedDeclarations (bld st') =
      translatedDeclarations (bld st) ++ nestedEnumBlocks (proto.pEnum e).
Proof.
  unfold nestedEnumBlocks.
  destruct (forallb validInEnum (proto.Enum.Elements e)) eqn:Hv.
  - assert (Hrun : handleEnum e st =
      appendDeclaration (enumText e)
        (warned "enumvalue" (enumValueOptions (enumValues e))
           (warned "enum" (optionsAmong (proto.Enum.Elements e)) st))).
    { unfold handleEnum. cbv zeta. unfold bind at 1. unfold handleEnum_outputIota, range.
      rewrite (enumCheck_valid e _ (forallb_Forall _ _ Hv)). cbn [andb].
      unfold bind at 1. rewrite (@enumWrite_lines rt e _ (proto.Enum.Elements e) 0).
      f_equal. unfold enumText, enumValues. rewrite !format_split. simpl. str_norm.
      reflexivity. }
    unfold ignoreError. rewrite Hrun. eexists. split; [reflexivity|]. done.
  - destruct (first_invalid _ _ Hv) as (pre & c & post & He & Hpre & Hc).
    assert (Hrun : handleEnum e st =
      (Fail (Error (errorText (filename (bld st)) (proto.Enum.Position e)
                      ("unexpected type " +:+ proto.typeName c +:+
                       " in enum, expected enum field"))),
       warned "enum" (optionsAmong pre) st)).
    { unfold handleEnum. cbv zeta. unfold bind at 1. unfold handleEnum_outputIota, range.
      rewrite He. by rewrite (enumCheck_invalid e pre c post Hpre Hc). }
    unfold ignoreError. rewrite Hrun. eexists. split; [reflexivity|]. simpl.
    by rewrite app_nil_r.
Qed.

(** The loop of [handleMessage] over elements of the kinds it has a
    clause for. *)
Lemma messageLoop_valid (m : proto.Message.t proto.Visitee) (l : list proto.Visitee) :
  Forall (fun e => validInMessage e = true) l ->
  forall (i : nat) (w : string) (st : state),
  exists st',
    rangeFrom i l (messageBody m) w st = (Ok (w +:+ Str.join (map memberText l)), st') /\
    filename (bld st') = filename (bld st) /\
    translatedDeclarations (bld st') =
      translatedDeclarations (bld st) ++ concat (map nestedEnumBlocks l).
Proof.
  induction 1 as [|e l He Hl IH]; intros i w st; cbn [rangeFrom].
  - exists st. simpl. by rewrite StrFacts.app_nil_r, app_nil_r.
  - assert (Hstep : exists st1,
      messageBody m w i e st = (Ok (w +:+ memberText e), st1) /\
      filename (bld st1) = filename (bld st) /\
      translatedDeclarations (bld st1) =
        translatedDeclarations (bld st) ++ nestedEnumBlocks e).
    { destruct e; try discriminate; cbv beta iota.
      - destruct (nestedEnum_step e st) as (st1 & Hrun & Hf & Hd).
        exists st1. unfold bind. rewrite Hrun. simpl. by rewrite StrFacts.app_nil_r.
      - unfold bind. rewrite warnAt_run. unfold ret. simpl.
        rewrite (StrFacts.app_nil_r w), app_nil_r. eexists. split; [reflexivity|done].
      - unfold onError. rewrite handleMessageField_normal. simpl. rewrite app_nil_r.
        eexists. split; [reflexivity|done].
      - unfold onError. rewrite handleMessageField_map. simpl. rewrite app_nil_r.
        eexists. split; [reflexivity|done].
      - unfold ret. simpl. rewrite format_split. simpl.
        rewrite !StrFacts.app_nil_r, app_nil_r. eexists. split; [reflexivity|done]. }
    destruct Hstep as (st1 & Hstep & Hf1 & Hd1). unfold bind at 1. rewrite Hstep.
    destruct (IH (S i) (w +:+ memberText e) st1) as (st' & Hrun & Hf & Hd).
    exists st'. rewrite Hrun. simpl. rewrite StrFacts.app_assoc.
    split; [done|]. split; [congruence|]. by rewrite Hd, Hd1, app_assoc.
Qed.

(** X4.  A message whose elements are fields, map fields, nested enums,
    comments and options is translated without error.  The blocks of
    its nested enums come first, in the order of the elements and only
    of those whose own elements are values and options; the block of the
    message follows: its comment, the type, one line for each field and
    the lines of each comment, in the order of the elements. *)
Theorem handleMessage_block (m : proto.Message.t proto.Visitee) (st : state) :
  Forall (fun e => validInMessage e = true) (proto.Message.Elements m) ->
  exists st',
    handleMessage m st = (Ok tt, st') /\
    translatedDeclarations (bld st') =
      translatedDeclarations (bld st) ++
      concat (map nestedEnumBlocks (proto.Message.Elements m)) ++ [messageText m].
Proof.
  intros Hvalid. unfold handleMessage. cbv zeta. unfold range.
  match goal with |- context [rangeFrom 0 _ _ ?w0] =>
    destruct (messageLoop_valid m _ Hvalid 0 w0 st) as (st1 & Hloop & _ & Hd)
  end.
  unfold bind at 1. rewrite Hloop.
  eexists. split; [reflexivity|]. simpl. rewrite Hd, <- app_assoc. do 3 f_equal.
  unfold messageText. rewrite !format_split. simpl. str_norm. reflexivity.
Qed.

(** X5.  The first element of a message of another kind (a nested
    message, a oneof, ...) ends the translation of the message: the
    error names the type of the element and carries the position of the
    message.  The blocks of the nested enums before it are already
    appended; the block of the message is not. *)
Theorem handleMessage_unexpected_element (m : proto.Message.t proto.Visitee)
    (pre : list proto.Visitee) (c : proto.Visitee) (post : list proto.Visitee) (st : state) :
  proto.Message.Elements m = pre ++ c :: post ->
  Forall (fun e => validInMessage e = true) pre ->
  validInMessage c = false ->
  exists st',
    handleMessage m st =
    (Fail (Error (errorText (filename (bld st)) (proto.Message.Position m)
                    ("unexpected type " +:+ proto.typeName c +:+ " in message"))), st') /\
    translatedDeclarations (bld st') =
      translatedDeclarations (bld st) ++ concat (map nestedEnumBlocks pre).
Proof.
  intros He Hpre Hc. unfold handleMessage. cbv zeta. unfold range. rewrite He.
  match goal with |- context [rangeFrom 0 _ _ ?w0] =>
    destruct (messageLoop_valid m _ Hpre 0 w0 st) as (st1 & Hloop & Hf & Hd)
  end.
  unfold bind at 1. rewrite rangeFrom_app, Hloop. cbn [rangeFrom]. unfold bind at 1.
  exists st1. split; [|done].
  destruct c; try discriminate; cbv beta iota; rewrite failAt_run, Hf; simpl;
    by rewrite ?StrFacts.app_nil_r.
Qed.

(** A message that is translated holds only such elements, and its
    blocks are those. *)
Lemma handleMessage_translated (m : proto.Message.t proto.Visitee) (st st' : state) :
  handleMessage m st = (Ok tt, st') ->
  Forall (fun e => validInMessage e = true) (proto.Message.Elements m) /\
  translatedDeclarations (bld st') =
    translatedDeclarations (bld st) ++
    concat (map nestedEnumBlocks (proto.Message.Elements m)) ++ [messageText m].
Proof.
  intros Hrun.
  destruct (forallb validInMessage (proto.Message.Elements m)) eqn:Hv.
  - apply forallb_Forall in Hv. split; [exact Hv|].
    revert Hrun. unfold handleMessage. cbv zeta. unfold range.
    match goal with |- context [rangeFrom 0 _ _ ?w0] =>
      destruct (messageLoop_valid m _ Hv 0 w0 st) as (st1 & Hloop & _ & Hd)
    end.
    unfold bind at 1. rewrite Hloop. intros Hrun. injection Hrun as <-.
    simpl. rewrite Hd, <- app_assoc. do 3 f_equal.
    unfold messageText. rewrite !format_split. simpl. str_norm. reflexivity.
  - exfalso. apply first_invalid in Hv as (pre & c & post & He & Hpre & Hc).
    revert Hrun. unfold handleMessage. cbv zeta. unfold range. rewrite He.
    match goal with |- context [rangeFrom 0 _ _ ?w0] =>
      destruct (messageLoop_valid m _ Hpre 0 w0 st) as (st1 & Hloop & _ & _)
    end.
    unfold bind at 1. rewrite rangeFrom_app, Hloop. cbn [rangeFrom]. unfold bind at 1.
    destruct c; try discriminate; cbv beta iota; rewrite failAt_run; discriminate.
Qed.

(** In a document that is translated, each enum nested in a message
    whose elements are values and options has its block before the
    block of the message, in the order of the elements. *)
Lemma translated_message_blocks (fn : string) (d : list proto.Visitee)
    (st : state) (out : string) (st' : state) (m : proto.Message.t proto.Visitee) :
  convertFile fn d st = (Ok out, st') ->
  proto.pMessage m ∈ d ->
  blocksOf fn (proto.pMessage m) =
    concat (map nestedEnumBlocks (proto.Message.Elements m)) ++ [messageText m].
Proof.
  unfold convertFile. intros Hrun Hm.
  apply bind_inv_Ok in Hrun as ([] & st0 & Hset & Hrun).
  unfold setBuilder in Hset. injection Hset as <-.
  apply bind_inv_Ok in Hrun as ([] & st1 & Hloop & _).
  apply documentLoop_blocks in Hloop as (_ & _ & Hall). simpl in Hall.
  rewrite Forall_forall in Hall. specialize (Hall _ Hm).
  unfold blocksOf.
  destruct (handleProtoType (proto.pMessage m) (fresh fn)) as [r st2] eqn:Hrun.
  simpl in Hall. subst r.
  change (handleProtoType (proto.pMessage m)) with (handleMessage m) in Hrun.
  destruct (handleMessage_translated m _ _ Hrun) as [_ Hd]. cbn [snd]. by rewrite Hd.
Qed.

End MessageBlocks.

(** ** Services without routing annotation *)

Section ServiceBlocks.

Context {rt : GoRuntime} {snk : Snaker}.

(** A routing option whose map gives no verb or no path changes
    nothing. *)
Lemma http_without_route (opt : proto.Option.t) (w : string) (c : option proto.Comment.t)
    (st : state) :
  Nat.eqb (length (proto.OrderedMap (proto.Option.Constant opt))) 0 = false ->
  allStrings (proto.OrderedMap (proto.Option.Constant opt)) = true ->
  routed opt = false ->
  handleService_http opt w c st = (Ok (w, c), st).
Proof.
  intros Hlen Hall Hr. unfold handleService_http. cbv zeta. rewrite Hlen.
  unfold handleService_httpKeys, range. cbv zeta. unfold bind at 1.
  rewrite httpKeys_from_strings by done. cbv beta iota.
  unfold routed, nameOf, sourceOf in Hr. cbv zeta in Hr. by rewrite Hr.
Qed.

(** The loop over the options of a method that leave no annotation:
    the text and the comment stay, and the options other than the routing
    option are warned about. *)
Lemma optionsLoop_unrouted (r : proto.RPC.t proto.Visitee) (l : list proto.Visitee) :
  forallb unroutedOption l = true ->
  forall (i : nat) (w : string) (c : option proto.Comment.t) (st : state),
  rangeFrom i l (optionsBody r) (w, c) st =
  (Ok (w, c),
   warned "method" (filter (fun opt => isRouting opt = false) (optionsAmong l)) st).
Proof.
  induction l as [|o l IH]; intros Hl i w c st; cbn [rangeFrom].
  - by rewrite warned_nil.
  - cbn [forallb] in Hl. apply andb_prop in Hl as [Ho Hl].
    destruct o; try discriminate. cbn [unroutedOption] in Ho.
    unfold bind at 1. cbv beta iota zeta. unfold switch, existsb.
    change (optionsAmong (proto.pOption o :: l)) with (o :: optionsAmong l).
    unfold isRouting in Ho.
    destruct (String.eqb (proto.Option.Name o) "(google.api.http)") eqn:Hn; cbn [orb].
    + cbv zeta in Ho. apply andb_prop in Ho as [Ho Hr]. apply andb_prop in Ho as [Hlen Hall].
      apply negb_true_iff in Hlen, Hr.
      rewrite (http_without_route o w c st Hlen Hall Hr).
      rewrite (IH Hl). rewrite filter_cons_False; [done|].
      unfold isRouting. by rewrite Hn.
    + unfold bind at 1. rewrite (warnAt_option "method") by solve_fmt. unfold ret at 1.
      rewrite (IH Hl). rewrite filter_cons_True by (unfold isRouting; by rewrite Hn).
      f_equal. symmetry. apply (warned_app "method" [o]).
Qed.

(** The loop of [handleService] over such methods and over options. *)
Lemma serviceLoop_unrouted (s : proto.Service.t proto.Visitee) (l : list proto.Visitee) :
  Forall (fun e => unrouted e = true) l ->
  forall (i : nat) (w : string) (st : state),
  rangeFrom i l (serviceBody s) w st =
  (Ok (w +:+ serviceLinesFrom i l),
   {| bld := bld st;
      stderr := stderr st ++ concat (map (serviceWarnings (filename (bld st))) l) |}).
Proof.
  induction 1 as [|e l He Hl IH]; intros i w st; cbn [rangeFrom].
  - simpl. rewrite StrFacts.app_nil_r, app_nil_r. by destruct st.
  - destruct e; try discriminate; cbv beta iota.
    + (* option of the service *)
      unfold bind at 1. unfold bind at 1. rewrite warnAt_run. unfold ret at 1.
      rewrite IH. simpl. rewrite <- app_assoc. do 3 f_equal.
      unfold optionWarning. simpl. by rewrite StrFacts.app_nil_r.
    + (* method *)
      cbn [unrouted] in He. unfold bind at 1. unfold handleService_rpc. cbv zeta.
      unfold bind at 1. unfold range. rewrite (optionsLoop_unrouted r _ He).
      unfold ret at 1. rewrite IH. cbn [serviceLinesFrom map concat serviceWarnings].
      unfold warned. cbn [bld stderr]. rewrite <- app_assoc. f_equal.
      rewrite <- StrFacts.app_assoc. do 2 f_equal.
      unfold rpcLine, emptyless.
      destruct (_ && _); rewrite !format_split; simpl; str_norm; reflexivity.
Qed.

(** X6.  A service whose elements are options and methods, the elements
    of each method being options, and in which every routing option has
    a map that is not empty, holds string literals only and gives no
    verb or no path: the service is translated, and the block is the
    comment, the interface and one line for each method, with nothing
    written for the type [google.protobuf.Empty] and a blank line before
    a method that is not the first element and has a comment or an
    option.  An option of the service and an option of a method other
    than the routing option give one warning each; the routing options
    are dropped without a warning; no import is marked. *)
Theorem handleService_without_routes (s : proto.Service.t proto.Visitee) (st : state) :
  Forall (fun e => unrouted e = true) (proto.Service.Elements s) ->
  handleService s st =
  appendDeclaration (serviceText s)
    {| bld := bld st;
       stderr := stderr st ++
                 concat (map (serviceWarnings (filename (bld st))) (proto.Service.Elements s)) |}.
Proof.
  intros Hs. unfold handleService. cbv zeta. unfold bind at 1. unfold range.
  rewrite (serviceLoop_unrouted s _ Hs). f_equal.
  unfold serviceText. rewrite !format_split. simpl. str_norm. reflexivity.
Qed.

(** X7.  After such elements, the first element of a service that is
    neither a method nor an option ends the translation of the service
    with an error that names its type and carries the position of the
    service; nothing is appended. *)
Theorem handleService_unexpected_element (s : proto.Service.t proto.Visitee)
    (pre : list proto.Visitee) (c : proto.Visitee) (post : list proto.Visitee) (st : state) :
  proto.Service.Elements s = pre ++ c :: post ->
  Forall (fun e => unrouted e = true) pre ->
  validInService c = false ->
  handleService s st =
  (Fail (Error (errorText (filename (bld st)) (proto.Service.Position s)
                  ("unexpected type " +:+ proto.typeName c +:+
                   " in service, expected rpc"))),
   {| bld := bld st;
      stderr := stderr st ++ concat (map (serviceWarnings (filename (bld st))) pre) |}).
Proof.
  intros He Hpre Hc. unfold handleService. cbv zeta. unfold range. rewrite He.
  unfold bind at 1. rewrite rangeFrom_app, (serviceLoop_unrouted s pre Hpre).
  cbn [rangeFrom]. unfold bind at 1.
  destruct c; try discriminate; cbv beta iota; rewrite failAt_run; simpl;
    by rewrite ?StrFacts.app_nil_r.
Qed.

End ServiceBlocks.

(** ** Routing options that are not maps of strings *)

Section RoutingErrors.

Context {rt : GoRuntime} {snk : Snaker}.

#[local] Existing Instance anyStep_preorder.

(** The loop over the entries of the map, up to the first literal that
    is not a string. *)
Lemma keysLoop_non_string (opt : proto.Option.t) (pre : list proto.NamedLiteral.t)
    (k : string) (lit : proto.Literal) (post : list proto.NamedLiteral.t) :
  allStrings pre = true ->
  proto.IsString lit = false ->
  forall (i : nat) (method url body : string) (st : state),
  rangeFrom i (pre ++ (k, lit) :: post) (keysBody opt) (method, url, body) st =
  (Fail (Error (errorText (filename (bld st)) (proto.Option.Position opt)
                  (if String.eqb k "body" then "option for body should be a string"
                   else "option for " +:+ strconv_Quote k +:+ " should be a string (url)"))),
   st).
Proof.
  intros Hpre Hlit i method url body st.
  rewrite rangeFrom_app, httpKeys_from_strings by done. cbn [rangeFrom].
  unfold switch, existsb, proto.NamedLiteral.Name, proto.NamedLiteral.Literal,
    handleLiteralString. cbn [fst snd]. rewrite Hlit. cbn [negb].
  unfold bind at 1.
  destruct (String.eqb k "body"); cbn [orb]; rewrite failAt_run; simpl;
    by rewrite ?StrFacts.app_nil_r.
Qed.

(** X8.  In the map of a routing option, the first entry whose literal is
    not a string ends the clause with an error at the position of the
    option: for the key [body] that the option for body should be a
    string, for any other key, quoted in the message, that it should be
    a string (url).  Nothing is written. *)
Theorem http_option_value_not_string (opt : proto.Option.t)
    (pre : list proto.NamedLiteral.t) (k : string) (lit : proto.Literal)
    (post : list proto.NamedLiteral.t) (w : string) (c : option proto.Comment.t) (st : state) :
  proto.OrderedMap (proto.Option.Constant opt) = pre ++ (k, lit) :: post ->
  allStrings pre = true ->
  proto.IsString lit = false ->
  handleService_http opt w c st =
  (Fail (Error (errorText (filename (bld st)) (proto.Option.Position opt)
                  (if String.eqb k "body" then "option for body should be a string"
                   else "option for " +:+ strconv_Quote k +:+ " should be a string (url)"))),
   st).
Proof.
  intros Hmap Hpre Hlit. unfold handleService_http. cbv zeta.
  replace (Nat.eqb _ 0) with false
    by (symmetry; apply Nat.eqb_neq; rewrite Hmap, length_app; simpl; lia).
  unfold handleService_httpKeys, range. cbv zeta. unfold bind at 1.
  rewrite Hmap. by rewrite (keysLoop_non_string opt pre k lit post Hpre Hlit).
Qed.

(** The clause for the routing option returns without error only for a
    map with an entry and with string literals only. *)
Lemma http_ok_wellformed (opt : proto.Option.t) (w w' : string)
    (c c' : option proto.Comment.t) (st st' : state) :
  handleService_http opt w c st = (Ok (w', c'), st') ->
  proto.OrderedMap (proto.Option.Constant opt) <> [] /\
  allStrings (proto.OrderedMap (proto.Option.Constant opt)) = true.
Proof.
  unfold handleService_http. cbv zeta.
  destruct (proto.OrderedMap (proto.Option.Constant opt)) as [|l m] eqn:Hm.
  - simpl. rewrite failAt_run. discriminate.
  - intros Hrun. split; [done|]. cbn [length Nat.eqb] in Hrun.
    destruct (allStrings (l :: m)) eqn:Hall; [done|]. exfalso.
    apply bind_inv_Ok in Hrun as (keys & st1 & Hkeys & _).
    assert (Hkeys' : rangeFrom 0 (l :: m) (keysBody opt) ("", "", "") st = (Ok keys, st1))
      by (rewrite <- Hm; exact Hkeys).
    destruct (httpKeys_from_other opt (l :: m) 0 "" "" "" st Hall) as (e & st2 & Hfail).
    rewrite Hfail in Hkeys'. discriminate.
Qed.

(** X9.  A service is translated only if the constant of every routing
    option of every method is a map with at least one entry whose
    literals are all strings. *)
Theorem handleService_routes_wellformed (s : proto.Service.t proto.Visitee) (st st' : state)
    (r : proto.RPC.t proto.Visitee) (opt : proto.Option.t) :
  handleService s st = (Ok tt, st') ->
  proto.pRPC r ∈ proto.Service.Elements s ->
  proto.pOption opt ∈ proto.RPC.Elements r ->
  proto.Option.Name opt = "(google.api.http)" ->
  proto.OrderedMap (proto.Option.Constant opt) <> [] /\
  allStrings (proto.OrderedMap (proto.Option.Constant opt)) = true.
Proof.
  unfold handleService. cbv zeta. intros Hrun Hr Hopt Hname.
  apply bind_inv_Ok in Hrun as (w1 & st1 & Hloop & _).
  destruct (rangeFrom_visits (fun _ _ => True) (serviceBody s) _ _
              (fun _ _ _ _ _ _ _ => I) Hr _ _ _ _ _ Hloop)
    as (j & wa & sta & wb & stb & Hstep & _).
  cbv beta iota in Hstep. unfold handleService_rpc in Hstep. cbv zeta in Hstep.
  apply bind_inv_Ok in Hstep as ([w2 c2] & st2 & Hopts & _).
  destruct (rangeFrom_visits (fun _ _ => True) (optionsBody r) _ _
              (fun _ _ _ _ _ _ _ => I) Hopt _ _ _ _ _ Hopts)
    as (k & [wc cc] & stc & [wd cd] & std & Hstep & _).
  cbv beta iota zeta in Hstep. rewrite Hname in Hstep.
  unfold switch, existsb in Hstep. cbn [String.eqb Ascii.eqb Bool.eqb orb andb] in Hstep.
  exact (http_ok_wellformed _ _ _ _ _ _ _ Hstep).
Qed.

End RoutingErrors.

(** ** The package clause *)

Section PackageText.

Context {rt : GoRuntime} {snk : Snaker}.

(** One step of the loop of [handlePackage] for a recognized option:
    [go_package] is kept, any other adds its annotation and marks its
    import. *)
Lemma handlePackage_option_step (opt : option proto.Option.t) (anns : list string)
    (o : proto.Option.t) (st : state) :
  recognized o = true ->
  handlePackage_option opt anns o st =
  match fileAnnotation o with
  | Some a => (Ok (opt, anns ++ [snd a]), snd (markImport (fst a) st))
  | None => (Ok (Some o, anns), st)
  end /\
  (fileAnnotation o = None <-> proto.Option.Name o = "go_package").
Proof.
  intros Hrec. unfold handlePackage_option, fileAnnotation, recognized, fileOptionNames in *.
  cbv zeta. unfold switch. unfold existsb in *. unfold annotatedFileOptions, assoc.
  repeat match goal with
  | |- context [String.eqb (proto.Option.Name o) ?s] =>
      let Hn := fresh "Hn" in
      destruct (String.eqb_spec (proto.Option.Name o) s) as [Hn|Hn];
      [rewrite Hn; unfold bind, markImport, getBuilder, setBuilder, ret; cbn;
       rewrite ?StrFacts.app_nil_r; split; [reflexivity|];
       split; intros H; discriminate || reflexivity|]
  end.
  cbn in Hrec.
  repeat match type of Hrec with
  | context [String.eqb (proto.Option.Name o) ?s] =>
      destruct (String.eqb_spec (proto.Option.Name o) s); [done|]
  end.
  discriminate.
Qed.

(** The loop over recognized options. *)
Lemma packageLoop_recognized (opts : list proto.Option.t) :
  forallb recognized opts = true ->
  forall (i : nat) (opt : option proto.Option.t) (anns : list string) (st : state),
  rangeFrom i opts (fun '(opt, gunkAnnotations) _ o =>
    handlePackage_option opt gunkAnnotations o) (opt, anns) st =
  (Ok (match goPackage opts with Some o => Some o | None => opt end,
       anns ++ map snd (omap fileAnnotation opts)),
   markAll (map fst (omap fileAnnotation opts)) st).
Proof.
  induction opts as [|o opts IH]; intros Hall i opt anns st; cbn [rangeFrom].
  - simpl. by rewrite app_nil_r.
  - cbn [forallb] in Hall. apply andb_prop in Hall as [Ho Hall].
    destruct (handlePackage_option_step opt anns o st Ho) as [Hstep Hgo].
    unfold bind at 1. rewrite Hstep. unfold goPackage. rewrite last_filter_cons.
    change (omap fileAnnotation (o :: opts))
      with (match fileAnnotation o with
            | Some y => y :: omap fileAnnotation opts
            | None => omap fileAnnotation opts
            end).
    destruct (fileAnnotation o) as [a|].
    + rewrite (IH Hall). cbn [map]. rewrite <- app_assoc.
      unfold goPackage.
      case_decide as Hname; [|by destruct (last (filter _ opts))].
      apply Hgo in Hname. discriminate.
    + rewrite (IH Hall). unfold goPackage.
      case_decide as Hname; [by destruct (last (filter _ opts))|].
      by destruct Hname; apply Hgo.
Qed.

(** The annotation lines, each handed to [format] as its format string. *)
Lemma annotationLines (anns : list string) (w : string) :
  fold_left (fun w ga => format w 0 None (Sprintf (go:"// +gunk %s\n") [aString ga]) [])
            anns w =
  w +:+ Str.join (map (fun ga => Sprintf ("// +gunk " +:+ ga +:+ go:"\n") []) anns).
Proof.
  revert w. induction anns as [|ga anns IH]; intros w; simpl.
  - by rewrite StrFacts.app_nil_r.
  - rewrite IH. rewrite format_split. simpl. rewrite ?StrFacts.app_nil_r. by str_norm.
Qed.

(** Marking imports changes nothing else. *)
Lemma markAll_bld (paths : list string) (st : state) :
  filename (bld (markAll paths st)) = filename (bld st) /\
  translatedDeclarations (bld (markAll paths st)) = translatedDeclarations (bld st) /\
  pkg (bld (markAll paths st)) = pkg (bld st) /\
  pkgOpts (bld (markAll paths st)) = pkgOpts (bld st) /\
  imports (bld (markAll paths st)) = imports (bld st) /\
  stderr (markAll paths st) = stderr st.
Proof.
  revert st. induction paths as [|x paths IH]; intros st; [done|].
  assert (Hc : markAll (x :: paths) st = markAll paths (snd (markImport x st)))
    by reflexivity.
  rewrite Hc. destruct (IH (snd (markImport x st))) as (-> & -> & -> & -> & -> & ->).
  done.
Qed.

(** [handlePackage] with recognized options: the text, or the nil
    package dereferenced. *)
Lemma handlePackage_run (st : state) :
  forallb recognized (pkgOpts (bld st)) = true ->
  handlePackage st =
  (match pkg (bld st) with
   | Some p => Ok (packageText p (pkgOpts (bld st)))
   | None => Fail NilDeref
   end,
   markAll (map fst (omap fileAnnotation (pkgOpts (bld st)))) st).
Proof.
  intros Hopts. unfold handlePackage. cbv zeta.
  unfold bind at 1, getBuilder at 1. unfold range.
  unfold bind at 1. rewrite (packageLoop_recognized _ Hopts). cbv beta iota.
  unfold bind at 1, getBuilder at 1.
  destruct (markAll_bld (map fst (omap fileAnnotation (pkgOpts (bld st)))) st)
    as (_ & _ & -> & _).
  destruct (pkg (bld st)) as [p|]; [|reflexivity].
  unfold ret. f_equal. f_equal.
  cbn [app]. rewrite annotationLines. unfold packageText. rewrite map_map.
  destruct (goPackage (pkgOpts (bld st))) as [o|]; cbn [from_option].
  - destruct (String.eqb (proto.Source (proto.Option.Constant o)) ""); cbn [negb];
      rewrite !format_split; simpl; str_norm; reflexivity.
  - rewrite !format_split; simpl; str_norm; reflexivity.
Qed.

(** X10.  With a package statement and recognized file options only,
    [handlePackage] returns no error.  The text is: one annotation line
    for each option other than [go_package], in the order of the
    options; the comment of the package; the comment of the last
    [go_package] option; the package clause; and the value of that
    option, unless empty, as a trailing comment.  The import of each
    annotated option is marked, and nothing else of the state changes. *)
Theorem handlePackage_text (p : proto.Package.t) (st : state) :
  pkg (bld st) = Some p ->
  forallb recognized (pkgOpts (bld st)) = true ->
  handlePackage st =
  (Ok (packageText p (pkgOpts (bld st))),
   markAll (map fst (omap fileAnnotation (pkgOpts (bld st)))) st).
Proof. intros Hp Hopts. rewrite (handlePackage_run st Hopts). by rewrite Hp. Qed.

End PackageText.

(** ** The outcome of [convertFile] *)

#[local] Instance samePreamble_preorder : PreOrder samePreamble.
Proof.
  split; [done|]. intros x y z [H1 H2] [H3 H4]. split; congruence.
Qed.

#[local] Instance sameImportsUsed_preorder : PreOrder sameImportsUsed.
Proof. split; [done|]. intros x y z. unfold sameImportsUsed. congruence. Qed.

Section Documents.

Context {rt : GoRuntime} {snk : Snaker}.

(** A message, an enum or a service leaves the package and the imports
    collected so far. *)
Lemma samePreamble_declaration (typ : proto.Visitee) :
  match typ with
  | proto.pMessage _ | proto.pEnum _ | proto.pService _ =>
      preserves samePreamble (handleProtoType typ)
  | _ => True
  end.
Proof.
  destruct typ; try exact I; unfold_translators; repeat preserves_step ltac:(done).
Qed.

(** The loop over the document keeps the last package statement and
    collects the imports in their order. *)
Lemma documentLoop_preamble (d : list proto.Visitee) :
  forall (i : nat) (st st' : state),
  rangeFrom i d documentBody tt st = (Ok tt, st') ->
  pkg (bld st') = match packageOf d with Some p => Some p | None => pkg (bld st) end /\
  imports (bld st') = imports (bld st) ++ importsOf d.
Proof.
  induction d as [|e d IH]; intros i st st' Hrun; cbn [rangeFrom] in Hrun.
  - injection Hrun as <-. simpl. by rewrite app_nil_r.
  - apply bind_inv_Ok in Hrun as ([] & st1 & Hstep & Hrest).
    apply IH in Hrest as [Hp Hi]. unfold onError in Hstep.
    assert (He : pkg (bld st1) = match e with proto.pPackage p => Some p | _ => pkg (bld st) end /\
                 imports (bld st1) = imports (bld st) ++ importsOf [e]).
    { pose proof (samePreamble_declaration e) as Hsame.
      destruct e;
        try (cbv in Hstep; discriminate);
        try (injection Hstep as <-; simpl; by rewrite ?app_nil_r);
        specialize (Hsame st); destruct (handleProtoType _ st) as [[[]|[err|]] st2];
        try discriminate; injection Hstep as <-; destruct Hsame as [H1 H2]; simpl in *;
        by rewrite ?app_nil_r. }
    destruct He as [Hp1 Hi1]. rewrite Hp, Hi, Hp1, Hi1. unfold packageOf, importsOf.
    destruct e; simpl; rewrite ?app_nil_r; try done.
    + rewrite last_cons. by destruct (last _).
    + by rewrite <- app_assoc.
Qed.

(** No option is left out exactly when all are recognized. *)
Lemma firstUnrecognized_None (opts : list proto.Option.t) :
  firstUnrecognized opts = None <-> forallb recognized opts = true.
Proof.
  unfold firstUnrecognized. induction opts as [|o opts IH]; [done|].
  rewrite filter_cons. cbn [forallb]. destruct (recognized o) eqn:Ho.
  - rewrite decide_False by done. by rewrite IH.
  - rewrite decide_True by done. done.
Qed.

(** The text that [convertFile] assembles from the package clause, the
    import block and the translated declarations. *)
(** The translated declarations, each between two newlines. *)
Lemma declarations_join (decls : list string) (w : string) :
  fold_left (fun w l => ((w +:+ go:"\n") +:+ l) +:+ go:"\n") decls w =
  w +:+ Str.join (map (fun l => go:"\n" +:+ l +:+ go:"\n") decls).
Proof.
  revert w. induction decls as [|l decls IH]; intros w; simpl.
  - by rewrite StrFacts.app_nil_r.
  - rewrite IH. by str_norm.
Qed.

(** The import block, empty when there is nothing to import. *)
Lemma handleImports_block (b : builder) :
  handleImports b =
  if Nat.eqb (size (importsUsed b)) 0 && Nat.eqb (length (imports b)) 0 then ""
  else importBlock (mapRange (importsUsed b)) (imports b).
Proof.
  unfold handleImports. destruct (_ && _); [done|]. cbv zeta.
  rewrite imports_loop, importsUsed_loop, !format_split. unfold importBlock. simpl.
  str_norm. reflexivity.
Qed.

(** The three stages of [convertFile]: the loop over the document,
    [handlePackage], and the assembly of the text. *)
Lemma convertFile_stages (fn : string) (d : list proto.Visitee) (st : state) :
  convertFile fn d st =
  match rangeFrom 0 d documentBody tt {| bld := newBuilder fn; stderr := stderr st |} with
  | (Ok _, st1) =>
      match handlePackage st1 with
      | (Ok translatedPkg, st2) =>
          (Ok (translatedPkg +:+ go:"\n\n" +:+
               (if String.eqb (handleImports (bld st2)) "" then ""
                else handleImports (bld st2) +:+ go:"\n") +:+
               Str.join (map (fun l => go:"\n" +:+ l +:+ go:"\n")
                             (translatedDeclarations (bld st2)))),
           st2)
      | (Fail e, st2) => (Fail e, st2)
      end
  | (Fail e, st1) => (Fail e, st1)
  end.
Proof.
  unfold convertFile. unfold bind at 1, setBuilder at 1. unfold bind at 1, range.
  destruct (rangeFrom 0 d _ tt _) as [[[]|e] st1]; [|done].
  unfold bind at 1. destruct (handlePackage st1) as [[translatedPkg|e] st2]; [|done].
  unfold bind, getBuilder, ret. f_equal. f_equal. rewrite declarations_join.
  destruct (String.eqb (handleImports (bld st2)) ""); simpl; by str_norm.
Qed.

(** *** The imports marked *)

(** Marking the routing import twice is marking it once. *)
Lemma markIf_markIf (b1 b2 : bool) (m : gmap string bool) :
  markIf b2 (markIf b1 m) = markIf (b1 || b2) m.
Proof. destruct b1, b2; try done. unfold markIf. by rewrite insert_insert_eq. Qed.

(** The loops of [handleService] mark the routing import exactly when
    they meet a routing option that gives a verb and a path. *)
Lemma optionsLoop_imports (r : proto.RPC.t proto.Visitee) (l : list proto.Visitee) :
  forall (i : nat) (acc acc' : string * option proto.Comment.t) (st st' : state),
  rangeFrom i l (optionsBody r) acc st = (Ok acc', st') ->
  importsUsed (bld st') = markIf (existsb routedOption l) (importsUsed (bld st)).
Proof.
  induction l as [|o l IH]; intros i [w c] acc' st st' Hrun; cbn [rangeFrom] in Hrun.
  - by injection Hrun as _ <-.
  - apply bind_inv_Ok in Hrun as ([w1 c1] & st1 & Hstep & Hrest).
    apply IH in Hrest. rewrite Hrest. cbn [existsb]. rewrite <- markIf_markIf. f_equal.
    destruct o; cbv beta iota zeta in Hstep; try (rewrite failAt_run in Hstep; discriminate).
    unfold switch, existsb in Hstep. cbn [routedOption]. unfold isRouting.
    destruct (String.eqb (proto.Option.Name o) "(google.api.http)"); cbn [orb andb] in *.
    + apply handleService_http_inv in Hstep. cbv zeta in Hstep. unfold routed.
      destruct (_ && _).
      * destruct Hstep as (_ & _ & Hmark).
        unfold markImport, bind, getBuilder, setBuilder in Hmark. by injection Hmark as <-.
      * by destruct Hstep as (_ & _ & ->).
    + unfold bind in Hstep. rewrite warnAt_run in Hstep. by injection Hstep as _ _ <-.
Qed.

Lemma serviceLoop_imports (s : proto.Service.t proto.Visitee) (l : list proto.Visitee) :
  forall (i : nat) (w w' : string) (st st' : state),
  rangeFrom i l (serviceBody s) w st = (Ok w', st') ->
  importsUsed (bld st') = markIf (existsb routedMethod l) (importsUsed (bld st)).
Proof.
  induction l as [|e l IH]; intros i w w' st st' Hrun; cbn [rangeFrom] in Hrun.
  - by injection Hrun as _ <-.
  - apply bind_inv_Ok in Hrun as (w1 & st1 & Hstep & Hrest).
    apply IH in Hrest. rewrite Hrest. cbn [existsb]. rewrite <- markIf_markIf. f_equal.
    destruct e; cbv beta iota in Hstep; try (rewrite failAt_run in Hstep; discriminate).
    + unfold bind in Hstep. rewrite warnAt_run in Hstep. by injection Hstep as _ <-.
    + unfold handleService_rpc in Hstep. cbv zeta in Hstep.
      apply bind_inv_Ok in Hstep as ([w2 c2] & st2 & Hopts & Hret).
      unfold ret in Hret. injection Hret as _ <-.
      exact (optionsLoop_imports r _ _ _ _ _ _ Hopts).
Qed.

(** Nothing but a service marks an import while the document is read. *)
Lemma sameImportsUsed_declaration (typ : proto.Visitee) :
  match typ with
  | proto.pService _ => True
  | _ => preserves sameImportsUsed (handleProtoType typ)
  end.
Proof.
  destruct typ; try exact I; unfold_translators; repeat preserves_step ltac:(done).
Qed.

Lemma documentLoop_imports (d : list proto.Visitee) :
  forall (i : nat) (st st' : state),
  rangeFrom i d documentBody tt st = (Ok tt, st') ->
  importsUsed (bld st') = markIf (existsb routedService d) (importsUsed (bld st)).
Proof.
  induction d as [|e d IH]; intros i st st' Hrun; cbn [rangeFrom] in Hrun.
  - by injection Hrun as <-.
  - apply bind_inv_Ok in Hrun as ([] & st1 & Hstep & Hrest).
    apply IH in Hrest. rewrite Hrest. cbn [existsb]. rewrite <- markIf_markIf. f_equal.
    unfold onError in Hstep.
    pose proof (sameImportsUsed_declaration e) as Hsame.
    destruct (handleProtoType e st) as [[[]|[err|]] st2] eqn:He; try discriminate.
    injection Hstep as ->.
    destruct e; try (specialize (Hsame st); rewrite He in Hsame; exact Hsame).
    cbn [routedService]. unfold handleProtoType, handleService in He. cbv zeta in He.
    apply bind_inv_Ok in He as (w1 & st2 & Hloop & Hend).
    unfold appendDeclaration, bind, getBuilder, setBuilder in Hend. injection Hend as <-.
    exact (serviceLoop_imports s _ _ _ _ _ _ Hloop).
Qed.

Lemma markAll_imports (paths : list string) (st : state) :
  importsUsed (bld (markAll paths st)) =
  fold_left (fun m path => <[path := true]> m) paths (importsUsed (bld st)).
Proof.
  revert st. induction paths as [|x paths IH]; intros st; [done|].
  assert (Hc : markAll (x :: paths) st = markAll paths (snd (markImport x st)))
    by reflexivity.
  rewrite Hc, IH. reflexivity.
Qed.

(** *** The outcome of [convertFile] *)

(** What the builder holds after the loop over the document. *)
Lemma documentLoop_collects (fn : string) (d : list proto.Visitee) (err : list string)
    (st1 : state) :
  rangeFrom 0 d documentBody tt {| bld := newBuilder fn; stderr := err |} = (Ok tt, st1) ->
  filename (bld st1) = fn /\
  translatedDeclarations (bld st1) = concat (map (blocksOf fn) d) /\
  pkg (bld st1) = packageOf d /\
  pkgOpts (bld st1) = fileOptions d /\
  imports (bld st1) = importsOf d /\
  importsUsed (bld st1) = markIf (existsb routedService d) ∅ /\
  Forall (translates fn) d.
Proof.
  intros Hloop.
  pose proof (documentLoop_options d 0 {| bld := newBuilder fn; stderr := err |}) as Hopts.
  rewrite Hloop in Hopts.
  destruct (documentLoop_preamble d _ _ _ Hloop) as [Hp Hi].
  pose proof (documentLoop_imports d _ _ _ Hloop) as Hu.
  apply documentLoop_blocks in Hloop as (Hf & Hd & Hall). simpl in *.
  repeat split; try done. by destruct (packageOf d).
Qed.

(** The loop over the document dereferences no nil pointer. *)
Lemma documentLoop_no_panic (d : list proto.Visitee) (i : nat) (st st' : state) :
  rangeFrom i d documentBody tt st <> (Fail NilDeref, st').
Proof.
  intros Hrun. pose proof (documentLoop_options d i st) as H. by rewrite Hrun in H.
Qed.

(** Where the declarations are translated and the file options
    recognized, [convertFile] returns the text below, or dereferences the
    nil package. *)
Lemma convertFile_translated (fn : string) (d : list proto.Visitee) (st : state) :
  Forall (translates fn) d ->
  firstUnrecognized (fileOptions d) = None ->
  exists st',
    convertFile fn d st =
    (match packageOf d with
     | Some p => Ok (documentText fn p d)
     | None => Fail NilDeref
     end, st') /\
    importsUsed (bld st') = usedImports d.
Proof.
  intros Hall Hfirst. rewrite convertFile_stages.
  destruct (documentLoop_ok d 0 {| bld := newBuilder fn; stderr := stderr st |} Hall)
    as [st1 Hloop].
  rewrite Hloop. apply documentLoop_collects in Hloop as (_ & Hd & Hp & Ho & Hi & Hu & _).
  apply firstUnrecognized_None in Hfirst. rewrite <- Ho in Hfirst.
  rewrite (handlePackage_run st1 Hfirst), Hp, Ho.
  set (st2 := markAll _ st1).
  assert (Hu2 : importsUsed (bld st2) = usedImports d)
    by (unfold st2, usedImports; by rewrite markAll_imports, Hu).
  exists st2. split; [|exact Hu2].
  destruct (packageOf d) as [p|]; [|reflexivity].
  do 2 f_equal. unfold documentText.
  destruct (markAll_bld (map fst (omap fileAnnotation (fileOptions d))) st1)
    as (_ & Hd' & _ & _ & Hi' & _).
  fold st2 in Hd', Hi'. rewrite handleImports_block, Hd', Hi', Hd, Hi, Hu2.
  destruct (_ && _); [reflexivity|].
  match goal with |- context [String.eqb (importBlock ?a ?b) ""] =>
    change (String.eqb (importBlock a b) "") with false
  end.
  reflexivity.
Qed.

(** Where [convertFile] returns no error, the declarations are
    translated and the file options recognized. *)
Lemma convertFile_no_error (fn : string) (d : list proto.Visitee) (st : state)
    (r : result string) (st' : state) :
  convertFile fn d st = (r, st') ->
  (forall msg, r <> Fail (Error msg)) ->
  Forall (translates fn) d /\ firstUnrecognized (fileOptions d) = None.
Proof.
  rewrite convertFile_stages. intros Hrun Hr.
  destruct (rangeFrom 0 d _ tt _) as [[[]|[msg|]] st1] eqn:Hloop.
  - apply documentLoop_collects in Hloop as (_ & _ & _ & Ho & _ & _ & Hall).
    split; [done|].
    destruct (firstUnrecognized (fileOptions d)) as [o|] eqn:Hfirst; [|done].
    rewrite <- Ho in Hfirst.
    destruct (handlePackage_unrecognized st1 o Hfirst) as [st2 Hpkg].
    rewrite Hpkg in Hrun. injection Hrun as <- _. by destruct (Hr _ eq_refl).
  - injection Hrun as <- _. by destruct (Hr msg eq_refl).
  - by apply documentLoop_no_panic in Hloop.
Qed.

(** X11.  [convertFile] returns a text exactly for the documents in which
    every declaration is translated by a new builder, every file option
    is recognized and there is a package statement. *)
Theorem convertFile_succeeds_iff (fn : string) (d : list proto.Visitee) (st : state) :
  (exists out st', convertFile fn d st = (Ok out, st')) <->
  Forall (translates fn) d /\
  firstUnrecognized (fileOptions d) = None /\
  is_Some (packageOf d).
Proof.
  split.
  - intros (out & st' & Hrun).
    destruct (convertFile_no_error fn d st _ _ Hrun) as [Hall Hfirst]; [done|].
    split; [done|]. split; [done|].
    destruct (convertFile_translated fn d st Hall Hfirst) as (st2 & Hrun2 & _).
    rewrite Hrun in Hrun2. by destruct (packageOf d).
  - intros (Hall & Hfirst & [p Hp]).
    destruct (convertFile_translated fn d st Hall Hfirst) as (st2 & Hrun2 & _).
    rewrite Hp in Hrun2. by eexists _, _.
Qed.

(** X12.  [convertFile] dereferences the nil package exactly for the
    documents in which every declaration is translated and every file
    option is recognized but there is no package statement. *)
Theorem convertFile_panics_iff (fn : string) (d : list proto.Visitee) (st : state) :
  (exists st', convertFile fn d st = (Fail NilDeref, st')) <->
  Forall (translates fn) d /\
  firstUnrecognized (fileOptions d) = None /\
  packageOf d = None.
Proof.
  split.
  - intros (st' & Hrun).
    destruct (convertFile_no_error fn d st _ _ Hrun) as [Hall Hfirst]; [done|].
    split; [done|]. split; [done|].
    destruct (convertFile_translated fn d st Hall Hfirst) as (st2 & Hrun2 & _).
    rewrite Hrun in Hrun2. by destruct (packageOf d).
  - intros (Hall & Hfirst & Hp).
    destruct (convertFile_translated fn d st Hall Hfirst) as (st2 & Hrun2 & _).
    rewrite Hp in Hrun2. by eexists.
Qed.

(** X13.  The text that [convertFile] returns: the package clause of the
    last package statement with the file options of the document, an
    empty line, the import block unless there is nothing to import, and
    the blocks of the declarations in the order of the document, each
    between two newlines. *)
Theorem convertFile_output (fn : string) (d : list proto.Visitee) (st : state)
    (out : string) (st' : state) :
  convertFile fn d st = (Ok out, st') ->
  exists p, packageOf d = Some p /\ out = documentText fn p d.
Proof.
  intros Hrun.
  destruct (convertFile_no_error fn d st _ _ Hrun) as [Hall Hfirst]; [done|].
  destruct (convertFile_translated fn d st Hall Hfirst) as (st2 & Hrun2 & _).
  rewrite Hrun in Hrun2. destruct (packageOf d) as [p|]; [|discriminate].
  exists p. split; [done|]. by injection Hrun2 as ->.
Qed.

(** X14.  The imports written by a translation are the routing import, if
    and only if a method of a service carries a routing option that
    gives a verb and a path, and the imports of the annotated file
    options; messages and enums add none. *)
Theorem convertFile_imports_used (fn : string) (d : list proto.Visitee) (st : state)
    (out : string) (st' : state) :
  convertFile fn d st = (Ok out, st') ->
  importsUsed (bld st') = usedImports d.
Proof.
  intros Hrun.
  destruct (convertFile_no_error fn d st _ _ Hrun) as [Hall Hfirst]; [done|].
  destruct (convertFile_translated fn d st Hall Hfirst) as (st2 & Hrun2 & Hu).
  rewrite Hrun in Hrun2. by injection Hrun2 as _ ->.
Qed.

(** The loop over the document stops at the first declaration that is
    not translated, with its error and a newline. *)
Lemma documentLoop_first_failure (fn : string) (pre : list proto.Visitee) (e : proto.Visitee)
    (post : list proto.Visitee) (msg : string) (st : state) :
  filename (bld st) = fn ->
  Forall (translates fn) pre ->
  fst (handleProtoType e (fresh fn)) = Fail (Error msg) ->
  exists st', rangeFrom 0 (pre ++ e :: post) documentBody tt st =
              (Fail (Error (msg +:+ go:"\n")), st').
Proof.
  intros Hfn Hpre He. rewrite rangeFrom_app.
  assert (Hpre' : Forall (fun e => fst (handleProtoType e (fresh (filename (bld st)))) = Ok tt)
                         pre) by by rewrite Hfn.
  destruct (documentLoop_ok pre 0 st Hpre') as [st1 Hloop]. rewrite Hloop.
  apply documentLoop_blocks in Hloop as (Hf & _).
  cbn [rangeFrom]. unfold bind at 1, onError at 1.
  pose proof (framed_handleProtoType e st1) as (Hr & _). rewrite Hf, Hfn, He in Hr.
  destruct (handleProtoType e st1) as [r st2]. cbn [fst] in Hr. subst r.
  exists st2. unfold fail. simpl. by rewrite ?StrFacts.app_nil_r.
Qed.

(** X15.  [convertFile] returns the error of the first declaration that is
    not translated, followed by a newline; the declarations after it,
    the file options and the package statement play no part. *)
Theorem convertFile_first_failure (fn : string) (pre : list proto.Visitee) (e : proto.Visitee)
    (post : list proto.Visitee) (msg : string) (st : state) :
  Forall (translates fn) pre ->
  fst (handleProtoType e (fresh fn)) = Fail (Error msg) ->
  fst (convertFile fn (pre ++ e :: post) st) = Fail (Error (msg +:+ go:"\n")).
Proof.
  intros Hpre He. rewrite convertFile_stages.
  destruct (documentLoop_first_failure fn pre e post msg
              {| bld := newBuilder fn; stderr := stderr st |} eq_refl Hpre He) as [st' ->].
  reflexivity.
Qed.

(** X16.  An element at the top of the document for which
    [handleProtoType] has no clause (a comment that stands alone, an
    extension, ...) makes [convertFile] return an error that names its
    type, without a position. *)
Theorem convertFile_unhandled_declaration (fn : string) (pre : list proto.Visitee)
    (e : proto.Visitee) (post : list proto.Visitee) (st : state) :
  Forall (translates fn) pre ->
  handled e = false ->
  fst (convertFile fn (pre ++ e :: post) st) =
  Fail (Error ("unhandled proto type " +:+ proto.typeName e +:+ go:"\n")).
Proof.
  intros Hpre He. rewrite convertFile_stages.
  assert (Hfail : fst (handleProtoType e (fresh fn)) =
                  Fail (Error ("unhandled proto type " +:+ proto.typeName e)))
    by (destruct e; try discriminate; cbn; by rewrite ?StrFacts.app_nil_r).
  destruct (documentLoop_first_failure fn pre e post _
              {| bld := newBuilder fn; stderr := stderr st |} eq_refl Hpre Hfail) as [st' ->].
  cbn [fst]. by rewrite StrFacts.app_assoc.
Qed.

End Documents.

(** ** Declarations one by one *)

Section Declarations.

Context {rt : GoRuntime} {snk : Snaker}.

(** X17.  What [handleProtoType] returns for a declaration, and the
    blocks it appends, are those of a new builder for the same file:
    nothing translated before has a part in them. *)
Theorem declaration_translated_alone (typ : proto.Visitee) (st : state) :
  fst (handleProtoType typ st) = fst (handleProtoType typ (fresh (filename (bld st)))) /\
  filename (bld (snd (handleProtoType typ st))) = filename (bld st) /\
  translatedDeclarations (bld (snd (handleProtoType typ st))) =
    translatedDeclarations (bld st) ++ blocksOf (filename (bld st)) typ.
Proof. exact (framed_handleProtoType typ st). Qed.

(** X18.  [handleProtoType] on a message, an enum or a service
    dereferences no nil pointer, and an error it returns starts with the
    name of the file, a line and a column. *)
Theorem declaration_error_positioned (typ : proto.Visitee) (st : state) :
  isDeclaration typ = true ->
  match fst (handleProtoType typ st) with
  | Ok _ => True
  | Fail (Error msg) => exists pos inner, msg = errorText (filename (bld st)) pos inner
  | Fail NilDeref => False
  end.
Proof.
  intros Hd. pose proof (positioned_declaration typ) as Hpos.
  destruct typ; try discriminate; exact (proj2 (Hpos st)).
Qed.

End Declarations.

(** ** Extensions and file names *)

Section Names.

(** Reversal onto a string, and of a reversal. *)
Lemma rev_app_app (s t : string) : String.rev_app s t = String.rev_app s "" +:+ t.
Proof.
  revert t. induction s as [|c s IH]; intros t; simpl; [done|].
  rewrite IH, (IH (String c "")). by rewrite StrFacts.app_assoc.
Qed.

(** The extension found by the loop is a suffix of the path. *)
Lemma Ext_from_suffix (back seen : string) :
  filepath.Ext_from seen back <> "" ->
  exists back', String.rev_app back seen = String.rev_app back' (filepath.Ext_from seen back).
Proof.
  revert seen. induction back as [|c back IH]; intros seen; simpl; [done|].
  destruct (Ascii.eqb c "/"); [done|].
  destruct (Ascii.eqb c "."); [intros _; by exists back|].
  apply IH.
Qed.

Lemma rev_rev_app (s t u : string) :
  String.rev_app (String.rev_app s t) u = String.rev_app t (s +:+ u).
Proof.
  revert t u. induction s as [|c s IH]; intros t u; simpl; [done|]. by rewrite IH.
Qed.

(** A path with an extension ends with it. *)
Lemma Ext_suffix (path : string) :
  filepath.Ext path <> "" -> exists pre, path = pre +:+ filepath.Ext path.
Proof.
  unfold filepath.Ext. intros He. destruct (Ext_from_suffix _ _ He) as [back' Hb].
  unfold String.rev in Hb at 1. rewrite rev_rev_app in Hb. simpl in Hb.
  rewrite StrFacts.app_nil_r in Hb.
  exists (String.rev_app back' ""). by rewrite <- rev_app_app.
Qed.

(** The last element of a path that ends in [.proto]. *)
Lemma lastElem_proto (cur s : string) :
  filepath.lastElem cur (s +:+ ".proto") = filepath.lastElem cur s +:+ ".proto".
Proof.
  revert cur. induction s as [|c s IH]; intros cur; simpl.
  - by rewrite !StrFacts.app_assoc.
  - destruct (Ascii.eqb c "/"); apply IH.
Qed.

(** A string with the prefix [a] is [a] followed by a rest. *)
Lemma prefix_inv (a s : string) : String.prefix a s = true -> exists s', s = a +:+ s'.
Proof.
  revert s. induction a as [|c a IH]; intros s; [by exists s|].
  destruct s as [|d s]; simpl; [done|]. destruct (ascii_dec c d) as [->|_]; [|done].
  intros H. destruct (IH s H) as [s' ->]. by exists s'.
Qed.

(** An occurrence of [.proto] that starts in [s] lies in [s]: it does not
    run over into a following [.proto]. *)
Lemma prefix_proto_app (c : ascii) (s : string) :
  String.prefix ".proto" (String c s +:+ ".proto") = String.prefix ".proto" (String c s).
Proof.
  cbn [String.append String.prefix].
  destruct (ascii_dec "." c) as [<-|]; [|done].
  do 5 (destruct s as [|? s]; [reflexivity|];
        cbn [String.append String.prefix];
        match goal with
        | |- context [ascii_dec ?x ?y] => destruct (ascii_dec x y) as [<-|]; [|reflexivity]
        end).
  by destruct s.
Qed.

End Names.

(** ** The file written *)

Section Targets.

Context {os : OS}.

(** The first [.proto] of a name that ends in [.proto]: inside the rest
    of the name if there is one, the extension otherwise. *)
Lemma ReplaceFirst_proto (stem : string) :
  Str.ReplaceFirst (stem +:+ ".proto") ".proto" ".gunk" =
  if Str.containsb ".proto" stem then Str.ReplaceFirst stem ".proto" ".gunk" +:+ ".proto"
  else stem +:+ ".gunk".
Proof.
  induction stem as [|c stem IH]; [reflexivity|].
  change (String c stem +:+ ".proto") with (String c (stem +:+ ".proto")).
  cbn [Str.ReplaceFirst Str.containsb].
  change (String c (stem +:+ ".proto")) with (String c stem +:+ ".proto").
  rewrite prefix_proto_app.
  destruct (String.prefix ".proto" (String c stem)) eqn:Hp; cbn [orb].
  - destruct (prefix_inv _ _ Hp) as [s' Hs]. rewrite Hs. reflexivity.
  - rewrite IH. by destruct (Str.containsb ".proto" stem).
Qed.

(** X19.  For a path with the extension [.proto], the file written is in
    the directory of the path, and its name is the last element of the
    path with its first [.proto] replaced by [.gunk]: the extension when
    the rest of the name does not contain [.proto], and otherwise an
    occurrence inside the name, the extension staying [.proto]. *)
Theorem gunk_file_name (path : string) :
  filepath.Ext path = ".proto" ->
  exists stem,
    filepath.Base path = stem +:+ ".proto" /\
    targetOf path =
      filepath_Join (filepath_Dir path)
        (if Str.containsb ".proto" stem
         then Str.ReplaceFirst stem ".proto" ".gunk" +:+ ".proto"
         else stem +:+ ".gunk").
Proof.
  intros He. destruct (Ext_suffix path) as [pre Hpre]; [by rewrite He|].
  rewrite He in Hpre. exists (filepath.lastElem "" pre).
  assert (Hb : filepath.Base path = filepath.lastElem "" pre +:+ ".proto").
  { unfold filepath.Base. rewrite Hpre.
    replace (String.eqb (pre +:+ ".proto") "") with false by (by destruct pre).
    apply lastElem_proto. }
  split; [exact Hb|]. unfold targetOf. rewrite Hb. f_equal. apply ReplaceFirst_proto.
Qed.

End Targets.

(** ** Files and folders *)

Section OnDiskSpec.

Context {rt : GoRuntime} {snk : Snaker} {os : OS}.

(** X20.  Without [overwrite], a file that is there already is not
    written over: where [os.Stat] of the path to write returns a
    description, or an error other than that the file does not exist,
    [convertFile] returns an error and leaves the file system and the
    error stream as they were. *)
Theorem convertFile_keeps_existing (path : string) (w : world) :
  IsNotExist (os_Stat (targetOf path) (fs w)) = false ->
  exists msg, OnDisk.convertFile path false w = (Fail (Error msg), w).
Proof.
  intros Hstat. unfold OnDisk.convertFile.
  destruct (negb (String.eqb (filepath.Ext path) ".proto")); [by eexists|].
  destruct (os_Open path (fs w)) as [reader|err]; [|by eexists].
  destruct (parser_Parse reader) as [d|err]; [|by eexists].
  cbv zeta. fold (targetOf path). rewrite Hstat. by eexists.
Qed.

(** X21.  [convertFile] leaves the file system as it was, or as
    [ioutil.WriteFile] leaves it for the path to write and the
    formatted translation of the document parsed: it writes nothing
    unless reading, parsing, translating and formatting all went
    through, and it writes at one path.  Where it returns no error, that
    write was made and returned no error. *)
Theorem convertFile_writes_translation (path : string) (overwrite : bool) (w : world) :
  (fs (snd (OnDisk.convertFile path overwrite w)) = fs w \/
   exists reader d text st result,
     os_Open path (fs w) = inl reader /\
     parser_Parse reader = inl d /\
     convertFile (filepath.Base path) d
       {| bld := newBuilder (filepath.Base path); stderr := console w |} = (Ok text, st) /\
     format_Source text = inl result /\
     fs (snd (OnDisk.convertFile path overwrite w)) =
       fst (ioutil_WriteFile (targetOf path) result (fs w))) /\
  (fst (OnDisk.convertFile path overwrite w) = Ok tt ->
   exists reader d text st result,
     os_Open path (fs w) = inl reader /\
     parser_Parse reader = inl d /\
     convertFile (filepath.Base path) d
       {| bld := newBuilder (filepath.Base path); stderr := console w |} = (Ok text, st) /\
     format_Source text = inl result /\
     ioutil_WriteFile (targetOf path) result (fs w) =
       (fs (snd (OnDisk.convertFile path overwrite w)), None)).
Proof.
  unfold OnDisk.convertFile.
  destruct (negb (String.eqb (filepath.Ext path) ".proto")); [by split; [left|]|].
  destruct (os_Open path (fs w)) as [reader|err] eqn:Hopen; [|by split; [left|]].
  destruct (parser_Parse reader) as [d|err] eqn:Hparse; [|by split; [left|]].
  cbv zeta. fold (targetOf path).
  destruct (_ && _); [by split; [left|]|].
  destruct (convertFile _ d _) as [[text|e] st] eqn:Hconv; [|by split; [left|]].
  destruct (format_Source text) as [result|err] eqn:Hfmt; [|by split; [left|]].
  destruct (ioutil_WriteFile _ result _) as [fs' [err|]] eqn:Hwrite.
  - split; [|done]. right. exists reader, d, text, st, result.
    repeat split; try done. by rewrite Hwrite.
  - split; [right|intros _]; exists reader, d, text, st, result;
      repeat split; try done; by rewrite Hwrite.
Qed.

(** The loop of [run] converts the entries that are files with the
    extension [.proto] and passes the others by. *)
Lemma run_files_convertAll (path : string) (files : list FileInfo.t) (overwrite : bool) :
  forall w : world,
  OnDisk.run_files path files overwrite w =
  convertAll (map (fun f => filepath_Join path (FileInfo.Name f)) (protoFiles files))
    overwrite w.
Proof.
  unfold protoFiles. induction files as [|f files IH]; intros w; [reflexivity|].
  cbn [OnDisk.run_files]. rewrite filter_cons.
  destruct (FileInfo.IsDir f) eqn:Hdir; cbn [orb].
  { rewrite decide_False by (intros [? _]; done). apply IH. }
  destruct (String.eqb_spec (filepath.Ext (FileInfo.Name f)) ".proto") as [He|He]; cbn [negb].
  - rewrite decide_True by done. cbn [map convertAll].
    destruct (OnDisk.convertFile _ overwrite w) as [[[]|e] w']; [apply IH|done].
  - rewrite decide_False by (intros [_ ?]; done). apply IH.
Qed.

(** X22.  For a directory whose name does not end in [.proto], [run]
    converts the entries of the directory that are not directories and
    have the extension [.proto], each at its path in the directory, in
    the order of [ioutil.ReadDir] and up to the first error; the other
    entries are passed by, and so is the error of [ioutil.ReadDir]. *)
Theorem run_directory (path : string) (overwrite : bool) (w : world) (fi : FileInfo.t) :
  os_Stat path (fs w) = statInfo fi ->
  FileInfo.IsDir fi = true ->
  filepath.Ext path <> ".proto" ->
  OnDisk.run path overwrite w =
  convertAll (map (fun f => filepath_Join path (FileInfo.Name f))
                  (protoFiles (fst (ioutil_ReadDir path (fs w)))))
    overwrite w.
Proof.
  intros Hstat Hdir Hext. unfold OnDisk.run. rewrite Hstat, Hdir. cbn [negb].
  apply String.eqb_neq in Hext. rewrite Hext.
  destruct (ioutil_ReadDir path (fs w)) as [files err]. apply run_files_convertAll.
Qed.

(** X23.  [Run] goes through the paths in their order and stops at the
    first that [run] returns an error for: on two lists one after the
    other it is [Run] on the first and, where that returns no error,
    [Run] on the second from the state reached. *)
Theorem Run_app (paths more : list string) (overwrite : bool) (w : world) :
  OnDisk.Run (paths ++ more) overwrite w =
  match OnDisk.Run paths overwrite w with
  | (Ok _, w') => OnDisk.Run more overwrite w'
  | (Fail e, w') => (Fail e, w')
  end.
Proof.
  revert w. induction paths as [|path paths IH]; intros w; [reflexivity|].
  cbn [app OnDisk.Run].
  destruct (OnDisk.run path overwrite w) as [[[]|e] w']; [apply IH|done].
Qed.

End OnDiskSpec.

(** ** The samples *)

Section DeclarationSamples.

#[local] Existing Instances Ref.refRuntime Ref.refSnaker Mem.memOS.

(** The enum with an option in front of its two values. *)
Lemma handleEnum_values_and_options_witness :
  handleEnum Sample.enumAfterOption Ref.state0 =
  appendDeclaration (enumText Sample.enumAfterOption)
    (warned "enumvalue" (enumValueOptions (enumValues Sample.enumAfterOption))
       (warned "enum" (optionsAmong (proto.Enum.Elements Sample.enumAfterOption))
          Ref.state0)).
Proof.
  apply (handleEnum_values_and_options Sample.enumAfterOption Ref.state0).
  repeat constructor.
Defined.

(** The enum with a comment that stands alone in front of its value. *)
Lemma handleEnum_unexpected_element_witness :
  handleEnum Sample.enumWithComment Ref.state0 =
  (Fail (Error (errorText "" (Ref.pos 2 1)
                  "unexpected type *proto.Comment in enum, expected enum field")),
   warned "enum" (optionsAmong []) Ref.state0).
Proof.
  apply (handleEnum_unexpected_element Sample.enumWithComment []
           Sample.loneComment [Sample.enumField "A" 0] Ref.state0);
    [reflexivity | constructor | reflexivity].
Defined.

(** The sample message: two fields around a nested enum. *)
Lemma handleMessage_block_witness :
  exists st',
    handleMessage Sample.message Ref.state0 = (Ok tt, st') /\
    translatedDeclarations (bld st') =
      translatedDeclarations (bld Ref.state0) ++
      concat (map nestedEnumBlocks (proto.Message.Elements Sample.message)) ++
      [messageText Sample.message].
Proof.
  apply (handleMessage_block Sample.message Ref.state0). repeat constructor.
Defined.

(** A message with a nested enum and a oneof. *)
Lemma handleMessage_unexpected_element_witness :
  exists st',
    handleMessage Sample.oneofMessage Ref.state0 =
    (Fail (Error (errorText "" (Ref.pos 2 1) "unexpected type *proto.Oneof in message")), st') /\
    translatedDeclarations (bld st') =
      translatedDeclarations (bld Ref.state0) ++
      concat (map nestedEnumBlocks [proto.pEnum Sample.status]).
Proof.
  apply (handleMessage_unexpected_element Sample.oneofMessage [proto.pEnum Sample.status]
           proto.pOneof [] Ref.state0);
    [reflexivity | repeat constructor | reflexivity].
Defined.

(** A service with an option, and a method with a routing option that
    has a body only and with another option. *)
Lemma handleService_without_routes_witness :
  handleService Sample.plainService Ref.state0 =
  appendDeclaration (serviceText Sample.plainService)
    {| bld := bld Ref.state0;
       stderr := stderr Ref.state0 ++
                 concat (map (serviceWarnings (filename (bld Ref.state0)))
                             (proto.Service.Elements Sample.plainService)) |}.
Proof.
  apply (handleService_without_routes Sample.plainService Ref.state0). repeat constructor.
Defined.

(** A routing option whose second entry holds an identifier. *)
Lemma http_option_value_not_string_witness :
  handleService_http Sample.postIdent "" None Ref.state0 =
  (Fail (Error (errorText (filename (bld Ref.state0)) (proto.Option.Position Sample.postIdent)
                  (if String.eqb "post" "body" then "option for body should be a string"
                   else "option for " +:+ strconv_Quote "post" +:+
                        " should be a string (url)"))),
   Ref.state0).
Proof.
  apply (http_option_value_not_string Sample.postIdent [("get", Ref.str "/v1/echo")]
           "post" (Ref.ident "echo") [] "" None Ref.state0); reflexivity.
Defined.

(** The sample service and its routing option. *)
Lemma handleService_routes_wellformed_witness :
  proto.OrderedMap (proto.Option.Constant
    (Sample.http [("get", Ref.str "/v1/echo"); ("body", Ref.str "*")])) <> [] /\
  allStrings (proto.OrderedMap (proto.Option.Constant
    (Sample.http [("get", Ref.str "/v1/echo"); ("body", Ref.str "*")]))) = true.
Proof.
  apply (handleService_routes_wellformed Sample.echoService Ref.state0
           (snd (handleService Sample.echoService Ref.state0))
           (Sample.echo [Sample.http [("get", Ref.str "/v1/echo"); ("body", Ref.str "*")]])
           (Sample.http [("get", Ref.str "/v1/echo"); ("body", Ref.str "*")]));
    [reflexivity | apply list_elem_of_here | apply list_elem_of_here | reflexivity].
Defined.

(** The package [util] with the options [java_package], [go_package]
    and [deprecated]. *)
Lemma handlePackage_text_witness :
  handlePackage {| bld := Sample.afterOptions Sample.javaOptions; stderr := [] |} =
  (Ok (packageText Sample.package Sample.javaOptions),
   markAll (map fst (omap fileAnnotation Sample.javaOptions))
     {| bld := Sample.afterOptions Sample.javaOptions; stderr := [] |}).
Proof.
  apply (handlePackage_text Sample.package
           {| bld := Sample.afterOptions Sample.javaOptions; stderr := [] |});
    reflexivity.
Defined.

(** The text of the sample document. *)
Lemma convertFile_output_witness :
  exists p,
    packageOf Sample.document = Some p /\
    go:"package util\n\nimport (\n\t\'github.com/gunk/opt/http\'\n)\n\ntype E int\n\nconst (\n\tA E = iota\n\tB\n)\n\ntype Status int\n\nconst (\n\tUnknown Status = iota\n\tError\n)\n\ntype Message struct {\n\tMsg string `pb:\'1\' json:\'msg\'`\n\tTags []string `pb:\'4\' json:\'tags\'`\n}\n\ntype Util interface {\n\t// +gunk http.Match{\n\t//     Method: \'GET\',\n\t//     Path: \'/v1/echo\',\n\t//     Body: \'*\',\n\t// }\n\tEcho(Message) \n}\n" =
    documentText "util.proto" p Sample.document.
Proof.
  exact (convertFile_output "util.proto" Sample.document Ref.state0 _ _ document_translated).
Defined.

(** The imports of the sample document. *)
Lemma convertFile_imports_used_witness :
  importsUsed (bld (snd (convertFile "util.proto" Sample.document Ref.state0))) =
  usedImports Sample.document.
Proof.
  exact (convertFile_imports_used "util.proto" Sample.document Ref.state0 _ _
           document_translated).
Defined.

(** A document with the message that holds a oneof. *)
Lemma convertFile_first_failure_witness :
  fst (convertFile "util.proto"
         ([proto.pSyntax; proto.pPackage Sample.package] ++
          proto.pMessage Sample.oneofMessage :: [proto.pMessage Sample.message])
         Ref.state0) =
  Fail (Error (errorText "util.proto" (Ref.pos 2 1) "unexpected type *proto.Oneof in message"
               +:+ go:"\n")).
Proof.
  apply (convertFile_first_failure "util.proto" [proto.pSyntax; proto.pPackage Sample.package]
           (proto.pMessage Sample.oneofMessage) [proto.pMessage Sample.message]
           (errorText "util.proto" (Ref.pos 2 1) "unexpected type *proto.Oneof in message")
           Ref.state0);
    [repeat constructor | reflexivity].
Defined.

(** A document with a comment that stands alone after the package. *)
Lemma convertFile_unhandled_declaration_witness :
  fst (convertFile "util.proto"
         ([proto.pSyntax; proto.pPackage Sample.package] ++
          Sample.loneComment :: [proto.pMessage Sample.message])
         Ref.state0) =
  Fail (Error ("unhandled proto type " +:+ proto.typeName Sample.loneComment +:+ go:"\n")).
Proof.
  apply (convertFile_unhandled_declaration "util.proto"
           [proto.pSyntax; proto.pPackage Sample.package]
           Sample.loneComment [proto.pMessage Sample.message] Ref.state0);
    [repeat constructor | reflexivity].
Defined.

(** A service with a comment that stands alone after its method. *)
Lemma handleService_unexpected_element_witness :
  handleService Sample.commentedService Ref.state0 =
  (Fail (Error (errorText (filename (bld Ref.state0))
                  (proto.Service.Position Sample.commentedService)
                  ("unexpected type " +:+ proto.typeName Sample.loneComment +:+
                   " in service, expected rpc"))),
   {| bld := bld Ref.state0;
      stderr := stderr Ref.state0 ++
                concat (map (serviceWarnings (filename (bld Ref.state0)))
                            [proto.pRPC (Sample.echo [])]) |}).
Proof.
  apply (handleService_unexpected_element Sample.commentedService
           [proto.pRPC (Sample.echo [])] Sample.loneComment [] Ref.state0);
    [reflexivity | repeat constructor | reflexivity].
Defined.

(** The enum with a comment that stands alone. *)
Lemma declaration_error_positioned_witness :
  match fst (handleProtoType (proto.pEnum Sample.enumWithComment) Ref.state0) with
  | Ok _ => True
  | Fail (Error msg) => exists pos inner, msg = errorText (filename (bld Ref.state0)) pos inner
  | Fail NilDeref => False
  end.
Proof.
  exact (declaration_error_positioned (proto.pEnum Sample.enumWithComment) Ref.state0 eq_refl).
Defined.

(** A name with [.proto] twice: [api/util.proto.proto] is written to
    [api/util.gunk.proto]. *)
Lemma gunk_file_name_witness :
  exists stem,
    filepath.Base "api/util.proto.proto" = stem +:+ ".proto" /\
    targetOf "api/util.proto.proto" =
      filepath_Join (filepath_Dir "api/util.proto.proto")
        (if Str.containsb ".proto" stem
         then Str.ReplaceFirst stem ".proto" ".gunk" +:+ ".proto"
         else stem +:+ ".gunk").
Proof. exact (gunk_file_name "api/util.proto.proto" eq_refl). Defined.

(** The folder [api], where [util.gunk] is there already. *)
Lemma convertFile_keeps_existing_witness :
  exists msg,
    OnDisk.convertFile "api/util.proto" false Sample.apiWorld =
    (Fail (Error msg), Sample.apiWorld).
Proof. exact (convertFile_keeps_existing "api/util.proto" Sample.apiWorld eq_refl). Defined.

(** The folder [api]: of its three entries, [util.proto] is
    converted. *)
Lemma run_directory_witness :
  OnDisk.run "api" true Sample.apiWorld =
  convertAll (map (fun f => filepath_Join "api" (FileInfo.Name f))
                  (protoFiles (fst (ioutil_ReadDir "api" (fs Sample.apiWorld)))))
    true Sample.apiWorld.
Proof.
  apply (run_directory "api" true Sample.apiWorld
           {| FileInfo.Name := "api"; FileInfo.IsDir := true |});
    [reflexivity | reflexivity | discriminate].
Defined.

End DeclarationSamples.
